(** * TimeKeeper: the record-persistence engine, the argument parser and
      the commands of the program

    The engine (include/Database.h, src/Database.cpp) builds SQL text from
    table names, column lists and name-to-field maps, hands the text to
    SQLite, binds the field values and decodes the rows that come back.  The
    argument parser (include/ArgParser.h, src/ArgParser.cpp) reads the command
    line into the values of declared arguments and writes the help page.  Of
    the program (src/main.cpp) the commands that change the store through
    more than one call of the engine, or answer for it, are embedded.

    This development embeds the functions of the engine and, below them, the
    part of the SQLite interface they call.  SQLite is a library outside the
    repository; it is modelled from its documented behaviour:
    - a tokenizer and a grammar for the statements the engine can emit
      (CREATE TABLE IF NOT EXISTS, INSERT with placeholders, DELETE and
      SELECT * with a conjunction of [column = ?] or with the ranking
      sub-query of the pseudo-id operations); a text outside this fragment
      does not compile in the model;
    - name resolution against the tables of the store;
    - binding of parameters, numbered from 1;
    - the execution of a statement on the store, a list of tables whose rows
      are kept in storage order.
    Failures of the storage medium (I/O, locking) are outside the model: a
    statement fails only for what it says.  *)

From Stdlib Require Import String Ascii List ZArith Bool Lia Arith.
From Stdlib Require Import SpecFloat.
Import ListNotations.

Local Open Scope string_scope.
Local Open Scope list_scope.

(** ** Characters and words of SQL text *)

Module Lexer.

(** Space, tab, line feed, form feed and carriage return separate tokens. *)
Definition isspace (c : ascii) : bool :=
  let n := nat_of_ascii c in
  ((n =? 32) || (n =? 9) || (n =? 10) || (n =? 12) || (n =? 13))%nat.

Definition isdigit (c : ascii) : bool :=
  let n := nat_of_ascii c in ((48 <=? n) && (n <=? 57))%nat.

Definition isupper (c : ascii) : bool :=
  let n := nat_of_ascii c in ((65 <=? n) && (n <=? 90))%nat.

Definition islower (c : ascii) : bool :=
  let n := nat_of_ascii c in ((97 <=? n) && (n <=? 122))%nat.

(** A character that may continue an identifier: a letter, a digit, the
    underscore, the dollar sign, or a byte of a multi-byte UTF-8
    character. *)
Definition IdChar (c : ascii) : bool :=
  isupper c || islower c || isdigit c
  || (nat_of_ascii c =? 95)%nat || (nat_of_ascii c =? 36)%nat
  || (128 <=? nat_of_ascii c)%nat.

Definition toupper (c : ascii) : ascii :=
  if islower c then ascii_of_nat (nat_of_ascii c - 32) else c.

(** SQL keywords and names compare without regard to ASCII case. *)
Fixpoint upper (s : string) : string :=
  match s with
  | EmptyString => EmptyString
  | String c s' => String (toupper c) (upper s')
  end.

Definition sqlite3StrICmp (a b : string) : bool := String.eqb (upper a) (upper b).

Fixpoint all_chars (p : ascii -> bool) (s : string) : bool :=
  match s with
  | EmptyString => true
  | String c s' => p c && all_chars p s'
  end.

Inductive token : Type :=
| TK_ID (z : string)        (* a word: keyword or identifier *)
| TK_INTEGER (z : string)
| TK_LP | TK_RP | TK_COMMA | TK_EQ | TK_STAR | TK_SEMI
| TK_VARIABLE               (* ? *)
| TK_ILLEGAL.

(** A maximal run of identifier characters is a number when it starts with
    a digit (and is made of digits) and a word otherwise.  A run that starts
    with a dollar sign is a named parameter; the engine emits none, and the
    model has no token for it. *)
Definition word (z : string) : token :=
  match z with
  | EmptyString => TK_ILLEGAL
  | String c _ =>
      if isdigit c then (if all_chars isdigit z then TK_INTEGER z else TK_ILLEGAL)
      else if (nat_of_ascii c =? 36)%nat then TK_ILLEGAL
      else TK_ID z
  end.

Definition flush (acc : string) : list token :=
  match acc with
  | EmptyString => []
  | _ => [word acc]
  end.

Definition punctuation (c : ascii) : token :=
  match c with
  | "("%char => TK_LP
  | ")"%char => TK_RP
  | ","%char => TK_COMMA
  | "="%char => TK_EQ
  | "*"%char => TK_STAR
  | ";"%char => TK_SEMI
  | "?"%char => TK_VARIABLE
  | _ => TK_ILLEGAL
  end.

(** The token sequence of a text; [acc] holds the word being read. *)
Fixpoint tokens_from (acc : string) (z : string) : list token :=
  match z with
  | EmptyString => flush acc
  | String c z' =>
      if IdChar c then tokens_from (acc ++ String c EmptyString) z'
      else if isspace c then flush acc ++ tokens_from EmptyString z'
      else flush acc ++ punctuation c :: tokens_from EmptyString z'
  end.

Definition tokenize (z : string) : list token := tokens_from EmptyString z.

(** Words the grammar does not accept as the name of a table or a column.
    The list errs on the side of refusing: it has the words that are never
    names and also those that are names in some places only (the CURRENT_*
    words, CAST and RAISE, which start an expression of their own, and the
    words of the join operators). *)
Definition reserved_words : list string :=
  [ "ADD"; "ALL"; "ALTER"; "AND"; "AS"; "AUTOINCREMENT"; "BETWEEN"; "CASE";
    "CHECK"; "COLLATE"; "COMMIT"; "CONSTRAINT"; "CREATE"; "DEFAULT";
    "DEFERRABLE"; "DELETE"; "DISTINCT"; "DROP"; "ELSE"; "ESCAPE"; "EXCEPT";
    "EXISTS"; "FOREIGN"; "FROM"; "GROUP"; "HAVING"; "IN"; "INDEX"; "INSERT";
    "INTERSECT"; "INTO"; "IS"; "ISNULL"; "JOIN"; "LIMIT"; "NOT"; "NOTHING";
    "NOTNULL"; "NULL"; "ON"; "OR"; "ORDER"; "PRIMARY"; "REFERENCES";
    "RETURNING"; "SELECT"; "SET"; "TABLE"; "THEN"; "TO"; "TRANSACTION";
    "UNION"; "UNIQUE"; "UPDATE"; "USING"; "VALUES"; "WHEN"; "WHERE";
    "CURRENT_DATE"; "CURRENT_TIME"; "CURRENT_TIMESTAMP"; "CAST"; "RAISE";
    "CROSS"; "FULL"; "INNER"; "LEFT"; "NATURAL"; "OUTER"; "RIGHT" ].

Definition is_reserved (z : string) : bool :=
  existsb (String.eqb (upper z)) reserved_words.

(** A bare identifier: what the engine can splice into its SQL text as a
    table or column name and have SQLite read back as that one name. *)
Definition is_identifier (z : string) : bool :=
  match z with
  | EmptyString => false
  | String c _ =>
      negb (isdigit c || (nat_of_ascii c =? 36)%nat)
      && all_chars IdChar z && negb (is_reserved z)
  end.

End Lexer.

(** ** The statements the engine emits *)

Module Parser.
Import Lexer.

Inductive column_constraint : Type :=
| PrimaryKey (autoincrement : bool)
| NotNull
| Unique
| Default (value : string)
| References (table : string) (columns : list string).

Record column_def : Type := mkColumnDef {
  cd_name : string;
  cd_type : list string;              (* the words of the declared type *)
  cd_constraints : list column_constraint
}.

(** [k = (WITH cte AS (SELECT ROW_NUMBER() OVER (ORDER BY o) AS a, c FROM t)
          SELECT c FROM cte WHERE a = ?)]:
    the value of column [c] in the row of [t] that has rank [?] when [t]
    is ordered by [o]. *)
Record rank_subquery : Type := mkRank {
  rk_cte : string;
  rk_order_by : string;
  rk_column : string;
  rk_table : string
}.

Inductive where_clause : Type :=
| WhereParams (columns : list string)               (* c1 = ? AND c2 = ? ... *)
| WhereRank (column : string) (sub : rank_subquery).

Inductive statement : Type :=
| CreateTable (if_not_exists : bool) (table : string) (columns : list column_def)
| Insert (table : string) (columns : list string) (placeholders : nat)
| Delete (table : string) (condition : option where_clause)
| Select (table : string) (condition : option where_clause).

Definition parser (A : Type) : Type := list token -> option (A * list token).

Definition keyword (k : string) : parser unit := fun ts =>
  match ts with
  | TK_ID z :: ts' => if String.eqb (upper z) k then Some (tt, ts') else None
  | _ => None
  end.

Definition nm : parser string := fun ts =>
  match ts with
  | TK_ID z :: ts' => if is_reserved z then None else Some (z, ts')
  | _ => None
  end.

(** A name that must be a given one (the query refers back to an alias). *)
Definition same_name (n : string) : parser unit := fun ts =>
  match nm ts with
  | Some (z, ts') => if sqlite3StrICmp z n then Some (tt, ts') else None
  | None => None
  end.

Definition lp : parser unit := fun ts =>
  match ts with TK_LP :: ts' => Some (tt, ts') | _ => None end.
Definition rp : parser unit := fun ts =>
  match ts with TK_RP :: ts' => Some (tt, ts') | _ => None end.
Definition comma : parser unit := fun ts =>
  match ts with TK_COMMA :: ts' => Some (tt, ts') | _ => None end.
Definition equals : parser unit := fun ts =>
  match ts with TK_EQ :: ts' => Some (tt, ts') | _ => None end.
Definition star : parser unit := fun ts =>
  match ts with TK_STAR :: ts' => Some (tt, ts') | _ => None end.
Definition variable : parser unit := fun ts =>
  match ts with TK_VARIABLE :: ts' => Some (tt, ts') | _ => None end.

Definition ret {A} (a : A) : parser A := fun ts => Some (a, ts).

Definition bind {A B} (p : parser A) (k : A -> parser B) : parser B := fun ts =>
  match p ts with
  | Some (a, ts') => k a ts'
  | None => None
  end.

Notation "x <- p ;; k" := (bind p (fun x => k))
  (at level 61, p at next level, right associativity).
Notation "p ;;; k" := (bind p (fun _ => k))
  (at level 61, right associativity).

(** name {, name} *)
Fixpoint name_list (ts : list token) : option (list string * list token) :=
  match ts with
  | TK_ID z :: ts1 =>
      if is_reserved z then None
      else match ts1 with
           | TK_COMMA :: ts2 =>
               match name_list ts2 with
               | Some (zs, ts3) => Some (z :: zs, ts3)
               | None => None
               end
           | _ => Some ([z], ts1)
           end
  | _ => None
  end.

(** ? {, ?} : the number of placeholders *)
Fixpoint variable_list (ts : list token) : option (nat * list token) :=
  match ts with
  | TK_VARIABLE :: ts1 =>
      match ts1 with
      | TK_COMMA :: ts2 =>
          match variable_list ts2 with
          | Some (n, ts3) => Some (S n, ts3)
          | None => None
          end
      | _ => Some (1, ts1)
      end
  | _ => None
  end.

(** name = ? {AND name = ?} *)
Fixpoint conjunction (ts : list token) : option (list string * list token) :=
  match ts with
  | TK_ID z :: TK_EQ :: TK_VARIABLE :: ts1 =>
      if is_reserved z then None
      else match ts1 with
           | TK_ID a :: ts2 =>
               if String.eqb (upper a) "AND" then
                 match conjunction ts2 with
                 | Some (zs, ts3) => Some (z :: zs, ts3)
                 | None => None
                 end
               else Some ([z], ts1)
           | _ => Some ([z], ts1)
           end
  | _ => None
  end.

Definition rank_condition : parser where_clause :=
  k <- nm ;; equals ;;; lp ;;;
  keyword "WITH" ;;; cte <- nm ;; keyword "AS" ;;; lp ;;;
  keyword "SELECT" ;;; keyword "ROW_NUMBER" ;;; lp ;;; rp ;;;
  keyword "OVER" ;;; lp ;;; keyword "ORDER" ;;; keyword "BY" ;;; o <- nm ;; rp ;;;
  keyword "AS" ;;; a <- nm ;; comma ;;; c <- nm ;;
  keyword "FROM" ;;; t <- nm ;; rp ;;;
  keyword "SELECT" ;;; same_name c ;;; keyword "FROM" ;;; same_name cte ;;;
  keyword "WHERE" ;;; same_name a ;;; equals ;;; variable ;;; rp ;;;
  ret (WhereRank k (mkRank cte o c t)).

(** What may follow WHERE.  There is no empty alternative: WHERE with
    nothing after it is not a statement. *)
Definition where_body : parser where_clause := fun ts =>
  match ts with
  | TK_ID _ :: TK_EQ :: TK_LP :: _ => rank_condition ts
  | _ => match conjunction ts with
         | Some (cs, ts') => Some (WhereParams cs, ts')
         | None => None
         end
  end.

Definition opt_where : parser (option where_clause) := fun ts =>
  match keyword "WHERE" ts with
  | Some (_, ts') =>
      match where_body ts' with
      | Some (w, ts'') => Some (Some w, ts'')
      | None => None
      end
  | None => Some (None, ts)
  end.

(** The words of a declared type: the names up to the first constraint. *)
Fixpoint type_words (ts : list token) : list string * list token :=
  match ts with
  | TK_ID z :: ts' =>
      if is_reserved z then ([], ts)
      else let (zs, rest) := type_words ts' in (z :: zs, rest)
  | _ => ([], ts)
  end.

Definition default_value : parser string := fun ts =>
  match ts with
  | TK_INTEGER z :: ts' => Some (z, ts')
  | TK_ID z :: ts' =>
      if negb (is_reserved z)
         || existsb (String.eqb (upper z))
              ["NULL"; "CURRENT_DATE"; "CURRENT_TIME"; "CURRENT_TIMESTAMP"]
      then Some (z, ts') else None
  | _ => None
  end.

Definition opt_column_list : parser (list string) := fun ts =>
  match ts with
  | TK_LP :: ts1 =>
      match name_list ts1 with
      | Some (zs, TK_RP :: ts2) => Some (zs, ts2)
      | _ => None
      end
  | _ => Some ([], ts)
  end.

(** The constraints of one column, in the order written. *)
Fixpoint constraints (ts : list token) : option (list column_constraint * list token) :=
  let more (c : column_constraint) (r : option (list column_constraint * list token)) :=
    match r with
    | Some (cs, ts') => Some (c :: cs, ts')
    | None => None
    end in
  match ts with
  | TK_ID k :: ts1 =>
      if String.eqb (upper k) "PRIMARY" then
        match ts1 with
        | TK_ID k2 :: ts2 =>
            if String.eqb (upper k2) "KEY" then
              match ts2 with
              | TK_ID k3 :: ts3 =>
                  if String.eqb (upper k3) "AUTOINCREMENT"
                  then more (PrimaryKey true) (constraints ts3)
                  else more (PrimaryKey false) (constraints ts2)
              | _ => more (PrimaryKey false) (constraints ts2)
              end
            else None
        | _ => None
        end
      else if String.eqb (upper k) "NOT" then
        match ts1 with
        | TK_ID k2 :: ts2 =>
            if String.eqb (upper k2) "NULL" then more NotNull (constraints ts2) else None
        | _ => None
        end
      else if String.eqb (upper k) "UNIQUE" then more Unique (constraints ts1)
      else if String.eqb (upper k) "DEFAULT" then
        match ts1 with
        | v :: ts2 =>
            match default_value [v] with
            | Some (z, _) => more (Default z) (constraints ts2)
            | None => None
            end
        | [] => None
        end
      else if String.eqb (upper k) "REFERENCES" then
        match ts1 with
        | TK_ID t :: TK_LP :: TK_ID c :: TK_RP :: ts2 =>
            if is_reserved t || is_reserved c then None
            else more (References t [c]) (constraints ts2)
        | TK_ID t :: ts2 =>
            if is_reserved t then None
            else more (References t []) (constraints ts2)
        | _ => None
        end
      else Some ([], ts)
  | _ => Some ([], ts)
  end.

Definition column : parser column_def :=
  n <- nm ;;
  fun ts =>
    let (ty, ts1) := type_words ts in
    match constraints ts1 with
    | Some (cs, ts2) => Some (mkColumnDef n ty cs, ts2)
    | None => None
    end.

(** column {, column}; the fuel is the number of tokens, an upper bound on
    the number of columns. *)
Fixpoint column_list (fuel : nat) (ts : list token) : option (list column_def * list token) :=
  match fuel with
  | O => None
  | S fuel' =>
      match column ts with
      | Some (cd, TK_COMMA :: ts1) =>
          match column_list fuel' ts1 with
          | Some (cds, ts2) => Some (cd :: cds, ts2)
          | None => None
          end
      | Some (cd, ts1) => Some ([cd], ts1)
      | None => None
      end
  end.

Definition opt_if_not_exists : parser bool := fun ts =>
  match (keyword "IF" ;;; keyword "NOT" ;;; keyword "EXISTS" ;;; ret true) ts with
  | Some r => Some r
  | None => Some (false, ts)
  end.

Definition create_table : parser statement :=
  keyword "CREATE" ;;; keyword "TABLE" ;;; ine <- opt_if_not_exists ;;
  t <- nm ;; lp ;;;
  cds <- (fun ts => column_list (S (length ts)) ts) ;; rp ;;;
  ret (CreateTable ine t cds).

Definition insert : parser statement :=
  keyword "INSERT" ;;; keyword "INTO" ;;; t <- nm ;;
  lp ;;; cols <- name_list ;; rp ;;;
  keyword "VALUES" ;;; lp ;;; n <- variable_list ;; rp ;;;
  ret (Insert t cols n).

Definition delete : parser statement :=
  keyword "DELETE" ;;; keyword "FROM" ;;; t <- nm ;;
  w <- opt_where ;; ret (Delete t w).

Definition select : parser statement :=
  keyword "SELECT" ;;; star ;;; keyword "FROM" ;;; t <- nm ;;
  w <- opt_where ;; ret (Select t w).

Definition first_word (ts : list token) : string :=
  match ts with
  | TK_ID z :: _ => upper z
  | _ => EmptyString
  end.

Definition one_statement : parser statement := fun ts =>
  let w := first_word ts in
  if String.eqb w "CREATE" then create_table ts
  else if String.eqb w "INSERT" then insert ts
  else if String.eqb w "DELETE" then delete ts
  else if String.eqb w "SELECT" then select ts
  else None.

(** The first statement of a text.  It ends at the end of the text or at a
    semicolon; what follows the semicolon is left uncompiled. *)
Definition parse (zSql : string) : option statement :=
  match one_statement (tokenize zSql) with
  | Some (s, []) => Some s
  | Some (s, TK_SEMI :: _) => Some s
  | _ => None
  end.

End Parser.

(** ** Values, tables and the store *)

Module SQLite.
Import Lexer Parser.

(** An IEEE-754 double by sign, mantissa and exponent.  The engine moves
    doubles between its fields and the store and never computes on them. *)
Definition double : Type := spec_float.

(** The five storage classes, named by the codes sqlite3_column_type
    returns. *)
Inductive sqlite_value : Type :=
| SQLITE_INTEGER (i : Z)        (* a 64-bit signed integer *)
| SQLITE_FLOAT (r : double)
| SQLITE_TEXT (z : string)
| SQLITE_BLOB (b : string)
| SQLITE_NULL.

Definition row : Type := list sqlite_value.

Record Table : Type := mkTable {
  tbl_name : string;
  tbl_columns : list column_def;
  tbl_rows : list row                 (* in storage order *)
}.

(** The database file behind a connection: its tables. *)
Definition sqlite3 : Type := list Table.

Fixpoint sqlite3FindTable (db : sqlite3) (zName : string) : option Table :=
  match db with
  | [] => None
  | t :: db' => if sqlite3StrICmp (tbl_name t) zName then Some t else sqlite3FindTable db' zName
  end.

(** Replace the rows of the (first) table called [zName]. *)
Fixpoint set_rows (db : sqlite3) (zName : string) (rows : list row) : sqlite3 :=
  match db with
  | [] => []
  | t :: db' =>
      if sqlite3StrICmp (tbl_name t) zName
      then mkTable (tbl_name t) (tbl_columns t) rows :: db'
      else t :: set_rows db' zName rows
  end.

Fixpoint column_index (cols : list column_def) (zName : string) : option nat :=
  match cols with
  | [] => None
  | c :: cols' =>
      if sqlite3StrICmp (cd_name c) zName then Some O
      else option_map S (column_index cols' zName)
  end.

Definition column_value (r : row) (i : nat) : sqlite_value := nth i r SQLITE_NULL.

(** *** Comparison *)

(** An integer against a double, exactly. *)
Definition int_double_compare (i : Z) (r : double) : comparison :=
  match r with
  | S754_zero _ => (i ?= 0)%Z
  | S754_infinity neg => if neg then Gt else Lt
  | S754_nan => Lt
  | S754_finite neg m e =>
      let v := if neg then Z.neg m else Z.pos m in
      if (0 <=? e)%Z then (i ?= v * 2 ^ e)%Z else (i * 2 ^ (- e) ?= v)%Z
  end.

Definition double_compare (a b : double) : comparison :=
  match SFcompare a b with
  | Some c => c
  | None => Eq
  end.

(** The order of ORDER BY and of [=] under the BINARY collation: NULL first,
    then numbers by value, then text, then blobs, both bytewise. *)
Definition sqlite3MemCompare (a b : sqlite_value) : comparison :=
  match a, b with
  | SQLITE_NULL, SQLITE_NULL => Eq
  | SQLITE_NULL, _ => Lt
  | _, SQLITE_NULL => Gt
  | SQLITE_INTEGER x, SQLITE_INTEGER y => (x ?= y)%Z
  | SQLITE_INTEGER x, SQLITE_FLOAT y => int_double_compare x y
  | SQLITE_FLOAT x, SQLITE_INTEGER y => CompOpp (int_double_compare y x)
  | SQLITE_FLOAT x, SQLITE_FLOAT y => double_compare x y
  | (SQLITE_INTEGER _ | SQLITE_FLOAT _), _ => Lt
  | _, (SQLITE_INTEGER _ | SQLITE_FLOAT _) => Gt
  | SQLITE_TEXT x, SQLITE_TEXT y => String.compare x y
  | SQLITE_TEXT _, SQLITE_BLOB _ => Lt
  | SQLITE_BLOB _, SQLITE_TEXT _ => Gt
  | SQLITE_BLOB x, SQLITE_BLOB y => String.compare x y
  end.

(** [x = y] in a WHERE clause: never true when either side is NULL. *)
Definition sql_equal (x y : sqlite_value) : bool :=
  match x, y with
  | SQLITE_NULL, _ | _, SQLITE_NULL => false
  | _, _ => match sqlite3MemCompare x y with Eq => true | _ => false end
  end.

Definition sql_le (x y : sqlite_value) : bool :=
  match sqlite3MemCompare x y with Gt => false | _ => true end.

(** *** ORDER BY: a stable sort on one column *)

Fixpoint sort_insert (i : nat) (r : row) (rs : list row) : list row :=
  match rs with
  | [] => [r]
  | r' :: rs' =>
      if sql_le (column_value r i) (column_value r' i) then r :: rs
      else r' :: sort_insert i r rs'
  end.

Fixpoint order_by (i : nat) (rs : list row) : list row :=
  match rs with
  | [] => []
  | r :: rs' => sort_insert i r (order_by i rs')
  end.

(** *** Prepared statements *)

(** What a parameter was bound with, by the call that bound it. *)
Inductive binding : Type :=
| Unbound
| BoundInt (i : Z)              (* sqlite3_bind_int *)
| BoundDouble (r : double)      (* sqlite3_bind_double *)
| BoundText (z : string).       (* sqlite3_bind_text, nByte = -1 *)

Record sqlite3_stmt : Type := mkStmt {
  stmt_sql : statement;
  stmt_vars : list binding      (* parameter 1 first *)
}.

(** The bytes of a C string: those before the first NUL. *)
Fixpoint c_str (z : string) : string :=
  match z with
  | EmptyString => EmptyString
  | String c z' => if (nat_of_ascii c =? 0)%nat then EmptyString else String c (c_str z')
  end.

(** The value a parameter has when the statement runs.  An unbound
    parameter is NULL, and so is a double that is not a number; text bound
    with a negative length runs up to its terminator. *)
Definition bound_value (b : binding) : sqlite_value :=
  match b with
  | Unbound => SQLITE_NULL
  | BoundInt i => SQLITE_INTEGER i
  | BoundDouble S754_nan => SQLITE_NULL
  | BoundDouble r => SQLITE_FLOAT r
  | BoundText z => SQLITE_TEXT (c_str z)
  end.

Definition variable_count (s : statement) : nat :=
  match s with
  | CreateTable _ _ _ => 0
  | Insert _ _ n => n
  | Delete _ (Some (WhereParams cs)) | Select _ (Some (WhereParams cs)) => length cs
  | Delete _ (Some (WhereRank _ _)) | Select _ (Some (WhereRank _ _)) => 1
  | Delete _ None | Select _ None => 0
  end.

Inductive rc : Type := SQLITE_OK | SQLITE_RANGE.

Fixpoint set_nth {A} (n : nat) (x : A) (l : list A) : list A :=
  match l, n with
  | [], _ => []
  | _ :: l', O => x :: l'
  | y :: l', S n' => y :: set_nth n' x l'
  end.

(** Parameters are numbered from 1; an index outside the statement's
    parameters is refused and binds nothing. *)
Definition sqlite3_bind (stmt : sqlite3_stmt) (index : Z) (b : binding) : rc * sqlite3_stmt :=
  if ((1 <=? index) && (index <=? Z.of_nat (length (stmt_vars stmt))))%Z
  then (SQLITE_OK, mkStmt (stmt_sql stmt) (set_nth (Z.to_nat (index - 1)) b (stmt_vars stmt)))
  else (SQLITE_RANGE, stmt).

Definition sqlite3_bind_int stmt index (i : Z) := sqlite3_bind stmt index (BoundInt i).
Definition sqlite3_bind_double stmt index (r : double) := sqlite3_bind stmt index (BoundDouble r).
Definition sqlite3_bind_text stmt index (z : string) := sqlite3_bind stmt index (BoundText z).

End SQLite.

Import Lexer Parser SQLite.

(** ** Exceptions and results *)

Inductive exception : Type :=
| invalid_argument (what : string)
| runtime_error (what : string)
| bad_variant_access.

Inductive result (A : Type) : Type :=
| Return (a : A)
| Throw (e : exception).

Arguments Return {A} a.
Arguments Throw {A} e.

(** ** The data model (include/Database.h) *)

(** [std::variant<int, double, std::string>] *)
Inductive Field : Type :=
| FInt (i : Z)
| FDouble (d : double)
| FString (s : string).

(** [std::unordered_map<std::string, Field>], by the sequence of its elements
    as an iteration visits them.  Keys are distinct; the order is the
    container's own and is the same for every traversal of an unmodified
    map. *)
Definition RecordData : Type := list (string * Field).

Record Record_ : Type := mkRecord {
  data : RecordData;
  table : string
}.

Record Column : Type := mkColumn {
  name : string;
  type : string;
  primaryKey : bool;
  autoIncrement : bool;
  notNull : bool;
  unique : bool;
  defaultVal : option string;
  foreignKey : option string
}.

Definition holds_alternative_int (v : Field) : bool :=
  match v with FInt _ => true | _ => false end.
Definition holds_alternative_double (v : Field) : bool :=
  match v with FDouble _ => true | _ => false end.
Definition holds_alternative_string (v : Field) : bool :=
  match v with FString _ => true | _ => false end.

Definition get_int (v : Field) : result Z :=
  match v with FInt i => Return i | _ => Throw bad_variant_access end.
Definition get_double (v : Field) : result double :=
  match v with FDouble d => Return d | _ => Throw bad_variant_access end.
Definition get_string (v : Field) : result string :=
  match v with FString s => Return s | _ => Throw bad_variant_access end.

(** [m[k] = v]: the value under an existing key is replaced where it is; a
    new key is added (the model puts it last). *)
Fixpoint assign (m : RecordData) (k : string) (v : Field) : RecordData :=
  match m with
  | [] => [(k, v)]
  | (k', v') :: m' => if String.eqb k' k then (k, v) :: m' else (k', v') :: assign m' k v
  end.

Fixpoint find (m : RecordData) (k : string) : option Field :=
  match m with
  | [] => None
  | (k', v) :: m' => if String.eqb k' k then Some v else find m' k
  end.

Definition empty (s : string) : bool :=
  match s with EmptyString => true | _ => false end.

(** ** SQLite on the statements of the engine *)

(** Two parts of SQLite that the engine relies on, but whose detail no
    statement of this development depends on, are taken as given:
    - [applyAffinity ty v]: the value [v] of a parameter after the affinity
      of a column declared with type [ty] has been applied to it, as SQLite
      does before it compares the parameter with the column;
    - [insertRow t vs]: the rows of table [t] after an INSERT that gives the
      listed columns the listed values (affinity, defaults, the choice of a
      rowid and the constraints are SQLite's), or the message of the
      constraint that refuses it. *)
Class Internals : Type := {
  applyAffinity : list string -> sqlite_value -> sqlite_value;
  insertRow : Table -> list (string * sqlite_value) -> string + list row
}.

Section Engine.

Context `{Internals}.

(** *** Compiling a statement *)

Definition has_column (t : Table) (c : string) : bool :=
  match column_index (tbl_columns t) c with Some _ => true | None => false end.

Fixpoint first_missing (t : Table) (cs : list string) : option string :=
  match cs with
  | [] => None
  | c :: cs' => if has_column t c then first_missing t cs' else Some c
  end.

Definition is_primary_key (c : column_constraint) : bool :=
  match c with PrimaryKey _ => true | _ => false end.
Definition is_autoincrement (c : column_constraint) : bool :=
  match c with PrimaryKey true => true | _ => false end.

Definition primary_keys (cds : list column_def) : nat :=
  length (filter is_primary_key (flat_map cd_constraints cds)).

Definition integer_type (ty : list string) : bool :=
  match ty with
  | [w] => String.eqb (upper w) "INTEGER"
  | _ => false
  end.

Fixpoint duplicate_column (cds : list column_def) : option string :=
  match cds with
  | [] => None
  | cd :: cds' =>
      if existsb (fun cd' => sqlite3StrICmp (cd_name cd') (cd_name cd)) cds'
      then Some (cd_name cd) else duplicate_column cds'
  end.

Definition reserved_object_name (t : string) : bool :=
  String.prefix "SQLITE_" (upper t).

(** The checks on the columns of a table that is about to be created. *)
Definition check_new_table (cds : list column_def) : option string :=
  match duplicate_column cds with
  | Some c => Some ("duplicate column name: " ++ c)%string
  | None =>
      if (1 <? primary_keys cds)%nat then Some "table has more than one primary key"
      else if existsb (fun cd => existsb is_autoincrement (cd_constraints cd)
                                 && negb (integer_type (cd_type cd))) cds
      then Some "AUTOINCREMENT is only allowed on an INTEGER PRIMARY KEY"
      else None
  end.

Definition check_where (db : sqlite3) (t : Table) (w : option where_clause) : option string :=
  match w with
  | None => None
  | Some (WhereParams cs) =>
      match first_missing t cs with
      | Some c => Some ("no such column: " ++ c)%string
      | None => None
      end
  | Some (WhereRank k sub) =>
      if negb (has_column t k) then Some ("no such column: " ++ k)%string
      else if sqlite3StrICmp (rk_table sub) (rk_cte sub)
      then (* inside its own definition the name of the sub-query hides the
              table of that name *)
        Some ("circular reference: " ++ rk_cte sub)%string
      else match sqlite3FindTable db (rk_table sub) with
           | None => Some ("no such table: " ++ rk_table sub)%string
           | Some t' =>
               match first_missing t' [rk_order_by sub; rk_column sub] with
               | Some c => Some ("no such column: " ++ c)%string
               | None =>
                   (* The comparand comes from the compared column itself,
                      as in both statements the engine emits; the model
                      compiles no other combination. *)
                   if sqlite3StrICmp (tbl_name t) (tbl_name t')
                      && sqlite3StrICmp k (rk_column sub)
                   then None
                   else Some "comparison across columns"
               end
           end
  end.

(** Name resolution: [None] when the statement compiles. *)
Definition resolve (db : sqlite3) (s : statement) : option string :=
  match s with
  | CreateTable ine t cds =>
      if reserved_object_name t
      then Some ("object name reserved for internal use: " ++ t)%string
      else match sqlite3FindTable db t with
           | Some _ => if ine then None else Some ("table " ++ t ++ " already exists")%string
           | None => check_new_table cds
           end
  | Insert t cs n =>
      match sqlite3FindTable db t with
      | None => Some ("no such table: " ++ t)%string
      | Some tb =>
          match first_missing tb cs with
          | Some c => Some ("table " ++ t ++ " has no column named " ++ c)%string
          | None => if (length cs =? n)%nat then None
                    else Some "values do not match the columns"
          end
      end
  | Delete t w | Select t w =>
      match sqlite3FindTable db t with
      | None => Some ("no such table: " ++ t)%string
      | Some tb => check_where db tb w
      end
  end.

(** [sqlite3_prepare_v2(db, zSql, -1, &stmt, nullptr)]: the compiled first
    statement of [zSql] with every parameter unbound, or the message
    [sqlite3_errmsg] gives afterwards. *)
Definition sqlite3_prepare_v2 (db : sqlite3) (zSql : string) : string + sqlite3_stmt :=
  match parse zSql with
  | None => inl "syntax error"
  | Some s =>
      match resolve db s with
      | Some msg => inl msg
      | None => inr (mkStmt s (repeat Unbound (variable_count s)))
      end
  end.

(** *** Running a statement *)

Definition declared_type (t : Table) (c : string) : list string :=
  match column_index (tbl_columns t) c with
  | Some i => cd_type (nth i (tbl_columns t) (mkColumnDef EmptyString [] []))
  | None => []
  end.

Definition column_of (t : Table) (c : string) (r : row) : sqlite_value :=
  match column_index (tbl_columns t) c with
  | Some i => column_value r i
  | None => SQLITE_NULL
  end.

(** [c1 = ? AND c2 = ? ...] on one row, the parameters in order. *)
Fixpoint matches (t : Table) (cs : list string) (vars : list binding) (r : row) : bool :=
  match cs with
  | [] => true
  | c :: cs' =>
      let p := match vars with b :: _ => bound_value b | [] => SQLITE_NULL end in
      sql_equal (column_of t c r) (applyAffinity (declared_type t c) p)
      && matches t cs' (tl vars) r
  end.

(** The scalar subquery: the value of [rk_column] in the row of rank [k]
    (from 1) of [rk_table] ordered by [rk_order_by]; NULL when there is no
    such row. *)
Definition rank_value (db : sqlite3) (sub : rank_subquery) (k : sqlite_value) : sqlite_value :=
  match sqlite3FindTable db (rk_table sub), k with
  | Some t, SQLITE_INTEGER n =>
      match column_index (tbl_columns t) (rk_order_by sub) with
      | Some o =>
          if (1 <=? n)%Z then
            match nth_error (order_by o (tbl_rows t)) (Z.to_nat (n - 1)) with
            | Some r => column_of t (rk_column sub) r
            | None => SQLITE_NULL
            end
          else SQLITE_NULL
      | None => SQLITE_NULL
      end
  | _, _ => SQLITE_NULL
  end.

(** Whether a row satisfies the WHERE clause of a statement. *)
Definition selects (db : sqlite3) (t : Table) (w : option where_clause)
           (vars : list binding) (r : row) : bool :=
  match w with
  | None => true
  | Some (WhereParams cs) => matches t cs vars r
  | Some (WhereRank k sub) =>
      let p := match vars with b :: _ => bound_value b | [] => SQLITE_NULL end in
      sql_equal (column_of t k r) (rank_value db sub p)
  end.

(** A result row: each column of the table by name, with its value. *)
Definition result_row (t : Table) (r : row) : list (string * sqlite_value) :=
  map (fun ic => (cd_name (snd ic), column_value r (fst ic)))
      (combine (seq 0 (length (tbl_columns t))) (tbl_columns t)).

(** What a run of [sqlite3_step] calls on a statement gives: SQLITE_ROW
    once for each row of [Rows], in order, and then SQLITE_DONE; or an
    error code, with the message of [Failure]. *)
Inductive execution : Type :=
| Rows (rs : list (list (string * sqlite_value)))
| Failure (errmsg : string).

Definition sqlite3_step (db : sqlite3) (stmt : sqlite3_stmt) : execution * sqlite3 :=
  match stmt_sql stmt with
  | CreateTable _ t cds =>
      match sqlite3FindTable db t with
      | Some _ => (Rows [], db)
      | None => (Rows [], db ++ [mkTable t cds []])
      end
  | Insert t cs _ =>
      match sqlite3FindTable db t with
      | None => (Failure ("no such table: " ++ t)%string, db)
      | Some tb =>
          match insertRow tb (combine cs (map bound_value (stmt_vars stmt))) with
          | inl msg => (Failure msg, db)
          | inr rows => (Rows [], set_rows db t rows)
          end
      end
  | Delete t w =>
      match sqlite3FindTable db t with
      | None => (Failure ("no such table: " ++ t)%string, db)
      | Some tb =>
          (Rows [],
           set_rows db t
             (filter (fun r => negb (selects db tb w (stmt_vars stmt) r)) (tbl_rows tb)))
      end
  | Select t w =>
      match sqlite3FindTable db t with
      | None => (Failure ("no such table: " ++ t)%string, db)
      | Some tb =>
          (Rows (map (result_row tb)
                     (filter (selects db tb w (stmt_vars stmt)) (tbl_rows tb))),
           db)
      end
  end.

Local Open Scope string_scope.

(** The code of the first [sqlite3_step] call on a statement. *)
Inductive step_code : Type :=
| SQLITE_ROW (r : list (string * sqlite_value))
| SQLITE_DONE
| SQLITE_ERROR (errmsg : string).

Definition first_step (e : execution) : step_code :=
  match e with
  | Rows [] => SQLITE_DONE
  | Rows (r :: _) => SQLITE_ROW r
  | Failure errmsg => SQLITE_ERROR errmsg
  end.

(** [sqlite3_errmsg(db)] after a step that returned [c]. *)
Definition sqlite3_errmsg (c : step_code) : string :=
  match c with
  | SQLITE_ERROR errmsg => errmsg
  | _ => "not an error"
  end.

(** [(int) v] for a 64-bit [v]: what sqlite3_column_int returns. *)
Definition sqlite3_column_int (v : Z) : Z :=
  ((v + 2 ^ 31) mod 2 ^ 32 - 2 ^ 31)%Z.

(** ** The engine (src/Database.cpp)

    Every operation takes the store as it is and gives what it returns or
    throws together with the store as it leaves it.  [sqlite3_finalize]
    releases a statement and has no effect on the store; it is left out. *)

(** The body of the loop over [columns] in createTable: one column
    definition appended to the text built so far. *)
Definition columnDefinition (columnDefinitions : string) (c : Column) : string :=
  let s := if negb (empty columnDefinitions)
           then columnDefinitions ++ ", " else columnDefinitions in
  let s := s ++ (name c ++ " " ++ type c) in
  let s := if primaryKey c then s ++ " PRIMARY KEY" else s in
  let s := if autoIncrement c then s ++ " AUTOINCREMENT" else s in
  let s := if notNull c then s ++ " NOT NULL" else s in
  let s := if unique c then s ++ " UNIQUE" else s in
  let s := match defaultVal c with
           | Some v => s ++ (" DEFAULT " ++ v)
           | None => s
           end in
  match foreignKey c with
  | Some v => s ++ (" REFERENCES " ++ v)
  | None => s
  end.

Definition createTable_query (table : string) (columns : list Column) : string :=
  let columnDefinitions := fold_left columnDefinition columns EmptyString in
  "CREATE TABLE IF NOT EXISTS " ++ table ++ " (" ++ columnDefinitions ++ ")".

(** createTable, lines 22-81. *)
Definition createTable (table : string) (columns : list Column) (db : sqlite3)
  : result unit * sqlite3 :=
  match columns with
  | [] => (Throw (invalid_argument "Cannot create a table without columns."), db)
  | _ :: _ =>
      let query := createTable_query table columns in
      match sqlite3_prepare_v2 db query with
      | inl errmsg => (Throw (runtime_error ("Failed to prepare statement: " ++ errmsg)), db)
      | inr stmt =>
          let (e, db') := sqlite3_step db stmt in
          match first_step e with
          | SQLITE_DONE => (Return tt, db')
          | c => (Throw (runtime_error ("Failed to execute statement: " ++ sqlite3_errmsg c)), db')
          end
      end
  end.

(** The body of the loop over the keys in addRecord. *)
Definition addRecord_key (acc : string * string) (key : string) : string * string :=
  let (columns, placeholders) := acc in
  let (columns, placeholders) :=
    if negb (empty columns) then (columns ++ ", ", placeholders ++ ", ")
    else (columns, placeholders) in
  (columns ++ key, placeholders ++ "?").

Definition addRecord_query (record : Record_) : string :=
  let (columns, placeholders) :=
    fold_left addRecord_key (map fst (data record)) (EmptyString, EmptyString) in
  "INSERT INTO " ++ table record ++ " (" ++ columns ++ ") VALUES (" ++ placeholders ++ ")".

(** The loop that binds the fields of a map to the parameters of a
    statement, from parameter [index] on.  addRecord (lines 105-118),
    removeRecord (lines 149-162) and getRecord (lines 227-240) each have it;
    only the text of the message differs.  The codes the bind calls return
    are not looked at. *)
Fixpoint bindFields (unsupported : string) (stmt : sqlite3_stmt) (index : Z)
         (data : RecordData) : result sqlite3_stmt :=
  match data with
  | [] => Return stmt
  | (key, value) :: data' =>
      if holds_alternative_int value then
        match get_int value with
        | Return i => bindFields unsupported (snd (sqlite3_bind_int stmt index i)) (index + 1) data'
        | Throw e => Throw e
        end
      else if holds_alternative_double value then
        match get_double value with
        | Return d => bindFields unsupported (snd (sqlite3_bind_double stmt index d)) (index + 1) data'
        | Throw e => Throw e
        end
      else if holds_alternative_string value then
        match get_string value with
        | Return s => bindFields unsupported (snd (sqlite3_bind_text stmt index s)) (index + 1) data'
        | Throw e => Throw e
        end
      else Throw (runtime_error (unsupported ++ key))
  end.

(** addRecord, lines 83-128. *)
Definition addRecord (record : Record_) (db : sqlite3) : result unit * sqlite3 :=
  let query := addRecord_query record in
  match sqlite3_prepare_v2 db query with
  | inl errmsg => (Throw (runtime_error ("Failed to prepare statement: " ++ errmsg)), db)
  | inr stmt =>
      match bindFields "Unsupported field type in record: " stmt 1 (data record) with
      | Throw e => (Throw e, db)
      | Return stmt =>
          let (e, db') := sqlite3_step db stmt in
          match first_step e with
          | SQLITE_DONE => (Return tt, db')
          | c => (Throw (runtime_error ("Failed to execute statement: " ++ sqlite3_errmsg c)), db')
          end
      end
  end.

(** The body of the loop over the keys in removeRecord and getRecord. *)
Definition whereClause_key (whereClause : string) (key : string) : string :=
  let s := if negb (empty whereClause) then whereClause ++ " AND " else whereClause in
  s ++ (key ++ " = ?").

Definition whereClause (data : RecordData) : string :=
  fold_left whereClause_key (map fst data) EmptyString.

Definition removeRecord_query (table : string) (data : RecordData) : string :=
  "DELETE FROM " ++ table ++ " WHERE " ++ whereClause data.

(** removeRecord, lines 130-172. *)
Definition removeRecord (table : string) (data : RecordData) (db : sqlite3)
  : result unit * sqlite3 :=
  let query := removeRecord_query table data in
  match sqlite3_prepare_v2 db query with
  | inl errmsg => (Throw (runtime_error ("Failed to prepare statement: " ++ errmsg)), db)
  | inr stmt =>
      match bindFields "Unsupported field type in data: " stmt 1 data with
      | Throw e => (Throw e, db)
      | Return stmt =>
          let (e, db') := sqlite3_step db stmt in
          match first_step e with
          | SQLITE_DONE => (Return tt, db')
          | c => (Throw (runtime_error ("Failed to execute statement: " ++ sqlite3_errmsg c)), db')
          end
      end
  end.

(** The text both pseudo-id operations put after the table name: the second
    and third raw string of lines 175-186 and 278-289, around the table
    name. *)
Definition pseudoId_condition (table : string) : string :=
  "
        WHERE id = (
            WITH PseudoIDs AS (
                SELECT ROW_NUMBER() OVER (ORDER BY id) AS pseudo_id, id
                FROM " ++ table ++ "
            )
            SELECT id
            FROM PseudoIDs
            WHERE pseudo_id = ?
        );
    ".

Definition removeRecordByPseudoId_query (table : string) : string :=
  "
        DELETE FROM " ++ table ++ pseudoId_condition table.

(** removeRecordByPseudoId, lines 174-206. *)
Definition removeRecordByPseudoId (table : string) (pseudoId : Z) (db : sqlite3)
  : result unit * sqlite3 :=
  let query := removeRecordByPseudoId_query table in
  match sqlite3_prepare_v2 db query with
  | inl errmsg => (Throw (runtime_error ("Failed to prepare statement: " ++ errmsg)), db)
  | inr stmt =>
      match sqlite3_bind_int stmt 1 pseudoId with
      | (SQLITE_OK, stmt) =>
          let (e, db') := sqlite3_step db stmt in
          match first_step e with
          | SQLITE_DONE => (Return tt, db')
          | c => (Throw (runtime_error ("Failed to execute statement: " ++ sqlite3_errmsg c)), db')
          end
      | (_, _) => (Throw (runtime_error ("Failed to bind pseudo-ID: " ++ "column index out of range")), db)
      end
  end.

(** [std::string(reinterpret_cast<const char *>(sqlite3_column_text(stmt, i)))] *)
Definition column_text (z : string) : string := c_str z.

(** The loop over the columns of a result row: the switch on
    [sqlite3_column_type] that getRecord (lines 245-264),
    getRecordByPseudoId (lines 305-324) and getAllRecords (lines 351-372)
    each contain, word for word. *)
Fixpoint decodeRow (columns : list (string * sqlite_value)) (recordData : RecordData)
  : result RecordData :=
  match columns with
  | [] => Return recordData
  | (columnName, v) :: columns' =>
      match v with
      | SQLITE_INTEGER i => decodeRow columns' (assign recordData columnName (FInt (sqlite3_column_int i)))
      | SQLITE_FLOAT r => decodeRow columns' (assign recordData columnName (FDouble r))
      | SQLITE_TEXT z => decodeRow columns' (assign recordData columnName (FString (column_text z)))
      | SQLITE_NULL => decodeRow columns' (assign recordData columnName (FString EmptyString))
      | SQLITE_BLOB _ =>
          Throw (runtime_error ("Unsupported column type for column: " ++ columnName))
      end
  end.

Definition getRecord_query (table : string) (data : RecordData) : string :=
  "SELECT * FROM " ++ table ++ " WHERE " ++ whereClause data.

(** getRecord, lines 208-275.  Any first step other than SQLITE_ROW, an
    error code included, is reported as no record found. *)
Definition getRecord (table : string) (data : RecordData) (db : sqlite3)
  : result Record_ * sqlite3 :=
  let query := getRecord_query table data in
  match sqlite3_prepare_v2 db query with
  | inl errmsg => (Throw (runtime_error ("Failed to prepare statement: " ++ errmsg)), db)
  | inr stmt =>
      match bindFields "Unsupported field type in data: " stmt 1 data with
      | Throw e => (Throw e, db)
      | Return stmt =>
          let (e, db') := sqlite3_step db stmt in
          match first_step e with
          | SQLITE_ROW r =>
              match decodeRow r [] with
              | Return recordData => (Return (mkRecord recordData table), db')
              | Throw e => (Throw e, db')
              end
          | _ => (Throw (runtime_error "Record not found with the given criteria"), db')
          end
      end
  end.

Definition getRecordByPseudoId_query (table : string) : string :=
  "
        SELECT * FROM " ++ table ++ pseudoId_condition table.

(** getRecordByPseudoId, lines 277-335. *)
Definition getRecordByPseudoId (table : string) (pseudoId : Z) (db : sqlite3)
  : result Record_ * sqlite3 :=
  let query := getRecordByPseudoId_query table in
  match sqlite3_prepare_v2 db query with
  | inl errmsg => (Throw (runtime_error ("Failed to prepare statement: " ++ errmsg)), db)
  | inr stmt =>
      match sqlite3_bind_int stmt 1 pseudoId with
      | (SQLITE_OK, stmt) =>
          let (e, db') := sqlite3_step db stmt in
          match first_step e with
          | SQLITE_ROW r =>
              match decodeRow r [] with
              | Return recordData => (Return (mkRecord recordData table), db')
              | Throw e => (Throw e, db')
              end
          | _ => (Throw (runtime_error "Record not found with the given criteria"), db')
          end
      | (_, _) => (Throw (runtime_error ("Failed to bind pseudo-ID: " ++ "column index out of range")), db)
      end
  end.

(** The while loop of getAllRecords: one round for each row that
    [sqlite3_step] hands out. *)
Fixpoint getAllRecords_loop (table : string) (rows : list (list (string * sqlite_value)))
         (records : list Record_) : result (list Record_) :=
  match rows with
  | [] => Return records
  | r :: rows' =>
      match decodeRow r [] with
      | Return data => getAllRecords_loop table rows' (records ++ [mkRecord data table])%list
      | Throw e => Throw e
      end
  end.

Definition getAllRecords_query (table : string) : string := "SELECT * FROM " ++ table.

(** getAllRecords, lines 337-380.  The loop ends at the first step that is
    not SQLITE_ROW, an error code included, and what was read is returned. *)
Definition getAllRecords (table : string) (db : sqlite3) : result (list Record_) * sqlite3 :=
  let query := getAllRecords_query table in
  match sqlite3_prepare_v2 db query with
  | inl errmsg => (Throw (runtime_error ("Failed to prepare statement: " ++ errmsg)), db)
  | inr stmt =>
      let (e, db') := sqlite3_step db stmt in
      match e with
      | Rows rows => (getAllRecords_loop table rows [], db')
      | Failure _ => (Return [], db')
      end
  end.

End Engine.

(** * The argument parser (include/ArgParser.h, src/ArgParser.cpp) *)

Module tike.

Local Open Scope string_scope.

(** [struct Arg], ArgParser.h lines 33-50. *)
Record Arg : Type := mkArg {
  name : string;
  shortName : option string;
  value : option string;
  type : string;
  description : string;
  required : bool
}.

(** The constructor of Arg: the value starts out unset.  In the source the
    description defaults to [default_description] and [required] to
    false. *)
Definition newArg (name : string) (shortName : option string) (type : string)
           (description : string) (required : bool) : Arg :=
  mkArg name shortName None type description required.

Definition default_description : string := "Default argument description".

(** [arg.value = v] *)
Definition set_value (arg : Arg) (v : string) : Arg :=
  mkArg (name arg) (shortName arg) (Some v) (type arg) (description arg) (required arg).

Definition has_value (arg : Arg) : bool :=
  match value arg with Some _ => true | None => false end.

(** [class ArgParser]: the arguments in the order they were added, the name
    of the program and its description. *)
Record ArgParser : Type := mkArgParser {
  args : list Arg;
  program : string;
  description_ : string
}.

(** addArg, ArgParser.cpp lines 8-10. *)
Definition addArg (arg : Arg) (p : ArgParser) : ArgParser :=
  mkArgParser (args p ++ [arg])%list (program p) (description_ p).

(** The constructor, ArgParser.h lines 70-75. *)
Definition newArgParser (program description : string) (customHelp : bool) : ArgParser :=
  let p := mkArgParser [] program description in
  if negb customHelp
  then addArg (newArg "help" (Some "h") "flag" "Show this help page" false) p
  else p.

(** [s[i]] for [i] up to the length of [s]; at the length it is the
    terminator. *)
Definition char_at (s : string) (i : nat) : ascii :=
  match String.get i s with
  | Some c => c
  | None => Ascii.zero
  end.

(** [s.substr(pos)] for [pos] up to the length of [s].  parse calls it with
    1 and 2 after it has seen that many characters. *)
Fixpoint substr (s : string) (pos : nat) {struct pos} : string :=
  match pos, s with
  | O, _ => s
  | S pos', String _ s' => substr s' pos'
  | S _, EmptyString => EmptyString
  end.

(** [arg.name == longName] *)
Definition named (longName : string) (arg : Arg) : bool :=
  String.eqb (name arg) longName.

(** [arg.shortName == shortName]: an argument without a short name equals
    none. *)
Definition short_named (shortName' : string) (arg : Arg) : bool :=
  match shortName arg with
  | Some s => String.eqb s shortName'
  | None => false
  end.

(** The loop over [args] of lines 30-43 and of lines 49-62.  [same] is the
    test on the name, [next] is [argv[index + 1]] when [index + 1 < argc], and
    [missing] is what is thrown when it is not.  The loop stops at the first
    argument that passes the test.  It gives [None] when none does ([matched]
    stays false), and otherwise the arguments with the value set, together
    with whether [next] was used up ([++index]). *)
Fixpoint match_arg (same : Arg -> bool) (next : option string) (missing : exception)
         (args : list Arg) : result (option (bool * list Arg)) :=
  match args with
  | [] => Return None
  | arg :: args' =>
      if same arg then
        if String.eqb (type arg) "flag" then
          Return (Some (false, set_value arg "true" :: args'))
        else
          match next with
          | Some v => Return (Some (true, set_value arg v :: args'))
          | None => Throw missing
          end
      else
        match match_arg same next missing args' with
        | Return (Some (used, args'')) => Return (Some (used, arg :: args''))
        | Return None => Return None
        | Throw e => Throw e
        end
  end.

(** The loop over the command line, lines 14-71: [argv] holds the words from
    [argv[index]] on.  It gives what the loop returns or throws, and the
    arguments as it leaves them: the values set before a throw stay set. *)
Fixpoint parse_loop (argv : list string) (args : list Arg) : result unit * list Arg :=
  match argv with
  | [] => (Return tt, args)
  | currentArg :: rest =>
      if Ascii.eqb (char_at currentArg 0) "-" then
        if String.eqb currentArg "--" then
          (Throw (invalid_argument "Unexpected `--` without argument."), args)
        else
          let m :=
            if Ascii.eqb (char_at currentArg 1) "-" then
              let longName := substr currentArg 2 in
              match_arg (named longName) (hd_error rest)
                        (invalid_argument ("Missing value for argument: --" ++ longName)) args
            else
              let shortName := substr currentArg 1 in
              match_arg (short_named shortName) (hd_error rest)
                        (invalid_argument ("Missing value for argument: -" ++ shortName)) args in
          match m with
          | Throw e => (Throw e, args)
          | Return None =>
              (Throw (invalid_argument ("Unknown argument: " ++ currentArg)), args)
          | Return (Some (used, args')) =>
              match used, rest with
              | true, _ :: rest' => parse_loop rest' args'
              | _, _ => parse_loop rest args'
              end
          end
      else
        (Throw (invalid_argument ("Unexpected positional argument: " ++ currentArg)), args)
  end.

(** The loop of lines 73-77. *)
Fixpoint check_required (args : list Arg) : result unit :=
  match args with
  | [] => Return tt
  | arg :: args' =>
      if required arg && negb (has_value arg)
      then Throw (invalid_argument ("Missing required argument: --" ++ name arg))
      else check_required args'
  end.

(** parse, lines 12-78, on the [argc] words of [argv]; the first is the name
    the program was called by. *)
Definition parse (argv : list string) (p : ArgParser) : result unit * ArgParser :=
  let (r, args') := parse_loop (tl argv) (args p) in
  let p' := mkArgParser args' (program p) (description_ p) in
  match r with
  | Throw e => (Throw e, p')
  | Return _ => (check_required args', p')
  end.

(** argHasValue, lines 80-84. *)
Definition argHasValue (name' : string) (p : ArgParser) : bool :=
  existsb (fun arg => String.eqb (name arg) name' && has_value arg) (args p).

(** getArgByName, lines 86-99. *)
Definition getArgByName (name' : string) (p : ArgParser) : result Arg :=
  match List.find (fun arg => String.eqb (name arg) name') (args p) with
  | Some arg => Return arg
  | None => Throw (invalid_argument ("Argument not found with name: --" ++ name'))
  end.

(** *** The help page *)

(** [std::endl] *)
Definition endl : string := String (ascii_of_nat 10) EmptyString.

(** [std::ranges::sort] by [a.name < b.name], the order of std::string:
    bytewise.  The order in which it leaves arguments of one name is not
    fixed by the library; here they stay as they were. *)
Fixpoint sort_insert (a : Arg) (l : list Arg) : list Arg :=
  match l with
  | [] => [a]
  | b :: l' => if String.ltb (name b) (name a) then b :: sort_insert a l' else a :: l
  end.










End tike.

(** ** Auxiliary notions used in the statements below *)

Definition is_select (s : statement) : Prop :=
  match s with Select _ _ => True | _ => False end.

(** The bind call the engine makes for a field, by the field's kind. *)
Definition binding_of_field (value : Field) : binding :=
  match value with
  | FInt i => BoundInt i
  | FDouble d => BoundDouble d
  | FString s => BoundText s
  end.

(** The values are integers and each is greater than the one before it
    (and than [lo]). *)
Fixpoint ascending_from (lo : option Z) (vs : list sqlite_value) : bool :=
  match vs with
  | [] => true
  | SQLITE_INTEGER a :: vs' =>
      match lo with Some l => (l <? a)%Z | None => true end
      && ascending_from (Some a) vs'
  | _ => false
  end.

(** The values are integers, no two alike. *)
Fixpoint unique_integers (vs : list sqlite_value) : bool :=
  match vs with
  | [] => true
  | SQLITE_INTEGER a :: vs' =>
      negb (existsb (sql_equal (SQLITE_INTEGER a)) vs') && unique_integers vs'
  | _ => false
  end.

(** [id] is a key of the table: there is a column [id], every row holds an
    integer there, and no two rows hold the same.  A table that declares
    [id INTEGER PRIMARY KEY], as [tasks] and [completedTasks] of the program
    do, is of this kind. *)
Definition id_is_key (t : Table) : bool :=
  match column_index (tbl_columns t) "id" with
  | Some i => unique_integers (map (fun r => column_value r i) (tbl_rows t))
  | None => false
  end.

(** A table stored by its key: [id] is a key and the rows are stored by
    ascending [id].  This is how SQLite stores a table that declares
    [id INTEGER PRIMARY KEY]: the column is then the rowid, and a table is
    kept, and scanned, in the order of its rowids. *)
Definition keyed_by_id (t : Table) : bool :=
  match column_index (tbl_columns t) "id" with
  | Some i => ascending_from None (map (fun r => column_value r i) (tbl_rows t))
  | None => false
  end.

(** How many rows of a table hold an [id] smaller than [a]. *)
Definition smaller_ids (t : Table) (a : Z) : nat :=
  match column_index (tbl_columns t) "id" with
  | Some i =>
      length (filter (fun r => match column_value r i with
                               | SQLITE_INTEGER b => (b <? a)%Z
                               | _ => false
                               end) (tbl_rows t))
  | None => 0
  end.

Definition not_found : exception :=
  runtime_error "Record not found with the given criteria".

(** The text the loops over the keys append after the first key, and its
    tokens. *)
Fixpoint where_tail (keys : list string) : string :=
  match keys with
  | [] => EmptyString
  | k :: ks => (" AND " ++ k ++ " = ?" ++ where_tail ks)%string
  end.

Fixpoint and_tokens (keys : list string) : list token :=
  match keys with
  | [] => []
  | k :: ks => TK_ID "AND" :: TK_ID k :: TK_EQ :: TK_VARIABLE :: and_tokens ks
  end.

Fixpoint columns_tail (keys : list string) : string :=
  match keys with
  | [] => EmptyString
  | k :: ks => (", " ++ k ++ columns_tail ks)%string
  end.

Fixpoint placeholders_tail (keys : list string) : string :=
  match keys with
  | [] => EmptyString
  | _ :: ks => (", " ++ "?" ++ placeholders_tail ks)%string
  end.

Fixpoint comma_names (keys : list string) : list token :=
  match keys with
  | [] => []
  | k :: ks => TK_COMMA :: TK_ID k :: comma_names ks
  end.

Fixpoint comma_variables (n : nat) : list token :=
  match n with
  | O => []
  | S n' => TK_COMMA :: TK_VARIABLE :: comma_variables n'
  end.

Definition identifiers (keys : list string) : bool := forallb is_identifier keys.

(** The column names an INSERT statement lists, in their order. *)
Definition insert_columns (s : statement) : list string :=
  match s with
  | Insert _ cs _ => cs
  | _ => []
  end.

Fixpoint distinct (l : list string) : bool :=
  match l with
  | [] => true
  | x :: l' => negb (existsb (String.eqb x) l') && distinct l'
  end.

(** A row matches a filter when, for every pair of the filter, the row's
    value in the column the key names equals the pair's field, compared as
    SQLite compares a column with a bound parameter. *)
Definition row_matches `{Internals} (t : Table) (data : RecordData) (r : row) : bool :=
  forallb (fun kv =>
             sql_equal (column_of t (fst kv) r)
                       (applyAffinity (declared_type t (fst kv))
                                      (bound_value (binding_of_field (snd kv)))))
          data.

(** A result row as a Record of a table, or the error of the column that
    cannot be decoded. *)
Definition decode (table : string) (columns : list (string * sqlite_value)) : result Record_ :=
  match decodeRow columns [] with
  | Return recordData => Return (mkRecord recordData table)
  | Throw e => Throw e
  end.

(** The decoding policy of the engine, in the words of its specification:
    an integer column gives the Integer kind, a floating-point column Real,
    a text column Text, NULL the empty Text, and no other type is decoded. *)
Definition decode_policy (v : sqlite_value) : option Field :=
  match v with
  | SQLITE_INTEGER i => Some (FInt (sqlite3_column_int i))
  | SQLITE_FLOAT r => Some (FDouble r)
  | SQLITE_TEXT z => Some (FString (column_text z))
  | SQLITE_NULL => Some (FString EmptyString)
  | SQLITE_BLOB _ => None
  end.

Definition unsupported_column (c : string) : exception :=
  runtime_error ("Unsupported column type for column: " ++ c).

(** The tables of a store by name and columns, without their rows. *)
Definition schema (db : sqlite3) : list (string * list column_def) :=
  map (fun t => (tbl_name t, tbl_columns t)) db.







(** The range of [int]. *)
Definition in_int_range (i : Z) : bool := ((- 2 ^ 31 <=? i) && (i <? 2 ^ 31))%Z.

(** What an argument is declared with: all of it but the value. *)
Definition declaration (arg : tike.Arg) : string * option string * string * string * bool :=
  (tike.name arg, tike.shortName arg, tike.type arg, tike.description arg, tike.required arg).

(** The arguments after the value of the first that passes a test is set. *)
Fixpoint set_first (same : tike.Arg -> bool) (v : string) (args : list tike.Arg) : list tike.Arg :=
  match args with
  | [] => []
  | arg :: args' =>
      if same arg then tike.set_value arg v :: args' else arg :: set_first same v args'
  end.

(** The test on the name that parse makes for a word, and the word as the
    messages spell it. *)
Definition same_as (currentArg : string) : tike.Arg -> bool :=
  if Ascii.eqb (tike.char_at currentArg 1) "-"
  then tike.named (tike.substr currentArg 2)
  else tike.short_named (tike.substr currentArg 1).

Definition spelled (currentArg : string) : string :=
  if Ascii.eqb (tike.char_at currentArg 1) "-"
  then ("--" ++ tike.substr currentArg 2)%string
  else ("-" ++ tike.substr currentArg 1)%string.








(** The words createTable writes for a Column, in order. *)
Definition column_words (c : Column) : list string :=
  ([name c; type c]
   ++ (if primaryKey c then ["PRIMARY"; "KEY"] else [])
   ++ (if autoIncrement c then ["AUTOINCREMENT"] else [])
   ++ (if notNull c then ["NOT"; "NULL"] else [])
   ++ (if unique c then ["UNIQUE"] else [])
   ++ match defaultVal c with Some v => ["DEFAULT"; v] | None => [] end
   ++ match foreignKey c with Some t => ["REFERENCES"; t] | None => [] end)%list.




Definition column_tokens (c : Column) : list token := map word (column_words c).



(** ** The command line program (src/main.cpp) *)

(** What a command of the program ends with when it does not run through:
    an exception of the engine, or the [std::out_of_range] of [at] on a map
    that lacks the key.  main catches either, prints it and exits with 1. *)
Inductive thrown : Type :=
| from_engine (e : exception)
| out_of_range.

Section Program.

Context `{Internals}.

(** The command [--complete], main.cpp lines 183-202, on the store; [id] is
    the number std::stoi read from the command line. *)
Definition main_complete (id : Z) (db : sqlite3) : (unit + thrown) * sqlite3 :=
  let notCompletedTable := "tasks" in
  let completedTable := "completedTasks" in
  match getRecordByPseudoId notCompletedTable id db with
  | (Throw e, db) => (inr (from_engine e), db)
  | (Return notCompletedRecord, db) =>
      match find (data notCompletedRecord) "title",
            find (data notCompletedRecord) "description",
            find (data notCompletedRecord) "timeCreated" with
      | Some title, Some description, Some timeCreated =>
          let completedData :=
            assign (assign (assign [] "title" title) "description" description)
                   "timeCreated" timeCreated in
          let completedRecord := mkRecord completedData completedTable in
          match addRecord completedRecord db with
          | (Throw e, db) => (inr (from_engine e), db)
          | (Return _, db) =>
              match removeRecord notCompletedTable (data notCompletedRecord) db with
              | (Throw e, db) => (inr (from_engine e), db)
              | (Return _, db) => (inl tt, db)
              end
          end
      | _, _, _ => (inr out_of_range, db)
      end
  end.

(** The command [--remove], main.cpp lines 176-182: what it writes to the
    standard output, or what it throws.  [value] is the word given on the
    command line and [id] the number std::stoi read from it. *)
Definition main_remove (value : string) (id : Z) (db : sqlite3) : (string + thrown) * sqlite3 :=
  let table := "tasks" in
  match removeRecordByPseudoId table id db with
  | (Throw e, db) => (inr (from_engine e), db)
  | (Return _, db) =>
      (inl ("Task " ++ value ++ " removed successfully" ++ tike.endl)%string, db)
  end.

End Program.

(** ** Example data *)

(** An instance of the two given parts of SQLite for the examples: no
    conversion (SQLite makes none when a parameter already has the storage
    class the column's affinity asks for, as in every comparison below), and
    an INSERT that stores the listed values, NULL in the other columns, after
    the rows already there (no example below runs an INSERT). *)
Definition example_internals : Internals := {|
  applyAffinity := fun _ v => v;
  insertRow := fun t vs =>
    inr (tbl_rows t ++
         [map (fun cd =>
                 match List.find (fun kv => sqlite3StrICmp (fst kv) (cd_name cd)) vs with
                 | Some kv => snd kv
                 | None => SQLITE_NULL
                 end) (tbl_columns t)])%list
|}.

(** The columns of [tasks] as main.cpp declares them. *)
Definition tasks_columns : list Column :=
  [ mkColumn "id" "INTEGER" true true false false None None;
    mkColumn "title" "TEXT" false false false false None None;
    mkColumn "description" "TEXT" false false false false None None;
    mkColumn "timeCreated" "DATETIME" false false false false (Some "CURRENT_TIMESTAMP") None ].

Definition tasks_schema : list column_def :=
  [ mkColumnDef "id" ["INTEGER"] [PrimaryKey true];
    mkColumnDef "title" ["TEXT"] [];
    mkColumnDef "description" ["TEXT"] [];
    mkColumnDef "timeCreated" ["DATETIME"] [Default "CURRENT_TIMESTAMP"] ].

Definition no_tasks : Table := mkTable "tasks" tasks_schema [].

Definition buy_milk : row :=
  [SQLITE_INTEGER 1; SQLITE_TEXT "Buy milk"; SQLITE_NULL; SQLITE_TEXT "2025-03-01 09:00:00"].
Definition walk_dog : row :=
  [SQLITE_INTEGER 2; SQLITE_TEXT "Walk dog"; SQLITE_TEXT "in the park";
   SQLITE_TEXT "2025-03-01 09:05:00"].
Definition pay_rent : row :=
  [SQLITE_INTEGER 5; SQLITE_TEXT "Pay rent"; SQLITE_NULL; SQLITE_TEXT "2025-03-02 18:30:00"].

Definition three_tasks : Table := mkTable "tasks" tasks_schema [buy_milk; walk_dog; pay_rent].

(** The same rows in another order, as a table holds them when [id] is a key
    without being the rowid. *)
Definition shuffled_tasks : Table := mkTable "tasks" tasks_schema [pay_rent; buy_milk; walk_dog].

(** A row with a blob in it. *)
Definition scan_receipt : row :=
  [SQLITE_INTEGER 7; SQLITE_TEXT "Scan receipt"; SQLITE_BLOB "%PDF";
   SQLITE_TEXT "2025-03-03 08:00:00"].

Definition empty_store : sqlite3 := [no_tasks].
Definition shuffled_store : sqlite3 := [shuffled_tasks].
Definition blob_store : sqlite3 := [mkTable "tasks" tasks_schema [scan_receipt]].
Definition example_store : sqlite3 := [three_tasks].

Definition walk_dog_record : Record_ :=
  mkRecord [ ("id", FInt 2); ("title", FString "Walk dog");
             ("description", FString "in the park");
             ("timeCreated", FString "2025-03-01 09:05:00") ] "tasks".

Definition new_task : Record_ :=
  mkRecord [ ("title", FString "Water plants"); ("description", FString "balcony") ] "tasks".

(** The columns of [completedTasks] as main.cpp declares them, and the
    table they make. *)
Definition completed_columns : list Column :=
  [ mkColumn "id" "INTEGER" true false false false None None;
    mkColumn "title" "TEXT" false false false false None None;
    mkColumn "description" "TEXT" false false false false None None;
    mkColumn "timeCreated" "DATETIME" false false false false None None;
    mkColumn "timeCompleted" "DATETIME" false false false false (Some "CURRENT_TIMESTAMP") None ].

Definition completed_schema : list column_def :=
  [ mkColumnDef "id" ["INTEGER"] [PrimaryKey false];
    mkColumnDef "title" ["TEXT"] [];
    mkColumnDef "description" ["TEXT"] [];
    mkColumnDef "timeCreated" ["DATETIME"] [];
    mkColumnDef "timeCompleted" ["DATETIME"] [Default "CURRENT_TIMESTAMP"] ].

(** The store of the program with three tasks and none completed. *)
Definition program_store : sqlite3 :=
  [three_tasks; mkTable "completedTasks" completed_schema []].

(** A table without a column id, and one in which two rows share an id. *)
Definition notes_store : sqlite3 :=
  [mkTable "notes" [mkColumnDef "body" ["TEXT"] []] [[SQLITE_TEXT "remember"]]].

Definition walk_dog_again : row :=
  [SQLITE_INTEGER 2; SQLITE_TEXT "Walk dog again"; SQLITE_NULL;
   SQLITE_TEXT "2025-03-01 19:05:00"].

Definition repeated_tasks : Table :=
  mkTable "tasks" tasks_schema [buy_milk; walk_dog; walk_dog_again; pay_rent].

Definition repeated_store : sqlite3 := [repeated_tasks].











(** Another table for the name [tasks]. *)
Definition other_columns : list Column :=
  [ mkColumn "id" "INTEGER" true false false false None None;
    mkColumn "priority" "INTEGER" false false true false None None ].

(** The parser main.cpp sets up, lines 40-51. *)
Definition main_parser : tike.ArgParser :=
  fold_left (fun p arg => tike.addArg arg p)
    [ tike.newArg "add" (Some "a") "flag" "Add a new task" false;
      tike.newArg "complete" (Some "c") "int" "Mark a task as completed by id" false;
      tike.newArg "description" (Some "d") "string" "Description of the task" false;
      tike.newArg "list" (Some "l") "int" "List a task by id" false;
      tike.newArg "list-all" (Some "L") "flag" "List all tasks" false;
      tike.newArg "list-all-completed" None "flag" "List all completed tasks" false;
      tike.newArg "list-completed" None "int" "List a completed task by id" false;
      tike.newArg "remove" (Some "r") "int" "Remove a task by id" false;
      tike.newArg "title" (Some "t") "string" "Title of the task" false;
      tike.newArg "version" (Some "v") "flag" "Prints the version number" false ]
    (tike.newArgParser "Tike" "TimeKeeper" false).

Definition title_arg : tike.Arg :=
  tike.newArg "title" (Some "t") "string" "Title of the task" false.

(** * Properties *)

(** ** Strings *)

Lemma append_nil_r (s : string) : (s ++ EmptyString)%string = s.
Proof. induction s as [|c s IH]; simpl; [reflexivity | now rewrite IH]. Qed.

Lemma append_assoc (a b c : string) : ((a ++ b) ++ c)%string = (a ++ (b ++ c))%string.
Proof. induction a as [|x a IH]; simpl; [reflexivity | now rewrite IH]. Qed.

Lemma empty_append_cons (a : string) (c : ascii) (b : string) :
  empty (a ++ String c b) = false.
Proof. destruct a; reflexivity. Qed.

Lemma sqlite3StrICmp_refl (a : string) : sqlite3StrICmp a a = true.
Proof. unfold sqlite3StrICmp. apply String.eqb_refl. Qed.

(** ** Lists *)

Lemma filter_all {A} (f : A -> bool) (l : list A) :
  (forall x, f x = true) -> filter f l = l.
Proof.
  intros Hf. induction l as [|x l IH]; simpl; [reflexivity|].
  now rewrite Hf, IH.
Qed.

Lemma filter_none {A} (f : A -> bool) (l : list A) :
  (forall x, f x = false) -> filter f l = [].
Proof.
  intros Hf. induction l as [|x l IH]; simpl; [reflexivity|].
  now rewrite Hf, IH.
Qed.

Lemma filter_none_in {A} (f : A -> bool) (l : list A) :
  (forall x, In x l -> f x = false) -> filter f l = [].
Proof.
  induction l as [|x l IH]; intros Hf; simpl; [reflexivity|].
  rewrite (Hf x (or_introl eq_refl)). apply IH. intros y Hy. apply Hf. now right.
Qed.

(** ** The tokenizer on the texts of the engine *)

Lemma tokens_from_word (w : string) :
  all_chars IdChar w = true ->
  forall acc rest, tokens_from acc (w ++ rest) = tokens_from (acc ++ w) rest.
Proof.
  induction w as [|c w IH]; intros Hw acc rest.
  - simpl. now rewrite append_nil_r.
  - simpl in Hw. apply andb_true_iff in Hw as [Hc Hw].
    simpl. rewrite Hc. rewrite (IH Hw). now rewrite append_assoc.
Qed.

Lemma is_identifier_chars (w : string) :
  is_identifier w = true -> all_chars IdChar w = true.
Proof.
  destruct w as [|c w]; [discriminate|]. unfold is_identifier.
  intros H. apply andb_true_iff in H as [H _]. now apply andb_true_iff in H as [_ H].
Qed.

Lemma is_identifier_not_reserved (w : string) :
  is_identifier w = true -> is_reserved w = false.
Proof.
  destruct w as [|c w]; [discriminate|]. unfold is_identifier.
  intros H. apply andb_true_iff in H as [_ H]. now apply negb_true_iff in H.
Qed.

Lemma flush_identifier (w : string) :
  is_identifier w = true -> flush w = [TK_ID w].
Proof.
  destruct w as [|c w]; [discriminate|]. unfold is_identifier.
  intros H. apply andb_true_iff in H as [H _]. apply andb_true_iff in H as [H _].
  apply negb_true_iff in H. apply orb_false_iff in H as [H1 H2].
  unfold flush, word. now rewrite H1, H2.
Qed.

(** An identifier followed by a character that is not part of a word is one
    token, and the text after it is read afresh. *)
Lemma tokens_identifier_then (w : string) (c : ascii) (rest : string) :
  is_identifier w = true -> IdChar c = false ->
  tokens_from EmptyString (w ++ String c rest)
  = TK_ID w :: tokens_from EmptyString (String c rest).
Proof.
  intros Hw Hc.
  rewrite (tokens_from_word w (is_identifier_chars w Hw)). simpl append.
  simpl tokens_from. rewrite Hc. rewrite (flush_identifier w Hw).
  destruct (isspace c); reflexivity.
Qed.

Lemma tokens_identifier_end (w : string) :
  is_identifier w = true -> tokens_from EmptyString w = [TK_ID w].
Proof.
  intros Hw. rewrite <- (append_nil_r w) at 1.
  rewrite (tokens_from_word w (is_identifier_chars w Hw)). simpl.
  apply (flush_identifier w Hw).
Qed.

Local Arguments is_reserved : simpl never.
Local Arguments sqlite3StrICmp : simpl never.

Ltac lex_identifier :=
  rewrite tokens_identifier_then; [ | assumption | reflexivity ].

Lemma tokenize_removeRecord_empty (table : string) :
  is_identifier table = true ->
  tokenize (removeRecord_query table []) = [TK_ID "DELETE"; TK_ID "FROM"; TK_ID table; TK_ID "WHERE"].
Proof.
  intros Ht. unfold tokenize, removeRecord_query. simpl.
  lex_identifier. reflexivity.
Qed.

Lemma parse_removeRecord_empty (table : string) :
  is_identifier table = true -> parse (removeRecord_query table []) = None.
Proof.
  intros Ht. unfold parse. rewrite (tokenize_removeRecord_empty table Ht).
  unfold one_statement. simpl. unfold delete, bind. simpl.
  unfold nm. rewrite (is_identifier_not_reserved table Ht). reflexivity.
Qed.

(** ** Which statement a text compiles to *)

Lemma select_gives_select ts s rest : select ts = Some (s, rest) -> is_select s.
Proof.
  unfold select, bind, ret.
  destruct (keyword "SELECT" ts) as [[? ts1]|]; [|discriminate].
  destruct (star ts1) as [[? ts2]|]; [|discriminate].
  destruct (keyword "FROM" ts2) as [[? ts3]|]; [|discriminate].
  destruct (nm ts3) as [[t ts4]|]; [|discriminate].
  destruct (opt_where ts4) as [[w ts5]|]; [|discriminate].
  intros E. inversion E. exact I.
Qed.

Lemma parse_select_text (x : string) (s : statement) :
  parse ("SELECT * FROM " ++ x) = Some s -> is_select s.
Proof.
  unfold parse, tokenize. simpl tokens_from.
  unfold one_statement. simpl first_word. simpl String.eqb. cbv iota.
  destruct (select _) as [[s' rest]|] eqn:E; [|discriminate].
  apply select_gives_select in E.
  destruct rest as [|[] rest]; try discriminate; intros X; inversion X; subst; exact E.
Qed.

Lemma parse_getRecord_select table data s :
  parse (getRecord_query table data) = Some s -> is_select s.
Proof. apply parse_select_text. Qed.

Lemma parse_getAllRecords_select table s :
  parse (getAllRecords_query table) = Some s -> is_select s.
Proof. apply parse_select_text. Qed.

Lemma parse_getRecordByPseudoId_select table s :
  parse (getRecordByPseudoId_query table) = Some s -> is_select s.
Proof.
  unfold parse, tokenize, getRecordByPseudoId_query. simpl tokens_from.
  unfold one_statement. simpl first_word. simpl String.eqb. cbv iota.
  destruct (select _) as [[s' rest]|] eqn:E; [|discriminate].
  apply select_gives_select in E.
  destruct rest as [|[] rest]; try discriminate; intros X; inversion X; subst; exact E.
Qed.

Lemma prepare_parse db q stmt :
  sqlite3_prepare_v2 db q = inr stmt ->
  parse q = Some (stmt_sql stmt) /\ resolve db (stmt_sql stmt) = None
  /\ stmt_vars stmt = repeat Unbound (variable_count (stmt_sql stmt)).
Proof.
  unfold sqlite3_prepare_v2. destruct (parse q) as [s|]; [|discriminate].
  destruct (resolve db s) eqn:R; [discriminate|].
  intros E. inversion E. subst. simpl. auto.
Qed.

Lemma sqlite3_bind_sql stmt index b :
  stmt_sql (snd (sqlite3_bind stmt index b)) = stmt_sql stmt.
Proof. unfold sqlite3_bind. destruct (_ && _)%bool; reflexivity. Qed.

Lemma bindFields_sql unsupported data : forall stmt index stmt',
  bindFields unsupported stmt index data = Return stmt' -> stmt_sql stmt' = stmt_sql stmt.
Proof.
  induction data as [|[key value] data IH]; intros stmt index stmt' E; simpl in E.
  - now inversion E.
  - destruct value; simpl in E; apply IH in E; rewrite E; apply sqlite3_bind_sql.
Qed.

Section Reads.

Context `{Internals}.

Lemma step_select db stmt :
  is_select (stmt_sql stmt) -> snd (sqlite3_step db stmt) = db.
Proof.
  unfold sqlite3_step. destruct (stmt_sql stmt); simpl; try contradiction.
  intros _. destruct (sqlite3FindTable db table0); reflexivity.
Qed.

(** C10. The three read operations leave the store as it was, whatever
    they are given and whether they return a result or throw (a failure to
    compile the statement, no row found, or a column that cannot be
    decoded). *)
Theorem reads_leave_store_unchanged (table : string) (data : RecordData)
        (pseudoId : Z) (db : sqlite3) :
  snd (getRecord table data db) = db
  /\ snd (getRecordByPseudoId table pseudoId db) = db
  /\ snd (getAllRecords table db) = db.
Proof.
  split; [|split].
  - unfold getRecord.
    destruct (sqlite3_prepare_v2 db _) as [msg|stmt] eqn:P; [reflexivity|].
    apply prepare_parse in P as [P _]. apply parse_getRecord_select in P.
    destruct (bindFields _ stmt 1 data) as [stmt'|e] eqn:B; [|reflexivity].
    apply bindFields_sql in B. rewrite <- B in P.
    pose proof (step_select db stmt' P) as S.
    destruct (sqlite3_step db stmt') as [e db']. simpl in S. subst db'.
    destruct (first_step e); try reflexivity.
    destruct (decodeRow r []); reflexivity.
  - unfold getRecordByPseudoId.
    destruct (sqlite3_prepare_v2 db _) as [msg|stmt] eqn:P; [reflexivity|].
    apply prepare_parse in P as [P _]. apply parse_getRecordByPseudoId_select in P.
    unfold sqlite3_bind_int.
    pose proof (sqlite3_bind_sql stmt 1 (BoundInt pseudoId)) as B.
    destruct (sqlite3_bind stmt 1 (BoundInt pseudoId)) as [[] stmt']; [|reflexivity].
    simpl in B. rewrite <- B in P.
    pose proof (step_select db stmt' P) as S.
    destruct (sqlite3_step db stmt') as [e db']. simpl in S. subst db'.
    destruct (first_step e); try reflexivity.
    destruct (decodeRow r []); reflexivity.
  - unfold getAllRecords.
    destruct (sqlite3_prepare_v2 db _) as [msg|stmt] eqn:P; [reflexivity|].
    apply prepare_parse in P as [P _]. apply parse_getAllRecords_select in P.
    pose proof (step_select db stmt P) as S.
    destruct (sqlite3_step db stmt) as [e db']. simpl in S. subst db'.
    destruct e; reflexivity.
Qed.

End Reads.

Local Arguments column_list : simpl never.



Lemma sqlite3FindTable_app db t tb :
  sqlite3FindTable db t = None ->
  sqlite3FindTable (db ++ [tb]) t = if sqlite3StrICmp (tbl_name tb) t then Some tb else None.
Proof.
  induction db as [|t0 db IH]; simpl; [reflexivity|].
  destruct (sqlite3StrICmp (tbl_name t0) t); [discriminate|]. exact IH.
Qed.

Section CreateTable.

Context `{Internals}.

(** C8. createTable with no columns throws invalid_argument before any
    statement is built or compiled, and the store is as it was. *)
Theorem createTable_without_columns (table : string) (db : sqlite3) :
  createTable table [] db
  = (Throw (invalid_argument "Cannot create a table without columns."), db).
Proof. reflexivity. Qed.


End CreateTable.

(** ** Binding fields *)

Lemma bindFields_cons unsupported stmt index key value data :
  bindFields unsupported stmt index ((key, value) :: data)
  = bindFields unsupported (snd (sqlite3_bind stmt index (binding_of_field value)))
               (index + 1) data.
Proof. destruct value; reflexivity. Qed.

Lemma bindFields_returns unsupported data : forall stmt index,
  exists stmt', bindFields unsupported stmt index data = Return stmt'.
Proof.
  induction data as [|[key value] data IH]; intros stmt index.
  - exists stmt. reflexivity.
  - rewrite bindFields_cons. apply IH.
Qed.

Section Binding.

Context `{Internals}.

(** C9. Every field is of one of the three kinds, so in the binding loops
    the branch that reports an unsupported field type is never taken: each
    field goes to the bind call of its kind, the loop always runs to its end,
    and none of addRecord, removeRecord and getRecord ever throws the
    unsupported-field error. *)
Theorem unsupported_field_unreachable :
  (forall value : Field,
      holds_alternative_int value || holds_alternative_double value
      || holds_alternative_string value = true)
  /\ (forall unsupported stmt index key value data,
         bindFields unsupported stmt index ((key, value) :: data)
         = bindFields unsupported (snd (sqlite3_bind stmt index (binding_of_field value)))
                      (index + 1) data)
  /\ (forall unsupported stmt index data,
         exists stmt', bindFields unsupported stmt index data = Return stmt')
  /\ (forall record db key,
         fst (addRecord record db)
         <> Throw (runtime_error ("Unsupported field type in record: " ++ key)))
  /\ (forall table data db key,
         fst (removeRecord table data db)
         <> Throw (runtime_error ("Unsupported field type in data: " ++ key)))
  /\ (forall table data db key,
         fst (getRecord table data db)
         <> Throw (runtime_error ("Unsupported field type in data: " ++ key))).
Proof.
  split; [|split; [|split; [|split; [|split]]]].
  - intros []; reflexivity.
  - apply bindFields_cons.
  - intros. apply bindFields_returns.
  - intros record db key. unfold addRecord.
    destruct (sqlite3_prepare_v2 db _) as [msg|stmt]; [simpl; discriminate|].
    destruct (bindFields_returns "Unsupported field type in record: " (data record) stmt 1)
      as [stmt' ->].
    destruct (sqlite3_step db stmt') as [e db'].
    destruct (first_step e); simpl; discriminate.
  - intros table data db key. unfold removeRecord.
    destruct (sqlite3_prepare_v2 db _) as [msg|stmt]; [simpl; discriminate|].
    destruct (bindFields_returns "Unsupported field type in data: " data stmt 1)
      as [stmt' ->].
    destruct (sqlite3_step db stmt') as [e db'].
    destruct (first_step e); simpl; discriminate.
  - intros table data db key. unfold getRecord.
    destruct (sqlite3_prepare_v2 db _) as [msg|stmt]; [simpl; discriminate|].
    destruct (bindFields_returns "Unsupported field type in data: " data stmt 1)
      as [stmt' ->].
    destruct (sqlite3_step db stmt') as [e db'].
    destruct (first_step e); simpl; try discriminate.
    generalize (@nil (string * Field)). intros acc. revert acc.
    induction r as [|[c v] r IH]; intros acc; simpl; [discriminate|].
    destruct v; try apply IH. simpl. discriminate.
Qed.

End Binding.

(** ** The statements with a table name that is an identifier *)

Local Arguments nm : simpl never.
Local Arguments opt_where : simpl never.

Lemma nm_identifier w ts :
  is_identifier w = true -> nm (TK_ID w :: ts) = Some (w, ts).
Proof. intros Hw. unfold nm. now rewrite (is_identifier_not_reserved w Hw). Qed.

Lemma select_tokens table ts :
  is_identifier table = true ->
  select (TK_ID "SELECT" :: TK_STAR :: TK_ID "FROM" :: TK_ID table :: ts)
  = match opt_where ts with
    | Some (w, rest) => Some (Select table w, rest)
    | None => None
    end.
Proof.
  intros Ht. unfold select, bind, keyword, star, ret. simpl.
  rewrite (nm_identifier _ _ Ht). reflexivity.
Qed.

Lemma delete_tokens table ts :
  is_identifier table = true ->
  delete (TK_ID "DELETE" :: TK_ID "FROM" :: TK_ID table :: ts)
  = match opt_where ts with
    | Some (w, rest) => Some (Delete table w, rest)
    | None => None
    end.
Proof.
  intros Ht. unfold delete, bind, keyword, ret. simpl.
  rewrite (nm_identifier _ _ Ht). reflexivity.
Qed.

Lemma parse_getAllRecords table :
  is_identifier table = true ->
  parse (getAllRecords_query table) = Some (Select table None).
Proof.
  intros Ht. unfold parse, tokenize, getAllRecords_query. simpl tokens_from.
  rewrite (tokens_identifier_end table Ht).
  unfold one_statement. simpl first_word. simpl String.eqb. cbv iota.
  rewrite (select_tokens _ _ Ht). reflexivity.
Qed.

Lemma same_name_identifier w ts :
  is_identifier w = true -> same_name w (TK_ID w :: ts) = Some (tt, ts).
Proof.
  intros Hw. unfold same_name. rewrite (nm_identifier _ _ Hw).
  now rewrite sqlite3StrICmp_refl.
Qed.

Lemma tokenize_pseudoId_condition table :
  is_identifier table = true ->
  tokens_from EmptyString (table ++ pseudoId_condition table)
  = [TK_ID table; TK_ID "WHERE"; TK_ID "id"; TK_EQ; TK_LP; TK_ID "WITH";
     TK_ID "PseudoIDs"; TK_ID "AS"; TK_LP; TK_ID "SELECT";
     TK_ID "ROW_NUMBER"; TK_LP; TK_RP; TK_ID "OVER"; TK_LP;
     TK_ID "ORDER"; TK_ID "BY"; TK_ID "id"; TK_RP;
     TK_ID "AS"; TK_ID "pseudo_id"; TK_COMMA; TK_ID "id";
     TK_ID "FROM"; TK_ID table; TK_RP; TK_ID "SELECT";
     TK_ID "id"; TK_ID "FROM"; TK_ID "PseudoIDs";
     TK_ID "WHERE"; TK_ID "pseudo_id"; TK_EQ; TK_VARIABLE; TK_RP; TK_SEMI].
Proof.
  intros Ht. unfold pseudoId_condition. simpl append.
  lex_identifier. simpl tokens_from.
  lex_identifier. reflexivity.
Qed.

Lemma where_body_pseudoId table rest :
  is_identifier table = true ->
  opt_where
    ([TK_ID "WHERE"; TK_ID "id"; TK_EQ; TK_LP; TK_ID "WITH";
      TK_ID "PseudoIDs"; TK_ID "AS"; TK_LP; TK_ID "SELECT";
      TK_ID "ROW_NUMBER"; TK_LP; TK_RP; TK_ID "OVER"; TK_LP;
      TK_ID "ORDER"; TK_ID "BY"; TK_ID "id"; TK_RP;
      TK_ID "AS"; TK_ID "pseudo_id"; TK_COMMA; TK_ID "id";
      TK_ID "FROM"; TK_ID table; TK_RP; TK_ID "SELECT";
      TK_ID "id"; TK_ID "FROM"; TK_ID "PseudoIDs";
      TK_ID "WHERE"; TK_ID "pseudo_id"; TK_EQ; TK_VARIABLE; TK_RP] ++ rest)
  = Some (Some (WhereRank "id" (mkRank "PseudoIDs" "id" "id" table)), rest).
Proof.
  intros Ht. unfold opt_where. simpl.
  unfold rank_condition, bind, keyword, lp, rp, equals, comma, variable, ret. simpl.
  rewrite (nm_identifier _ _ Ht). simpl. reflexivity.
Qed.

Lemma parse_getRecordByPseudoId table :
  is_identifier table = true ->
  parse (getRecordByPseudoId_query table)
  = Some (Select table (Some (WhereRank "id" (mkRank "PseudoIDs" "id" "id" table)))).
Proof.
  intros Ht. unfold parse, tokenize, getRecordByPseudoId_query. simpl tokens_from.
  rewrite (tokenize_pseudoId_condition table Ht).
  unfold one_statement. simpl first_word. simpl String.eqb. cbv iota.
  rewrite (select_tokens _ _ Ht).
  match goal with
  | |- context [opt_where (?a :: ?l)] =>
      change (a :: l) with ((removelast (a :: l)) ++ [TK_SEMI])
  end.
  simpl removelast.
  rewrite (where_body_pseudoId table [TK_SEMI] Ht). reflexivity.
Qed.

Lemma parse_removeRecordByPseudoId table :
  is_identifier table = true ->
  parse (removeRecordByPseudoId_query table)
  = Some (Delete table (Some (WhereRank "id" (mkRank "PseudoIDs" "id" "id" table)))).
Proof.
  intros Ht. unfold parse, tokenize, removeRecordByPseudoId_query. simpl tokens_from.
  rewrite (tokenize_pseudoId_condition table Ht).
  unfold one_statement. simpl first_word. simpl String.eqb. cbv iota.
  rewrite (delete_tokens _ _ Ht).
  match goal with
  | |- context [opt_where (?a :: ?l)] =>
      change (a :: l) with ((removelast (a :: l)) ++ [TK_SEMI])
  end.
  simpl removelast.
  rewrite (where_body_pseudoId table [TK_SEMI] Ht). reflexivity.
Qed.

(** ** Tables keyed by id *)

Lemma ascending_from_bound l vs :
  ascending_from (Some l) vs = true ->
  Forall (fun v => exists a, v = SQLITE_INTEGER a /\ (l < a)%Z) vs.
Proof.
  revert l. induction vs as [|v vs IH]; intros l Hasc; [constructor|].
  destruct v; try discriminate. simpl in Hasc.
  apply andb_true_iff in Hasc as [Hl Hvs]. apply Z.ltb_lt in Hl.
  constructor; [eauto|].
  eapply Forall_impl; [|apply (IH _ Hvs)].
  intros v (a & -> & Ha). exists a. split; [reflexivity|lia].
Qed.

Lemma ascending_from_head lo v vs :
  ascending_from lo (v :: vs) = true ->
  exists a, v = SQLITE_INTEGER a /\ ascending_from (Some a) vs = true.
Proof.
  destruct v; try discriminate. simpl. intros Hasc.
  apply andb_true_iff in Hasc as [_ Hvs]. eauto.
Qed.

Lemma order_by_ascending i rows : forall lo,
  ascending_from lo (map (fun r => column_value r i) rows) = true ->
  order_by i rows = rows.
Proof.
  induction rows as [|r rows IH]; intros lo Hasc; [reflexivity|].
  simpl in Hasc. apply ascending_from_head in Hasc as (a & Ha & Hasc).
  simpl. rewrite (IH _ Hasc).
  destruct rows as [|r' rows]; [reflexivity|].
  apply ascending_from_bound in Hasc. inversion Hasc as [|? ? (a' & Ha' & Hlt) _]. subst.
  simpl. unfold sql_le. rewrite Ha, Ha'. simpl.
  rewrite (proj2 (Z.compare_lt_iff a a') Hlt). reflexivity.
Qed.

Lemma sql_equal_integer a b :
  sql_equal (SQLITE_INTEGER a) (SQLITE_INTEGER b) = (a =? b)%Z.
Proof.
  unfold sql_equal. simpl. destruct (Z.eqb_spec a b) as [->|Hne].
  - now rewrite Z.compare_refl.
  - destruct (a ?= b)%Z eqn:E; try reflexivity.
    apply Z.compare_eq_iff in E. contradiction.
Qed.

Lemma sql_equal_null_r x : sql_equal x SQLITE_NULL = false.
Proof. destruct x; reflexivity. Qed.

(** Among rows whose ids are all above [a], none has id [a]. *)
Lemma filter_above i a rows :
  Forall (fun v => exists b, v = SQLITE_INTEGER b /\ (a < b)%Z)
         (map (fun r => column_value r i) rows) ->
  filter (fun r => sql_equal (column_value r i) (SQLITE_INTEGER a)) rows = []
  /\ filter (fun r => negb (sql_equal (column_value r i) (SQLITE_INTEGER a))) rows = rows
  /\ filter (fun r => match column_value r i with
                      | SQLITE_INTEGER b => (b <? a)%Z
                      | _ => false
                      end) rows = [].
Proof.
  induction rows as [|r rows IH]; intros HF; [auto|].
  simpl in HF. inversion HF as [|? ? (b & Hb & Hab) HF']. subst.
  destruct (IH HF') as (E1 & E2 & E3).
  simpl. rewrite Hb, sql_equal_integer.
  replace (b =? a)%Z with false by (symmetry; apply Z.eqb_neq; lia).
  replace (b <? a)%Z with false by (symmetry; apply Z.ltb_ge; lia).
  simpl. rewrite E2. auto.
Qed.

(** In a table stored by ascending id, the row at position [n] is the only
    one with its id, and exactly [n] rows have a smaller one. *)
Lemma row_at_position i rows : forall lo n r,
  ascending_from lo (map (fun r => column_value r i) rows) = true ->
  nth_error rows n = Some r ->
  exists a,
    column_value r i = SQLITE_INTEGER a
    /\ filter (fun r' => sql_equal (column_value r' i) (SQLITE_INTEGER a)) rows = [r]
    /\ filter (fun r' => negb (sql_equal (column_value r' i) (SQLITE_INTEGER a))) rows
       = firstn n rows ++ skipn (S n) rows
    /\ length (filter (fun r' => match column_value r' i with
                                 | SQLITE_INTEGER b => (b <? a)%Z
                                 | _ => false
                                 end) rows) = n.
Proof.
  induction rows as [|r0 rows IH]; intros lo n r Hasc Hn; [destruct n; discriminate|].
  simpl in Hasc. apply ascending_from_head in Hasc as (a0 & Ha0 & Hasc).
  destruct n as [|n]; simpl in Hn.
  - inversion Hn. subst r0. exists a0. split; [assumption|].
    destruct (filter_above i a0 rows (ascending_from_bound _ _ Hasc)) as (E1 & E2 & E3).
    simpl. rewrite Ha0, sql_equal_integer, Z.eqb_refl, Z.ltb_irrefl. simpl.
    rewrite E1, E2, E3. auto.
  - destruct (IH _ _ _ Hasc Hn) as (a & Ha & E1 & E2 & E3).
    exists a. split; [assumption|].
    assert (a0 < a)%Z as Hlt.
    { pose proof (ascending_from_bound _ _ Hasc) as HF.
      rewrite Forall_forall in HF.
      destruct (HF (column_value r i)) as (b & Hb & Hab).
      - apply in_map_iff. exists r. split; [reflexivity|].
        eapply nth_error_In; eassumption.
      - rewrite Ha in Hb. inversion Hb. lia. }
    simpl. rewrite Ha0, sql_equal_integer.
    replace (a0 =? a)%Z with false by (symmetry; apply Z.eqb_neq; lia).
    replace (a0 <? a)%Z with true by (symmetry; apply Z.ltb_lt; lia).
    simpl. rewrite E1, E2, E3. auto.
Qed.

Lemma set_rows_same db t tb :
  sqlite3FindTable db t = Some tb -> set_rows db t (tbl_rows tb) = db.
Proof.
  induction db as [|t0 db IH]; simpl; [discriminate|].
  destruct (sqlite3StrICmp (tbl_name t0) t).
  - intros E. inversion E. subst. destruct tb; reflexivity.
  - intros E. now rewrite (IH E).
Qed.

(** ** Tables with a key *)

Local Arguments sql_equal : simpl never.
Local Arguments sql_le : simpl never.

Lemma sql_le_integer a b : sql_le (SQLITE_INTEGER a) (SQLITE_INTEGER b) = (a <=? b)%Z.
Proof. unfold sql_le, Z.leb. simpl. destruct (a ?= b)%Z; reflexivity. Qed.

Lemma unique_integers_head v vs :
  unique_integers (v :: vs) = true ->
  exists a, v = SQLITE_INTEGER a
            /\ Forall (fun v' => exists b, v' = SQLITE_INTEGER b /\ b <> a) vs
            /\ unique_integers vs = true.
Proof.
  destruct v; try discriminate. simpl. intros Hu.
  apply andb_true_iff in Hu as [Hn Hu]. apply negb_true_iff in Hn.
  exists i. split; [reflexivity|]. split; [|assumption].
  clear - Hn Hu. induction vs as [|v vs IH]; [constructor|].
  destruct v; try discriminate. simpl in Hn, Hu.
  apply orb_false_iff in Hn as [Hne Hn].
  apply andb_true_iff in Hu as [_ Hu].
  rewrite sql_equal_integer in Hne. apply Z.eqb_neq in Hne.
  constructor; [exists i0; split; [reflexivity|congruence]|]. apply IH; assumption.
Qed.

Lemma ascending_unique vs : forall lo,
  ascending_from lo vs = true -> unique_integers vs = true.
Proof.
  induction vs as [|v vs IH]; intros lo Hasc; [reflexivity|].
  apply ascending_from_head in Hasc as (a & -> & Hasc). simpl.
  rewrite (IH _ Hasc), andb_true_r. apply negb_true_iff.
  pose proof (ascending_from_bound _ _ Hasc) as HF.
  clear - HF. induction HF as [|v vs (b & -> & Hb) _ IH]; [reflexivity|].
  simpl. rewrite sql_equal_integer, IH.
  replace (a =? b)%Z with false by (symmetry; apply Z.eqb_neq; lia). reflexivity.
Qed.

Lemma length_sort_insert i r rs : length (sort_insert i r rs) = S (length rs).
Proof.
  induction rs as [|r' rs IH]; simpl; [reflexivity|].
  destruct (sql_le _ _); simpl; [reflexivity|now rewrite IH].
Qed.

Lemma length_order_by i rs : length (order_by i rs) = length rs.
Proof.
  induction rs as [|r rs IH]; simpl; [reflexivity|].
  now rewrite length_sort_insert, IH.
Qed.

Lemma In_sort_insert i r rs x : In x (sort_insert i r rs) <-> x = r \/ In x rs.
Proof.
  induction rs as [|r' rs IH]; simpl; [intuition|].
  destruct (sql_le _ _); simpl; [intuition|]. rewrite IH. intuition.
Qed.

Lemma In_order_by i rs x : In x (order_by i rs) <-> In x rs.
Proof.
  induction rs as [|r rs IH]; simpl; [reflexivity|].
  rewrite In_sort_insert, IH. intuition.
Qed.

Lemma filter_sort_insert (f : row -> bool) i r rs :
  length (filter f (sort_insert i r rs)) = length (filter f (r :: rs)).
Proof.
  induction rs as [|r' rs IH]; [reflexivity|].
  simpl sort_insert. destruct (sql_le _ _); [reflexivity|].
  simpl in *. destruct (f r'), (f r); simpl in *; lia.
Qed.

Lemma filter_order_by (f : row -> bool) i rs :
  length (filter f (order_by i rs)) = length (filter f rs).
Proof.
  induction rs as [|r rs IH]; [reflexivity|].
  simpl order_by. rewrite filter_sort_insert. simpl. destruct (f r); simpl; now rewrite IH.
Qed.

(** Inserting a row with a new id into rows that ascend keeps them
    ascending. *)
Lemma ascending_sort_insert i r a rs : forall lo,
  column_value r i = SQLITE_INTEGER a ->
  match lo with Some l => (l < a)%Z | None => True end ->
  Forall (fun v => exists b, v = SQLITE_INTEGER b /\ b <> a)
         (map (fun r' => column_value r' i) rs) ->
  ascending_from lo (map (fun r' => column_value r' i) rs) = true ->
  ascending_from lo (map (fun r' => column_value r' i) (sort_insert i r rs)) = true.
Proof.
  induction rs as [|r' rs IH]; intros lo Ha Hlo Hne Hasc.
  - simpl. rewrite Ha. destruct lo; simpl; [|reflexivity].
    rewrite andb_true_r. now apply Z.ltb_lt.
  - simpl map in Hasc, Hne. inversion Hne as [|? ? (a' & Ha' & Hneq) Hne']. subst.
    pose proof Hasc as Hasc0.
    apply ascending_from_head in Hasc as (a'' & Ha'' & Htail).
    rewrite Ha' in Ha''. inversion Ha''. subst a''.
    simpl sort_insert. rewrite Ha, Ha', sql_le_integer.
    destruct (a <=? a')%Z eqn:E.
    + apply Z.leb_le in E. simpl map. rewrite Ha, Ha'. simpl.
      rewrite Htail, andb_true_r.
      replace (a <? a')%Z with true by (symmetry; apply Z.ltb_lt; lia).
      destruct lo; [|reflexivity]. rewrite andb_true_r. now apply Z.ltb_lt.
    + apply Z.leb_gt in E. simpl map. rewrite Ha'.
      simpl in Hasc0. rewrite Ha' in Hasc0. simpl.
      apply andb_true_iff in Hasc0 as [Hlo' _]. rewrite Hlo'. simpl.
      apply IH; assumption.
Qed.

(** ORDER BY on a key puts the rows in ascending order of the key. *)
Lemma order_by_key_ascending i rs :
  unique_integers (map (fun r => column_value r i) rs) = true ->
  ascending_from None (map (fun r => column_value r i) (order_by i rs)) = true.
Proof.
  induction rs as [|r rs IH]; intros Hu; [reflexivity|].
  simpl map in Hu. apply unique_integers_head in Hu as (a & Ha & Hne & Hu).
  simpl order_by. apply (ascending_sort_insert i r a); try assumption; [exact I| |auto].
  rewrite Forall_forall in Hne |- *. intros v Hv.
  apply in_map_iff in Hv as (r' & <- & Hr'). apply In_order_by in Hr'.
  apply Hne. apply in_map_iff. eauto.
Qed.

(** In a table with a key, the rows that hold the id of a given row are
    that row alone. *)
Lemma filter_key i rs : forall r a,
  unique_integers (map (fun r => column_value r i) rs) = true ->
  In r rs -> column_value r i = SQLITE_INTEGER a ->
  filter (fun r' => sql_equal (column_value r' i) (SQLITE_INTEGER a)) rs = [r].
Proof.
  induction rs as [|r0 rs IH]; intros r a Hu Hin Ha; [destruct Hin|].
  simpl map in Hu. apply unique_integers_head in Hu as (a0 & Ha0 & Hne & Hu).
  simpl. rewrite Ha0, sql_equal_integer. destruct Hin as [->|Hin].
  - rewrite Ha in Ha0. inversion Ha0. subst a0. rewrite Z.eqb_refl. f_equal.
    apply filter_none_in. intros r' Hr'.
    rewrite Forall_forall in Hne.
    destruct (Hne (column_value r' i)) as (b & Hb & Hba);
      [apply in_map_iff; eauto|].
    rewrite Hb, sql_equal_integer. now apply Z.eqb_neq.
  - assert (a0 <> a) as Hneq.
    { rewrite Forall_forall in Hne.
      destruct (Hne (column_value r i)) as (b & Hb & Hba); [apply in_map_iff; eauto|].
      rewrite Ha in Hb. inversion Hb. congruence. }
    replace (a0 =? a)%Z with false by (symmetry; now apply Z.eqb_neq).
    now apply IH.
Qed.


(** ** The read operations on a table that exists *)

Lemma getAllRecords_loop_nth table rows : forall acc records,
  getAllRecords_loop table rows acc = Return records ->
  length records = (length acc + length rows)%nat
  /\ forall n r, nth_error rows n = Some r ->
       exists rd, decodeRow r [] = Return rd
                  /\ nth_error records (length acc + n) = Some (mkRecord rd table).
Proof.
  induction rows as [|r0 rows IH]; intros acc records E; simpl in E.
  - inversion E. subst. split; [simpl; lia|]. intros [|n] r; discriminate.
  - destruct (decodeRow r0 []) as [rd0|e] eqn:D; [|discriminate].
    destruct (IH _ _ E) as [L N]. rewrite length_app in L. simpl in L.
    split; [simpl; lia|].
    intros [|n] r Hn; simpl in Hn.
    + inversion Hn. subst r0. exists rd0. split; [assumption|].
      assert (forall rows acc records, getAllRecords_loop table rows acc = Return records ->
                forall m, (m < length acc)%nat -> nth_error records m = nth_error acc m) as Keep.
      { clear. induction rows as [|r rows IH]; intros acc records E m Hm; simpl in E.
        - now inversion E.
        - destruct (decodeRow r []); [|discriminate].
          rewrite (IH _ _ E m) by (rewrite length_app; simpl; lia).
          apply nth_error_app1. assumption. }
      rewrite (Keep _ _ _ E) by (rewrite length_app; simpl; lia).
      rewrite Nat.add_0_r, nth_error_app2 by lia. now rewrite Nat.sub_diag.
    + destruct (N n r Hn) as (rd & Drd & Nrd). exists rd. split; [assumption|].
      rewrite length_app in Nrd. simpl in Nrd.
      now replace (length acc + S n)%nat with (length acc + 1 + n)%nat by lia.
Qed.

Section Reading.

Context `{Internals}.

Lemma getAllRecords_rows table db t :
  is_identifier table = true ->
  sqlite3FindTable db table = Some t ->
  getAllRecords table db
  = (getAllRecords_loop table (map (result_row t) (tbl_rows t)) [], db).
Proof.
  intros Ht F. unfold getAllRecords, sqlite3_prepare_v2.
  rewrite (parse_getAllRecords table Ht). unfold resolve. rewrite F. simpl.
  unfold sqlite3_step. simpl stmt_sql. cbv iota. rewrite F. simpl.
  rewrite filter_all by reflexivity. reflexivity.
Qed.

Lemma column_of_id t i r :
  column_index (tbl_columns t) "id" = Some i -> column_of t "id" r = column_value r i.
Proof. intros Hi. unfold column_of. now rewrite Hi. Qed.

Lemma prepare_pseudoId db table t i q (mk : string -> option where_clause -> statement) :
  (mk = Select \/ mk = Delete) ->
  parse q = Some (mk table (Some (WhereRank "id" (mkRank "PseudoIDs" "id" "id" table)))) ->
  sqlite3StrICmp table "PseudoIDs" = false ->
  sqlite3FindTable db table = Some t ->
  column_index (tbl_columns t) "id" = Some i ->
  sqlite3_prepare_v2 db q
  = inr (mkStmt (mk table (Some (WhereRank "id" (mkRank "PseudoIDs" "id" "id" table)))) [Unbound]).
Proof.
  intros Hmk P Hcte F Hi. unfold sqlite3_prepare_v2. rewrite P.
  assert (resolve db (mk table (Some (WhereRank "id" (mkRank "PseudoIDs" "id" "id" table)))) = None) as R.
  { assert (check_where db t (Some (WhereRank "id" (mkRank "PseudoIDs" "id" "id" table))) = None) as W.
    { unfold check_where, first_missing, has_column. rewrite Hi. simpl rk_table.
      simpl rk_cte. rewrite Hcte.
      rewrite F. simpl rk_order_by. simpl rk_column. rewrite Hi.
      rewrite !sqlite3StrICmp_refl. reflexivity. }
    destruct Hmk; subst mk; unfold resolve; rewrite F; exact W. }
  rewrite R. destruct Hmk; subst mk; reflexivity.
Qed.

(** The subquery on a table with a column id: the id of the row at
    position [k] (from 1) of the rows ordered by id, NULL when there is no
    such position. *)
Lemma rank_value_id db table t i k :
  sqlite3FindTable db table = Some t ->
  column_index (tbl_columns t) "id" = Some i ->
  rank_value db (mkRank "PseudoIDs" "id" "id" table) (SQLITE_INTEGER k)
  = if (1 <=? k)%Z
    then match nth_error (order_by i (tbl_rows t)) (Z.to_nat (k - 1)) with
         | Some r => column_value r i
         | None => SQLITE_NULL
         end
    else SQLITE_NULL.
Proof.
  intros F Hi. unfold rank_value. simpl rk_table. simpl rk_order_by.
  simpl rk_column. rewrite F, Hi.
  destruct (1 <=? k)%Z; [|reflexivity].
  destruct (nth_error _ _) as [r|]; [|reflexivity].
  apply column_of_id. assumption.
Qed.

Lemma rank_value_out_of_range db table t i k :
  sqlite3FindTable db table = Some t ->
  column_index (tbl_columns t) "id" = Some i ->
  (k < 1 \/ Z.of_nat (length (tbl_rows t)) < k)%Z ->
  rank_value db (mkRank "PseudoIDs" "id" "id" table) (SQLITE_INTEGER k) = SQLITE_NULL.
Proof.
  intros F Hi Hk. rewrite (rank_value_id db table t i k F Hi).
  destruct (1 <=? k)%Z eqn:E; [|reflexivity]. apply Z.leb_le in E.
  assert (nth_error (order_by i (tbl_rows t)) (Z.to_nat (k - 1)) = None) as ->;
    [|reflexivity].
  apply nth_error_None. rewrite length_order_by. lia.
Qed.

(** On a table where id is a key, the subquery gives, for [k] from 1 to the
    number of rows, the id of the one row that has exactly [k-1] smaller ids
    in the table. *)
Lemma rank_value_key db table t i k :
  sqlite3FindTable db table = Some t ->
  column_index (tbl_columns t) "id" = Some i ->
  unique_integers (map (fun r => column_value r i) (tbl_rows t)) = true ->
  (1 <= k <= Z.of_nat (length (tbl_rows t)))%Z ->
  exists r a,
    In r (tbl_rows t)
    /\ nth_error (order_by i (tbl_rows t)) (Z.to_nat (k - 1)) = Some r
    /\ column_value r i = SQLITE_INTEGER a
    /\ rank_value db (mkRank "PseudoIDs" "id" "id" table) (SQLITE_INTEGER k) = SQLITE_INTEGER a
    /\ Z.of_nat (smaller_ids t a) = (k - 1)%Z
    /\ filter (fun r' => sql_equal (column_value r' i) (SQLITE_INTEGER a)) (tbl_rows t) = [r].
Proof.
  intros F Hi Hu Hk. rewrite (rank_value_id db table t i k F Hi).
  assert ((1 <=? k)%Z = true) as -> by (apply Z.leb_le; lia).
  destruct (nth_error (order_by i (tbl_rows t)) (Z.to_nat (k - 1))) as [r|] eqn:Hr;
    [|apply nth_error_None in Hr; rewrite length_order_by in Hr; lia].
  destruct (row_at_position i _ None _ r (order_by_key_ascending i _ Hu) Hr)
    as (a & Ha & _ & _ & E3).
  assert (In r (tbl_rows t)) as Hin
      by (apply (In_order_by i); eapply nth_error_In; eassumption).
  exists r, a. repeat split; try assumption.
  - unfold smaller_ids. rewrite Hi, <- (filter_order_by _ i), E3. lia.
  - apply filter_key; assumption.
Qed.

(** What getRecordByPseudoId does on a table that has a column id. *)
Lemma getRecordByPseudoId_rows table db t i k :
  is_identifier table = true ->
  sqlite3StrICmp table "PseudoIDs" = false ->
  sqlite3FindTable db table = Some t ->
  column_index (tbl_columns t) "id" = Some i ->
  getRecordByPseudoId table k db
  = (match filter (fun r => sql_equal (column_value r i)
                              (rank_value db (mkRank "PseudoIDs" "id" "id" table) (SQLITE_INTEGER k)))
                  (tbl_rows t) with
     | r :: _ =>
         match decodeRow (result_row t r) [] with
         | Return rd => Return (mkRecord rd table)
         | Throw e => Throw e
         end
     | [] => Throw not_found
     end, db).
Proof.
  intros Ht Hcte F Hi. unfold getRecordByPseudoId.
  rewrite (prepare_pseudoId db table t i _ Select (or_introl eq_refl)
             (parse_getRecordByPseudoId table Ht) Hcte F Hi).
  unfold sqlite3_bind_int, sqlite3_bind. simpl.
  unfold sqlite3_step. simpl stmt_sql. cbv iota. rewrite F. simpl stmt_vars.
  unfold selects.
  rewrite (filter_ext _ (fun r => sql_equal (column_value r i)
                           (rank_value db (mkRank "PseudoIDs" "id" "id" table) (SQLITE_INTEGER k))))
    by (intros r; now rewrite (column_of_id t i r Hi)).
  destruct (filter _ _) as [|r rs]; simpl; [reflexivity|].
  destruct (decodeRow _ _); reflexivity.
Qed.

(** What removeRecordByPseudoId does on a table that has a column id. *)
Lemma removeRecordByPseudoId_rows table db t i k :
  is_identifier table = true ->
  sqlite3StrICmp table "PseudoIDs" = false ->
  sqlite3FindTable db table = Some t ->
  column_index (tbl_columns t) "id" = Some i ->
  removeRecordByPseudoId table k db
  = (Return tt,
     set_rows db table
       (filter (fun r => negb (sql_equal (column_value r i)
                                 (rank_value db (mkRank "PseudoIDs" "id" "id" table) (SQLITE_INTEGER k))))
               (tbl_rows t))).
Proof.
  intros Ht Hcte F Hi. unfold removeRecordByPseudoId.
  rewrite (prepare_pseudoId db table t i _ Delete (or_intror eq_refl)
             (parse_removeRecordByPseudoId table Ht) Hcte F Hi).
  unfold sqlite3_bind_int, sqlite3_bind. simpl.
  unfold sqlite3_step. simpl stmt_sql. cbv iota. rewrite F. simpl stmt_vars.
  unfold selects.
  rewrite (filter_ext _ (fun r => negb (sql_equal (column_value r i)
                           (rank_value db (mkRank "PseudoIDs" "id" "id" table) (SQLITE_INTEGER k)))))
    by (intros r; now rewrite (column_of_id t i r Hi)).
  reflexivity.
Qed.

End Reading.

Section PseudoId.

Context `{Internals}.




End PseudoId.

(** ** The text and the statement of a filter *)

Lemma fold_whereClause keys : forall acc,
  empty acc = false ->
  fold_left whereClause_key keys acc = (acc ++ where_tail keys)%string.
Proof.
  induction keys as [|k ks IH]; intros acc Hacc; simpl.
  - now rewrite append_nil_r.
  - unfold whereClause_key at 2. rewrite Hacc. simpl negb. cbv iota.
    rewrite IH.
    + now rewrite !append_assoc.
    + rewrite append_assoc. destruct acc; [discriminate|reflexivity].
Qed.

Lemma whereClause_cons k v data :
  whereClause ((k, v) :: data) = (k ++ " = ?" ++ where_tail (map fst data))%string.
Proof.
  unfold whereClause. simpl. rewrite fold_whereClause.
  - unfold whereClause_key. simpl. now rewrite append_assoc.
  - unfold whereClause_key. simpl. apply empty_append_cons.
Qed.

Lemma tokens_where_tail keys :
  identifiers keys = true ->
  tokens_from EmptyString (where_tail keys) = and_tokens keys.
Proof.
  induction keys as [|k ks IH]; intros Hk; [reflexivity|].
  simpl in Hk. apply andb_true_iff in Hk as [Hk Hks].
  simpl where_tail. simpl append. simpl tokens_from.
  lex_identifier. simpl tokens_from. now rewrite (IH Hks).
Qed.

Lemma tokens_whereClause k v data :
  identifiers (k :: map fst data) = true ->
  tokens_from EmptyString (whereClause ((k, v) :: data))
  = TK_ID k :: TK_EQ :: TK_VARIABLE :: and_tokens (map fst data).
Proof.
  intros Hk. rewrite whereClause_cons.
  simpl in Hk. apply andb_true_iff in Hk as [Hk Hks].
  simpl append. lex_identifier. simpl tokens_from.
  now rewrite (tokens_where_tail _ Hks).
Qed.

Lemma conjunction_and k rest :
  is_reserved k = false ->
  conjunction (TK_ID k :: TK_EQ :: TK_VARIABLE :: TK_ID "AND" :: rest)
  = match conjunction rest with
    | Some (zs, ts) => Some (k :: zs, ts)
    | None => None
    end.
Proof. intros Hk. simpl. now rewrite Hk. Qed.

Lemma conjunction_tokens ks : forall k,
  identifiers (k :: ks) = true ->
  conjunction (TK_ID k :: TK_EQ :: TK_VARIABLE :: and_tokens ks) = Some (k :: ks, []).
Proof.
  induction ks as [|k' ks IH]; intros k Hk;
    simpl in Hk; apply andb_true_iff in Hk as [Hk Hks].
  - simpl. now rewrite (is_identifier_not_reserved k Hk).
  - simpl and_tokens. rewrite (conjunction_and _ _ (is_identifier_not_reserved k Hk)).
    now rewrite (IH k' Hks).
Qed.

Lemma opt_where_params k ks :
  identifiers (k :: ks) = true ->
  opt_where (TK_ID "WHERE" :: TK_ID k :: TK_EQ :: TK_VARIABLE :: and_tokens ks)
  = Some (Some (WhereParams (k :: ks)), []).
Proof.
  intros Hk. unfold opt_where. simpl keyword. cbv iota.
  unfold where_body. now rewrite (conjunction_tokens ks k Hk).
Qed.

Lemma parse_getRecord table k v data :
  is_identifier table = true ->
  identifiers (k :: map fst data) = true ->
  parse (getRecord_query table ((k, v) :: data))
  = Some (Select table (Some (WhereParams (k :: map fst data)))).
Proof.
  intros Ht Hk. unfold parse, tokenize, getRecord_query. simpl tokens_from.
  lex_identifier. simpl tokens_from. rewrite (tokens_whereClause k v data Hk).
  unfold one_statement. simpl first_word. simpl String.eqb. cbv iota.
  rewrite (select_tokens _ _ Ht). now rewrite (opt_where_params _ _ Hk).
Qed.

Lemma parse_removeRecord table k v data :
  is_identifier table = true ->
  identifiers (k :: map fst data) = true ->
  parse (removeRecord_query table ((k, v) :: data))
  = Some (Delete table (Some (WhereParams (k :: map fst data)))).
Proof.
  intros Ht Hk. unfold parse, tokenize, removeRecord_query. simpl tokens_from.
  lex_identifier. simpl tokens_from. rewrite (tokens_whereClause k v data Hk).
  unfold one_statement. simpl first_word. simpl String.eqb. cbv iota.
  rewrite (delete_tokens _ _ Ht). now rewrite (opt_where_params _ _ Hk).
Qed.


(** ** The text and the statement of an INSERT *)

Lemma fold_addRecord_key keys : forall columns placeholders,
  empty columns = false ->
  fold_left addRecord_key keys (columns, placeholders)
  = ((columns ++ columns_tail keys)%string, (placeholders ++ placeholders_tail keys)%string).
Proof.
  induction keys as [|k ks IH]; intros columns placeholders Hc; simpl.
  - now rewrite !append_nil_r.
  - rewrite Hc. simpl negb. cbv iota. rewrite IH.
    + now rewrite !append_assoc.
    + rewrite append_assoc. destruct columns; [discriminate|reflexivity].
Qed.

Lemma is_identifier_not_empty w : is_identifier w = true -> empty w = false.
Proof. destruct w; [discriminate|reflexivity]. Qed.

Lemma addRecord_query_cons table k v data :
  is_identifier k = true ->
  addRecord_query (mkRecord ((k, v) :: data) table)
  = ("INSERT INTO " ++ table ++ " (" ++ k ++ columns_tail (map fst data)
       ++ ") VALUES (" ++ "?" ++ placeholders_tail (map fst data) ++ ")")%string.
Proof.
  intros Hk. unfold addRecord_query. simpl.
  rewrite (fold_addRecord_key _ _ _ (is_identifier_not_empty k Hk)).
  now rewrite !append_assoc.
Qed.

Lemma tokens_columns_tail ks : forall k c rest,
  identifiers (k :: ks) = true -> IdChar c = false ->
  tokens_from EmptyString (k ++ columns_tail ks ++ String c rest)
  = TK_ID k :: comma_names ks ++ tokens_from EmptyString (String c rest).
Proof.
  induction ks as [|k' ks IH]; intros k c rest Hk Hc;
    simpl in Hk; apply andb_true_iff in Hk as [Hk Hks].
  - simpl columns_tail. simpl append.
    rewrite tokens_identifier_then by assumption. reflexivity.
  - simpl columns_tail. simpl append.
    rewrite tokens_identifier_then by (assumption || reflexivity).
    simpl tokens_from. rewrite append_assoc.
    rewrite (IH k' c rest Hks Hc). reflexivity.
Qed.

Lemma tokens_placeholders ks : forall rest,
  tokens_from EmptyString (placeholders_tail ks ++ String ")" rest)
  = comma_variables (length ks) ++ TK_RP :: tokens_from EmptyString rest.
Proof.
  induction ks as [|k ks IH]; intros rest.
  - reflexivity.
  - simpl placeholders_tail. simpl append. simpl tokens_from.
    rewrite IH. reflexivity.
Qed.

Lemma name_list_comma k rest :
  is_reserved k = false ->
  name_list (TK_ID k :: TK_COMMA :: rest)
  = match name_list rest with
    | Some (zs, ts) => Some (k :: zs, ts)
    | None => None
    end.
Proof. intros Hk. simpl. now rewrite Hk. Qed.

Lemma name_list_tokens ks : forall k rest,
  identifiers (k :: ks) = true ->
  name_list (TK_ID k :: comma_names ks ++ TK_RP :: rest) = Some (k :: ks, TK_RP :: rest).
Proof.
  induction ks as [|k' ks IH]; intros k rest Hk;
    simpl in Hk; apply andb_true_iff in Hk as [Hk Hks].
  - simpl. now rewrite (is_identifier_not_reserved k Hk).
  - simpl comma_names. simpl app.
    rewrite (name_list_comma _ _ (is_identifier_not_reserved k Hk)).
    now rewrite (IH k' rest Hks).
Qed.

Lemma variable_list_tokens n : forall rest,
  variable_list (TK_VARIABLE :: comma_variables n ++ TK_RP :: rest) = Some (S n, TK_RP :: rest).
Proof.
  induction n as [|n IH]; intros rest; [reflexivity|].
  simpl comma_variables. simpl app.
  change (variable_list (TK_VARIABLE :: TK_COMMA :: ?l))
    with (match variable_list l with Some (m, ts) => Some (S m, ts) | None => None end).
  now rewrite IH.
Qed.

Local Arguments name_list : simpl never.
Local Arguments variable_list : simpl never.

Lemma parse_addRecord table k v data :
  is_identifier table = true ->
  identifiers (k :: map fst data) = true ->
  parse (addRecord_query (mkRecord ((k, v) :: data) table))
  = Some (Insert table (k :: map fst data) (S (length data))).
Proof.
  intros Ht Hk.
  assert (is_identifier k = true) as Hk1
      by (simpl in Hk; now apply andb_true_iff in Hk as [Hk _]).
  rewrite (addRecord_query_cons table k v data Hk1).
  unfold parse, tokenize. simpl tokens_from.
  lex_identifier. simpl tokens_from.
  rewrite tokens_columns_tail by (assumption || reflexivity). simpl tokens_from.
  rewrite tokens_placeholders. simpl tokens_from. rewrite length_map.
  unfold one_statement. simpl first_word. simpl String.eqb. cbv iota.
  unfold insert, bind, keyword, lp, rp, ret. simpl.
  rewrite (nm_identifier _ _ Ht).
  rewrite (name_list_tokens _ _ _ Hk). simpl.
  rewrite variable_list_tokens. reflexivity.
Qed.

(** ** Binding a map to the parameters of its statement *)

Lemma set_nth_app {A} (pre : list A) (x y : A) (rest : list A) :
  set_nth (length pre) x (pre ++ y :: rest) = pre ++ x :: rest.
Proof. induction pre as [|z pre IH]; simpl; [reflexivity | now rewrite IH]. Qed.

Lemma sqlite3_bind_in_range stmt index b :
  (1 <= index <= Z.of_nat (length (stmt_vars stmt)))%Z ->
  sqlite3_bind stmt index b
  = (SQLITE_OK, mkStmt (stmt_sql stmt) (set_nth (Z.to_nat (index - 1)) b (stmt_vars stmt))).
Proof.
  intros Hi. unfold sqlite3_bind.
  destruct (1 <=? index)%Z eqn:E1; [|apply Z.leb_gt in E1; lia].
  destruct (index <=? Z.of_nat (length (stmt_vars stmt)))%Z eqn:E2;
    [reflexivity|apply Z.leb_gt in E2; lia].
Qed.

Lemma bindFields_vars unsupported data : forall sql pre,
  bindFields unsupported (mkStmt sql (pre ++ repeat Unbound (length data)))
             (Z.of_nat (length pre) + 1) data
  = Return (mkStmt sql (pre ++ map (fun kv => binding_of_field (snd kv)) data)).
Proof.
  induction data as [|[key value] data IH]; intros sql pre.
  - reflexivity.
  - rewrite bindFields_cons.
    rewrite sqlite3_bind_in_range
      by (simpl stmt_vars; rewrite length_app; simpl; lia).
    cbv beta iota delta [snd]. simpl stmt_vars. simpl stmt_sql.
    replace (Z.to_nat (Z.of_nat (length pre) + 1 - 1)) with (length pre) by lia.
    simpl length. simpl repeat. rewrite set_nth_app.
    replace (pre ++ binding_of_field value :: repeat Unbound (length data))
      with ((pre ++ [binding_of_field value]) ++ repeat Unbound (length data))
      by (now rewrite <- app_assoc).
    replace (Z.of_nat (length pre) + 1 + 1)%Z
      with (Z.of_nat (length (pre ++ [binding_of_field value])) + 1)%Z
      by (rewrite length_app; simpl; lia).
    rewrite IH. simpl map. now rewrite <- app_assoc.
Qed.

Lemma bindFields_fresh unsupported sql data :
  bindFields unsupported (mkStmt sql (repeat Unbound (length data))) 1 data
  = Return (mkStmt sql (map (fun kv => binding_of_field (snd kv)) data)).
Proof. apply (bindFields_vars unsupported data sql []). Qed.

Lemma find_distinct (m : RecordData) : forall i key value,
  distinct (map fst m) = true ->
  nth_error m i = Some (key, value) -> find m key = Some value.
Proof.
  induction m as [|[k v] m IH]; intros i key value Hd Hn; [destruct i; discriminate|].
  simpl in Hd. apply andb_true_iff in Hd as [Hk Hd]. apply negb_true_iff in Hk.
  destruct i as [|i]; simpl in Hn.
  - inversion Hn. subst. simpl. now rewrite String.eqb_refl.
  - simpl. destruct (String.eqb_spec k key) as [->|Hne]; [|eapply IH; eassumption].
    exfalso. apply nth_error_In in Hn.
    assert (existsb (String.eqb key) (map fst m) = true) as Hex; [|congruence].
    apply existsb_exists. exists key. split; [|apply String.eqb_refl].
    apply in_map_iff. exists (key, value). auto.
Qed.

Section Insert.

Context `{Internals}.

(** C3. addRecord names the columns in its INSERT text and binds the
    fields in one and the same order, that of the record's map: the statement
    SQLite compiles from the text lists the keys in that order, and the loop
    binds parameter i+1 with the field of the i-th key, by the bind call of
    the field's kind.  So the i-th column named in the text and the i-th
    bound value are the key and the field of one entry of the map. *)
Theorem addRecord_binds_in_column_order (record : Record_) (db : sqlite3) (t : Table) :
  is_identifier (table record) = true ->
  data record <> [] ->
  identifiers (map fst (data record)) = true ->
  distinct (map fst (data record)) = true ->
  sqlite3FindTable db (table record) = Some t ->
  first_missing t (map fst (data record)) = None ->
  exists stmt stmt',
    sqlite3_prepare_v2 db (addRecord_query record) = inr stmt
    /\ bindFields "Unsupported field type in record: " stmt 1 (data record) = Return stmt'
    /\ addRecord record db
       = (let (e, db') := sqlite3_step db stmt' in
          match first_step e with
          | SQLITE_DONE => (Return tt, db')
          | c => (Throw (runtime_error ("Failed to execute statement: " ++ sqlite3_errmsg c)), db')
          end)
    /\ length (insert_columns (stmt_sql stmt')) = length (data record)
    /\ length (stmt_vars stmt') = length (data record)
    /\ forall i key value,
         nth_error (data record) i = Some (key, value) ->
         nth_error (insert_columns (stmt_sql stmt')) i = Some key
         /\ nth_error (stmt_vars stmt') i = Some (binding_of_field value)
         /\ find (data record) key = Some value.
Proof.
  destruct record as [m tb]. cbn [data table].
  intros Ht Hne Hk Hd F M.
  destruct m as [|[k v] m]; [contradiction|]. simpl map in *.
  exists (mkStmt (Insert tb (k :: map fst m) (S (length m)))
                 (repeat Unbound (length ((k, v) :: m)))).
  exists (mkStmt (Insert tb (k :: map fst m) (S (length m)))
                 (map (fun kv => binding_of_field (snd kv)) ((k, v) :: m))).
  assert (sqlite3_prepare_v2 db (addRecord_query (mkRecord ((k, v) :: m) tb))
          = inr (mkStmt (Insert tb (k :: map fst m) (S (length m)))
                        (repeat Unbound (length ((k, v) :: m))))) as P.
  { unfold sqlite3_prepare_v2. rewrite (parse_addRecord tb k v m Ht Hk).
    unfold resolve. rewrite F, M. simpl length. rewrite length_map, Nat.eqb_refl.
    reflexivity. }
  split; [exact P|]. split; [apply bindFields_fresh|]. split; [|split; [|split]].
  - unfold addRecord. rewrite P. cbn [data].
    rewrite bindFields_fresh. reflexivity.
  - simpl. now rewrite length_map.
  - simpl. now rewrite length_map.
  - intros i key value Hn. simpl stmt_sql. simpl insert_columns. simpl stmt_vars.
    split; [|split].
    + destruct i as [|i]; simpl in Hn |- *;
        [inversion Hn; reflexivity | rewrite nth_error_map, Hn; reflexivity].
    + destruct i as [|i]; simpl in Hn |- *;
        [inversion Hn; reflexivity | rewrite nth_error_map, Hn; reflexivity].
    + apply (find_distinct _ i); assumption.
Qed.

End Insert.

Section Filters.

Context `{Internals}.

Lemma matches_row_matches t (data : RecordData) r :
  matches t (map fst data) (map (fun kv => binding_of_field (snd kv)) data) r
  = row_matches t data r.
Proof.
  unfold row_matches. induction data as [|[k v] data IH]; [reflexivity|].
  simpl. now rewrite IH.
Qed.

Lemma prepare_filter db table t q (data : RecordData) (mk : string -> option where_clause -> statement) :
  (mk = Select \/ mk = Delete) ->
  parse q = Some (mk table (Some (WhereParams (map fst data)))) ->
  sqlite3FindTable db table = Some t ->
  first_missing t (map fst data) = None ->
  sqlite3_prepare_v2 db q
  = inr (mkStmt (mk table (Some (WhereParams (map fst data))))
                (repeat Unbound (length data))).
Proof.
  intros Hmk P F M. unfold sqlite3_prepare_v2. rewrite P.
  assert (resolve db (mk table (Some (WhereParams (map fst data)))) = None) as R.
  { destruct Hmk; subst mk; unfold resolve; rewrite F; unfold check_where; now rewrite M. }
  rewrite R. destruct Hmk; subst mk; simpl; now rewrite length_map.
Qed.

(** What getRecord does with a filter that is not empty and names columns
    of the table. *)
Lemma getRecord_rows table (data : RecordData) db t :
  is_identifier table = true ->
  data <> [] ->
  identifiers (map fst data) = true ->
  sqlite3FindTable db table = Some t ->
  first_missing t (map fst data) = None ->
  getRecord table data db
  = (match filter (row_matches t data) (tbl_rows t) with
     | r :: _ => decode table (result_row t r)
     | [] => Throw not_found
     end, db).
Proof.
  intros Ht Hne Hk F M. unfold getRecord.
  assert (parse (getRecord_query table data)
          = Some (Select table (Some (WhereParams (map fst data))))) as P.
  { destruct data as [|[k v] data]; [contradiction|].
    apply (parse_getRecord table k v data Ht Hk). }
  rewrite (prepare_filter db table t _ data Select (or_introl eq_refl) P F M).
  rewrite bindFields_fresh.
  unfold sqlite3_step. simpl stmt_sql. cbv iota. rewrite F. simpl stmt_vars.
  unfold selects.
  rewrite (filter_ext _ (row_matches t data)) by (intros r; apply matches_row_matches).
  destruct (filter _ _) as [|r rs]; simpl; [reflexivity|].
  unfold decode. destruct (decodeRow _ _); reflexivity.
Qed.

(** What removeRecord does with such a filter. *)
Lemma removeRecord_rows table (data : RecordData) db t :
  is_identifier table = true ->
  data <> [] ->
  identifiers (map fst data) = true ->
  sqlite3FindTable db table = Some t ->
  first_missing t (map fst data) = None ->
  removeRecord table data db
  = (Return tt,
     set_rows db table (filter (fun r => negb (row_matches t data r)) (tbl_rows t))).
Proof.
  intros Ht Hne Hk F M. unfold removeRecord.
  assert (parse (removeRecord_query table data)
          = Some (Delete table (Some (WhereParams (map fst data))))) as P.
  { destruct data as [|[k v] data]; [contradiction|].
    apply (parse_removeRecord table k v data Ht Hk). }
  rewrite (prepare_filter db table t _ data Delete (or_intror eq_refl) P F M).
  rewrite bindFields_fresh.
  unfold sqlite3_step. simpl stmt_sql. cbv iota. rewrite F. simpl stmt_vars.
  unfold selects.
  rewrite (filter_ext _ (fun r => negb (row_matches t data r)))
    by (intros r; now rewrite matches_row_matches).
  reflexivity.
Qed.



(** C1, as the engine has it.  With the empty filter removeRecord builds
    the text [DELETE FROM <table> WHERE ] with nothing after WHERE.  It is not
    a statement: SQLite does not compile it, removeRecord throws the failure
    to prepare, and no row is removed. *)
Theorem removeRecord_empty_filter (table : string) (db : sqlite3) :
  is_identifier table = true ->
  removeRecord_query table [] = ("DELETE FROM " ++ table ++ " WHERE ")%string
  /\ parse (removeRecord_query table []) = None
  /\ exists errmsg,
       removeRecord table [] db
       = (Throw (runtime_error ("Failed to prepare statement: " ++ errmsg)), db).
Proof.
  intros Ht. split; [reflexivity|]. split; [apply (parse_removeRecord_empty table Ht)|].
  exists "syntax error". unfold removeRecord, sqlite3_prepare_v2.
  now rewrite (parse_removeRecord_empty table Ht).
Qed.

End Filters.

(** ** Decoding *)

Lemma find_assign_same (m : RecordData) k v : find (assign m k v) k = Some v.
Proof.
  induction m as [|[k' v'] m IH]; simpl.
  - now rewrite String.eqb_refl.
  - destruct (String.eqb_spec k' k) as [->|Hne]; simpl.
    + now rewrite String.eqb_refl.
    + destruct (String.eqb_spec k' k); [contradiction|assumption].
Qed.

Lemma find_assign_other (m : RecordData) k v k' :
  k <> k' -> find (assign m k v) k' = find m k'.
Proof.
  intros Hne. induction m as [|[k0 v0] m IH]; simpl.
  - destruct (String.eqb_spec k k'); [contradiction|reflexivity].
  - destruct (String.eqb_spec k0 k) as [->|Hne0]; simpl.
    + destruct (String.eqb_spec k k'); [contradiction|reflexivity].
    + destruct (String.eqb_spec k0 k'); [reflexivity|assumption].
Qed.

Lemma distinct_cons k (l : list string) :
  distinct (k :: l) = true -> ~ In k l /\ distinct l = true.
Proof.
  simpl. intros Hd. apply andb_true_iff in Hd as [Hk Hd]. split; [|assumption].
  intros Hin. apply negb_true_iff in Hk.
  assert (existsb (String.eqb k) l = true) as E; [|congruence].
  apply existsb_exists. exists k. split; [assumption|apply String.eqb_refl].
Qed.

Lemma decodeRow_step c v columns acc :
  decodeRow ((c, v) :: columns) acc
  = match decode_policy v with
    | Some f => decodeRow columns (assign acc c f)
    | None => Throw (unsupported_column c)
    end.
Proof. destruct v; reflexivity. Qed.

Lemma decodeRow_returns columns : forall acc rd,
  distinct (map fst columns) = true ->
  decodeRow columns acc = Return rd ->
  (forall c v, In (c, v) columns -> find rd c = decode_policy v /\ decode_policy v <> None)
  /\ (forall c, ~ In c (map fst columns) -> find rd c = find acc c).
Proof.
  induction columns as [|[c0 v0] columns IH]; intros acc rd Hd E.
  - simpl in E. inversion E. subst. split; [intros c v []|reflexivity].
  - rewrite decodeRow_step in E. simpl map in Hd.
    apply distinct_cons in Hd as [Hc0 Hd].
    destruct (decode_policy v0) as [f0|] eqn:P; [|discriminate].
    destruct (IH _ _ Hd E) as [In_cols Out_cols]. split.
    + intros c v [Heq|Hin].
      * inversion Heq. subst. rewrite (Out_cols _ Hc0), find_assign_same, P.
        split; [reflexivity|discriminate].
      * apply In_cols. assumption.
    + intros c Hc. simpl in Hc.
      rewrite Out_cols by tauto. apply find_assign_other. tauto.
Qed.

Lemma decodeRow_throws columns : forall acc e,
  decodeRow columns acc = Throw e ->
  exists c b, In (c, SQLITE_BLOB b) columns /\ e = unsupported_column c.
Proof.
  induction columns as [|[c0 v0] columns IH]; intros acc e E; [discriminate|].
  rewrite decodeRow_step in E.
  destruct v0; simpl in E;
    try (destruct (IH _ _ E) as (c & b' & Hin & He); exists c, b'; split; [now right|assumption]).
  inversion E. exists c0, b. split; [now left|reflexivity].
Qed.

Lemma decodeRow_blob columns : forall acc c b,
  In (c, SQLITE_BLOB b) columns ->
  exists c', decodeRow columns acc = Throw (unsupported_column c').
Proof.
  induction columns as [|[c0 v0] columns IH]; intros acc c b Hin; [destruct Hin|].
  rewrite decodeRow_step. destruct Hin as [Heq|Hin].
  - inversion Heq. subst. exists c. reflexivity.
  - destruct (decode_policy v0); [eapply IH; eassumption|]. exists c0. reflexivity.
Qed.

Lemma sqlite3FindTable_In db n t : sqlite3FindTable db n = Some t -> In t db.
Proof.
  induction db as [|t0 db IH]; simpl; [discriminate|].
  destruct (sqlite3StrICmp (tbl_name t0) n).
  - intros E. inversion E. now left.
  - intros E. right. now apply IH.
Qed.

Lemma getAllRecords_loop_decodes table rows : forall acc records record,
  getAllRecords_loop table rows acc = Return records ->
  In record records ->
  In record acc
  \/ exists x, In x rows /\ decodeRow x [] = Return (data record).
Proof.
  induction rows as [|x rows IH]; intros acc records record E Hin; simpl in E.
  - inversion E. subst. now left.
  - destruct (decodeRow x []) as [rd|] eqn:D; [|discriminate].
    destruct (IH _ _ _ E Hin) as [Hacc|(y & Hy & Dy)].
    + apply in_app_or in Hacc as [Hacc|[<-|[]]]; [now left|].
      right. exists x. split; [now left|assumption].
    + right. exists y. split; [now right|assumption].
Qed.

Lemma getAllRecords_loop_total table rows : forall acc,
  (forall x, In x rows -> exists rd, decodeRow x [] = Return rd) ->
  exists records, getAllRecords_loop table rows acc = Return records.
Proof.
  induction rows as [|x rows IH]; intros acc Hall; simpl; [eauto|].
  destruct (Hall x (or_introl eq_refl)) as (rd & ->).
  apply IH. intros y Hy. apply Hall. now right.
Qed.

Lemma getAllRecords_loop_blob table rows : forall acc x c b,
  In x rows -> In (c, SQLITE_BLOB b) x ->
  exists c', getAllRecords_loop table rows acc = Throw (unsupported_column c').
Proof.
  induction rows as [|x0 rows IH]; intros acc x c b Hx Hb; [destruct Hx|].
  simpl. destruct (decodeRow x0 []) as [rd|e] eqn:D.
  - destruct Hx as [->|Hx]; [|eapply IH; eassumption].
    destruct (decodeRow_blob x [] c b Hb) as (c' & D'). congruence.
  - destruct (decodeRow_throws _ _ _ D) as (c' & b' & _ & ->). eauto.
Qed.

Lemma decodeRow_total columns : forall acc,
  (forall c b, ~ In (c, SQLITE_BLOB b) columns) ->
  exists rd, decodeRow columns acc = Return rd.
Proof.
  induction columns as [|[c0 v0] columns IH]; intros acc Hnb; simpl; [eauto|].
  assert (forall c b, ~ In (c, SQLITE_BLOB b) columns) as Hnb'
      by (intros c b Hin; apply (Hnb c b); now right).
  destruct v0; try apply (IH _ Hnb').
  exfalso. apply (Hnb c0 b). now left.
Qed.

Lemma getAllRecords_loop_map table rows : forall acc records,
  getAllRecords_loop table rows acc = Return records ->
  map (@Return Record_) records = (map (@Return Record_) acc ++ map (decode table) rows)%list.
Proof.
  induction rows as [|x rows IH]; intros acc records E; simpl in E.
  - inversion E. simpl. now rewrite app_nil_r.
  - destruct (decodeRow x []) as [rd|] eqn:D; [|discriminate].
    rewrite (IH _ _ E), map_app, <- app_assoc. simpl. unfold decode. now rewrite D.
Qed.

Section Decoding.

Context `{Internals}.

(** The rows a SELECT hands out are rows of one table of the store. *)
Lemma step_select_rows db stmt rs :
  is_select (stmt_sql stmt) ->
  fst (sqlite3_step db stmt) = Rows rs ->
  exists t, In t db /\ forall x, In x rs -> exists r, In r (tbl_rows t) /\ x = result_row t r.
Proof.
  unfold sqlite3_step. destruct (stmt_sql stmt) as [| | |tn w]; simpl; try contradiction.
  intros _. destruct (sqlite3FindTable db tn) as [t|] eqn:F; simpl; [|discriminate].
  intros E. inversion E. subst rs. exists t. split; [eapply sqlite3FindTable_In; eassumption|].
  intros x Hx. apply in_map_iff in Hx as (r & <- & Hr).
  apply filter_In in Hr as [Hr _]. eauto.
Qed.

(** C6. The switch that decodes a result row follows the policy: when it
    returns, every column (the names being distinct) is in the record under
    its name, an integer column as an Integer field, a floating-point column
    as Real, a text column as Text and NULL as the empty Text; when it
    throws, a column holds a value of another type and the error names such a
    column; and a row with such a column always makes it throw.  The three
    reads decode with this switch and with nothing else.  Every Record that
    getRecord, getRecordByPseudoId or getAllRecords returns is a row of a
    table of the store decoded by it.  And each of them does decode the rows
    it reads, and throws the decode failure where the switch does: on a table
    whose name is an identifier, getRecord (with a filter that is not empty
    and whose keys are identifiers and columns of the table) gives the first
    matching row decoded; getRecordByPseudoId (the name not being that of its
    sub-query, and id a key of the table) gives, for an ordinal from 1 to the
    number of rows, a row of the table decoded; getAllRecords gives every row
    decoded, in storage order, when no row holds a value of another type, and
    throws the decode failure when some row does.  A row decoded is the
    Record of what the switch returns, or the error it throws. *)
Theorem decoding_follows_policy :
  (forall columns,
      distinct (map fst columns) = true ->
      match decodeRow columns [] with
      | Return recordData =>
          forall c v, In (c, v) columns ->
                      find recordData c = decode_policy v /\ decode_policy v <> None
      | Throw e =>
          exists c b, In (c, SQLITE_BLOB b) columns /\ e = unsupported_column c
      end)
  /\ (forall columns c b,
         In (c, SQLITE_BLOB b) columns ->
         exists c', decodeRow columns [] = Throw (unsupported_column c'))
  /\ (forall i r z,
         decode_policy (SQLITE_INTEGER i) = Some (FInt (sqlite3_column_int i))
         /\ decode_policy (SQLITE_FLOAT r) = Some (FDouble r)
         /\ decode_policy (SQLITE_TEXT z) = Some (FString (column_text z))
         /\ decode_policy SQLITE_NULL = Some (FString EmptyString)
         /\ decode_policy (SQLITE_BLOB z) = None)
  /\ (forall table criteria db record,
         fst (getRecord table criteria db) = Return record ->
         exists t r, In t db /\ In r (tbl_rows t)
                     /\ decodeRow (result_row t r) [] = Return (data record))
  /\ (forall table pseudoId db record,
         fst (getRecordByPseudoId table pseudoId db) = Return record ->
         exists t r, In t db /\ In r (tbl_rows t)
                     /\ decodeRow (result_row t r) [] = Return (data record))
  /\ (forall table db records record,
         fst (getAllRecords table db) = Return records ->
         In record records ->
         exists t r, In t db /\ In r (tbl_rows t)
                     /\ decodeRow (result_row t r) [] = Return (data record))
  /\ (forall table criteria db t r rs,
         is_identifier table = true ->
         criteria <> [] ->
         identifiers (map fst criteria) = true ->
         sqlite3FindTable db table = Some t ->
         first_missing t (map fst criteria) = None ->
         filter (row_matches t criteria) (tbl_rows t) = r :: rs ->
         fst (getRecord table criteria db) = decode table (result_row t r))
  /\ (forall table pseudoId db t,
         is_identifier table = true ->
         sqlite3StrICmp table "PseudoIDs" = false ->
         sqlite3FindTable db table = Some t ->
         id_is_key t = true ->
         (1 <= pseudoId <= Z.of_nat (length (tbl_rows t)))%Z ->
         exists r, In r (tbl_rows t)
                   /\ fst (getRecordByPseudoId table pseudoId db)
                      = decode table (result_row t r))
  /\ (forall table db t,
         is_identifier table = true ->
         sqlite3FindTable db table = Some t ->
         ((forall r c b, In r (tbl_rows t) -> ~ In (c, SQLITE_BLOB b) (result_row t r)) ->
          exists records,
            fst (getAllRecords table db) = Return records
            /\ map (@Return Record_) records
               = map (fun r => decode table (result_row t r)) (tbl_rows t))
         /\ (forall r c b, In r (tbl_rows t) -> In (c, SQLITE_BLOB b) (result_row t r) ->
             exists c', fst (getAllRecords table db) = Throw (unsupported_column c')))
  /\ (forall table columns,
         decode table columns
         = match decodeRow columns [] with
           | Return recordData => Return (mkRecord recordData table)
           | Throw e => Throw e
           end).
Proof.
  split; [|split; [|split; [|split; [|split; [|split; [|split; [|split; [|split]]]]]]]].
  - intros columns Hd. destruct (decodeRow columns []) as [rd|e] eqn:E.
    + apply (decodeRow_returns columns [] rd Hd E).
    + apply (decodeRow_throws columns [] e E).
  - intros columns c b. apply decodeRow_blob.
  - intros. repeat split.
  - intros table criteria db record. unfold getRecord.
    destruct (sqlite3_prepare_v2 db _) as [msg|stmt] eqn:P; [discriminate|].
    apply prepare_parse in P as [P _]. apply parse_getRecord_select in P.
    destruct (bindFields _ stmt 1 criteria) as [stmt'|e] eqn:B; [|discriminate].
    apply bindFields_sql in B. rewrite <- B in P.
    pose proof (step_select_rows db stmt') as S.
    destruct (sqlite3_step db stmt') as [e db']. simpl in S.
    destruct e as [[|x rs]|msg]; simpl; try discriminate.
    destruct (S _ P eq_refl) as (t & Ht & Hrows).
    destruct (Hrows x (or_introl eq_refl)) as (r & Hr & ->).
    destruct (decodeRow (result_row t r) []) as [rd|] eqn:D; [|discriminate].
    simpl. intros E. inversion E. subst record. simpl. eauto.
  - intros table pseudoId db record. unfold getRecordByPseudoId.
    destruct (sqlite3_prepare_v2 db _) as [msg|stmt] eqn:P; [discriminate|].
    apply prepare_parse in P as [P _]. apply parse_getRecordByPseudoId_select in P.
    unfold sqlite3_bind_int.
    pose proof (sqlite3_bind_sql stmt 1 (BoundInt pseudoId)) as B.
    destruct (sqlite3_bind stmt 1 (BoundInt pseudoId)) as [[] stmt']; [|discriminate].
    simpl in B. rewrite <- B in P.
    pose proof (step_select_rows db stmt') as S.
    destruct (sqlite3_step db stmt') as [e db']. simpl in S.
    destruct e as [[|x rs]|msg]; simpl; try discriminate.
    destruct (S _ P eq_refl) as (t & Ht & Hrows).
    destruct (Hrows x (or_introl eq_refl)) as (r & Hr & ->).
    destruct (decodeRow (result_row t r) []) as [rd|] eqn:D; [|discriminate].
    simpl. intros E. inversion E. subst record. simpl. eauto.
  - intros table db records record. unfold getAllRecords.
    destruct (sqlite3_prepare_v2 db _) as [msg|stmt] eqn:P; [discriminate|].
    apply prepare_parse in P as [P _]. apply parse_getAllRecords_select in P.
    pose proof (step_select_rows db stmt) as S.
    destruct (sqlite3_step db stmt) as [e db']. simpl in S.
    destruct e as [rs|msg]; simpl.
    + intros E Hin. destruct (S _ P eq_refl) as (t & Ht & Hrows).
      destruct (getAllRecords_loop_decodes _ _ _ _ _ E Hin) as [[]|(x & Hx & D)].
      destruct (Hrows x Hx) as (r & Hr & ->). eauto.
    + intros E. inversion E. subst. intros [].
  - intros table criteria db t r rs Ht Hne Hk F M E.
    rewrite (getRecord_rows table criteria db t Ht Hne Hk F M). simpl. now rewrite E.
  - intros table pseudoId db t Ht Hcte F K Hk.
    unfold id_is_key in K.
    destruct (column_index (tbl_columns t) "id") as [i|] eqn:Hi; [|discriminate].
    rewrite (getRecordByPseudoId_rows table db t i pseudoId Ht Hcte F Hi). simpl fst.
    destruct (rank_value_key db table t i pseudoId F Hi K Hk)
      as (r & a & Hin & _ & _ & -> & _ & E).
    exists r. rewrite E. split; [assumption|reflexivity].
  - intros table db t Ht F. rewrite (getAllRecords_rows table db t Ht F). simpl fst. split.
    + intros Hnb.
      destruct (getAllRecords_loop_total table (map (result_row t) (tbl_rows t)) [])
        as (records & E).
      { intros x Hx. apply in_map_iff in Hx as (r & <- & Hr).
        apply decodeRow_total. intros c b. now apply Hnb. }
      exists records. split; [exact E|].
      rewrite (getAllRecords_loop_map _ _ _ _ E), map_map. reflexivity.
    + intros r c b Hr Hb.
      apply (getAllRecords_loop_blob table (map (result_row t) (tbl_rows t)) []
               (result_row t r) c b); [apply in_map|]; assumption.
  - reflexivity.
Qed.

End Decoding.

(** ** The theorems at work on the example store *)

Example createTable_tasks_query :
  createTable_query "tasks" tasks_columns
  = "CREATE TABLE IF NOT EXISTS tasks (id INTEGER PRIMARY KEY AUTOINCREMENT, title TEXT, description TEXT, timeCreated DATETIME DEFAULT CURRENT_TIMESTAMP)".
Proof. reflexivity. Qed.

Example createTable_tasks :
  @createTable example_internals "tasks" tasks_columns [] = (Return tt, empty_store).
Proof. reflexivity. Qed.

Example addRecord_new_task_query :
  addRecord_query new_task = "INSERT INTO tasks (title, description) VALUES (?, ?)".
Proof. reflexivity. Qed.

Example getRecord_walk_dog_query :
  getRecord_query "tasks" [("title", FString "Walk dog"); ("id", FInt 2)]
  = "SELECT * FROM tasks WHERE title = ? AND id = ?".
Proof. reflexivity. Qed.

Example getAllRecords_three_tasks :
  fst (@getAllRecords example_internals "tasks" example_store)
  = Return
      [ mkRecord [ ("id", FInt 1); ("title", FString "Buy milk");
                   ("description", FString EmptyString);
                   ("timeCreated", FString "2025-03-01 09:00:00") ] "tasks";
        walk_dog_record;
        mkRecord [ ("id", FInt 5); ("title", FString "Pay rent");
                   ("description", FString EmptyString);
                   ("timeCreated", FString "2025-03-02 18:30:00") ] "tasks" ].
Proof. reflexivity. Qed.

Example getRecordByPseudoId_second :
  fst (@getRecordByPseudoId example_internals "tasks" 2 example_store)
  = Return walk_dog_record.
Proof. reflexivity. Qed.

Example getRecordByPseudoId_second_shuffled :
  fst (@getRecordByPseudoId example_internals "tasks" 2 shuffled_store)
  = Return walk_dog_record.
Proof. reflexivity. Qed.

Example removeRecord_walk_dog :
  @removeRecord example_internals "tasks" (data walk_dog_record) example_store
  = (Return tt, [mkTable "tasks" tasks_schema [buy_milk; pay_rent]]).
Proof. reflexivity. Qed.




Lemma addRecord_binds_in_column_order_witness :
  is_identifier (table new_task) = true
  /\ data new_task <> []
  /\ identifiers (map fst (data new_task)) = true
  /\ distinct (map fst (data new_task)) = true
  /\ sqlite3FindTable example_store (table new_task) = Some three_tasks
  /\ first_missing three_tasks (map fst (data new_task)) = None
  /\ exists stmt',
       nth_error (insert_columns (stmt_sql stmt')) 1 = Some "description"
       /\ nth_error (stmt_vars stmt') 1 = Some (BoundText "balcony")
       /\ find (data new_task) "description" = Some (FString "balcony").
Proof.
  split; [reflexivity|]. split; [discriminate|]. split; [reflexivity|].
  split; [reflexivity|]. split; [reflexivity|]. split; [reflexivity|].
  destruct (@addRecord_binds_in_column_order example_internals new_task example_store
              three_tasks eq_refl ltac:(discriminate) eq_refl eq_refl eq_refl eq_refl)
    as (stmt & stmt' & _ & _ & _ & _ & _ & Hnth).
  exists stmt'. apply (Hnth 1%nat "description" (FString "balcony")). reflexivity.
Defined.


Lemma removeRecord_empty_filter_witness :
  is_identifier "tasks" = true
  /\ exists errmsg,
       @removeRecord example_internals "tasks" [] example_store
       = (Throw (runtime_error ("Failed to prepare statement: " ++ errmsg)), example_store).
Proof.
  split; [reflexivity|].
  apply (proj2 (proj2 (@removeRecord_empty_filter example_internals "tasks" example_store
                         eq_refl))).
Defined.

Lemma decoding_follows_policy_witness :
  distinct (map fst (result_row three_tasks buy_milk)) = true
  /\ (forall recordData,
        decodeRow (result_row three_tasks buy_milk) [] = Return recordData ->
        find recordData "id" = Some (FInt 1)
        /\ find recordData "description" = Some (FString EmptyString))
  /\ filter (@row_matches example_internals three_tasks [("title", FString "Walk dog")])
            (tbl_rows three_tasks) = [walk_dog]
  /\ fst (@getRecord example_internals "tasks" [("title", FString "Walk dog")] example_store)
     = Return walk_dog_record
  /\ id_is_key three_tasks = true
  /\ (exists r,
        In r (tbl_rows three_tasks)
        /\ fst (@getRecordByPseudoId example_internals "tasks" 2 example_store)
           = decode "tasks" (result_row three_tasks r))
  /\ (exists records,
        fst (@getAllRecords example_internals "tasks" example_store) = Return records
        /\ map (@Return Record_) records
           = map (fun r => decode "tasks" (result_row three_tasks r)) (tbl_rows three_tasks))
  /\ In scan_receipt (tbl_rows (mkTable "tasks" tasks_schema [scan_receipt]))
  /\ exists c',
       fst (@getAllRecords example_internals "tasks" blob_store)
       = Throw (unsupported_column c').
Proof.
  destruct (@decoding_follows_policy example_internals)
    as (Policy & _ & _ & _ & _ & _ & First & Kth & All & _).
  split; [reflexivity|]. split; [|split; [reflexivity|split; [|split; [reflexivity|split;
    [|split; [|split; [now left|]]]]]]].
  - intros recordData E.
    pose proof (Policy (result_row three_tasks buy_milk) eq_refl) as P.
    rewrite E in P. split.
    + apply (P "id" (SQLITE_INTEGER 1)). simpl. auto.
    + apply (P "description" SQLITE_NULL). simpl. auto.
  - apply (First "tasks" [("title", FString "Walk dog")] example_store three_tasks walk_dog []
             eq_refl ltac:(discriminate) eq_refl eq_refl eq_refl eq_refl).
  - apply (Kth "tasks" 2%Z example_store three_tasks eq_refl eq_refl eq_refl eq_refl).
    simpl. lia.
  - apply (proj1 (All "tasks" example_store three_tasks eq_refl eq_refl)).
    intros r c b Hr Hb. simpl in Hr.
    destruct Hr as [<-|[<-|[<-|[]]]]; simpl in Hb;
      repeat (destruct Hb as [Hb|Hb]; [discriminate|]); destruct Hb.
  - apply (proj2 (All "tasks" blob_store (mkTable "tasks" tasks_schema [scan_receipt])
                      eq_refl eq_refl) scan_receipt "description" "%PDF").
    + now left.
    + simpl. auto.
Defined.

(** C1, the claim as written, fails on the example store: with the empty
    filter the text does not compile, removeRecord throws, and the three rows
    of [tasks] are still there. *)
Lemma removeRecord_empty_filter_counterexample :
  removeRecord_query "tasks" [] = "DELETE FROM tasks WHERE "
  /\ parse (removeRecord_query "tasks" []) = None
  /\ snd (@removeRecord example_internals "tasks" [] example_store) = example_store
  /\ ~ (fst (@removeRecord example_internals "tasks" [] example_store) = Return tt
        /\ forall t,
             sqlite3FindTable (snd (@removeRecord example_internals "tasks" [] example_store))
                              "tasks" = Some t ->
             tbl_rows t = []).
Proof.
  split; [reflexivity|]. split; [reflexivity|]. split; [reflexivity|].
  intros [E _]. discriminate E.
Qed.




(** * Further properties of the engine *)

(** ** What a write leaves of the store *)

Lemma sqlite3StrICmp_eq a b : sqlite3StrICmp a b = true <-> upper a = upper b.
Proof. unfold sqlite3StrICmp. apply String.eqb_eq. Qed.

Lemma schema_set_rows db n rows : schema (set_rows db n rows) = schema db.
Proof.
  induction db as [|t db IH]; [reflexivity|]. simpl.
  destruct (sqlite3StrICmp (tbl_name t) n); [reflexivity|].
  change (schema (t :: set_rows db n rows))
    with ((tbl_name t, tbl_columns t) :: schema (set_rows db n rows)).
  now rewrite IH.
Qed.

Lemma sqlite3FindTable_set_rows db n t rows :
  sqlite3FindTable db n = Some t ->
  sqlite3FindTable (set_rows db n rows) n = Some (mkTable (tbl_name t) (tbl_columns t) rows).
Proof.
  induction db as [|t0 db IH]; simpl; [discriminate|].
  destruct (sqlite3StrICmp (tbl_name t0) n) eqn:E; simpl.
  - intros X. inversion X. subst. now rewrite E.
  - rewrite E. exact IH.
Qed.

Lemma sqlite3FindTable_set_rows_other db n m rows :
  sqlite3StrICmp n m = false ->
  sqlite3FindTable (set_rows db n rows) m = sqlite3FindTable db m.
Proof.
  intros Hnm. induction db as [|t0 db IH]; [reflexivity|]. simpl.
  destruct (sqlite3StrICmp (tbl_name t0) n) eqn:E; simpl.
  - destruct (sqlite3StrICmp (tbl_name t0) m) eqn:E'; [|reflexivity].
    exfalso. apply sqlite3StrICmp_eq in E, E'.
    assert (sqlite3StrICmp n m = true) as X by (apply sqlite3StrICmp_eq; congruence).
    congruence.
  - now rewrite IH.
Qed.

Section Writes.

Context `{Internals}.

(** A step that does not end in SQLITE_DONE has changed nothing. *)
Lemma step_not_done db stmt :
  first_step (fst (sqlite3_step db stmt)) <> SQLITE_DONE ->
  snd (sqlite3_step db stmt) = db.
Proof.
  unfold sqlite3_step. destruct (stmt_sql stmt) as [ine t cds|t cs n|t w|t w].
  - destruct (sqlite3FindTable db t); simpl; congruence.
  - destruct (sqlite3FindTable db t) as [tb|]; [|reflexivity].
    destruct (insertRow tb _); simpl; [reflexivity|congruence].
  - destruct (sqlite3FindTable db t); simpl; [congruence|reflexivity].
  - destruct (sqlite3FindTable db t); reflexivity.
Qed.

(** The tables after a step of a statement that is not CREATE TABLE. *)
Lemma step_schema db stmt :
  match stmt_sql stmt with
  | CreateTable _ t cds =>
      snd (sqlite3_step db stmt) = db
      \/ snd (sqlite3_step db stmt) = (db ++ [mkTable t cds []])%list
  | _ => schema (snd (sqlite3_step db stmt)) = schema db
  end.
Proof.
  unfold sqlite3_step. destruct (stmt_sql stmt) as [ine t cds|t cs n|t w|t w].
  - destruct (sqlite3FindTable db t); simpl; auto.
  - destruct (sqlite3FindTable db t) as [tb|]; [|reflexivity].
    destruct (insertRow tb _); simpl; [reflexivity|apply schema_set_rows].
  - destruct (sqlite3FindTable db t); simpl; [apply schema_set_rows|reflexivity].
  - destruct (sqlite3FindTable db t); reflexivity.
Qed.

Ltac after_step db stmt :=
  let N := fresh "N" in
  pose proof (step_not_done db stmt) as N;
  destruct (sqlite3_step db stmt) as [ex db1]; simpl in N;
  destruct (first_step ex); simpl; intros; try discriminate; apply N; discriminate.

(** X1. A write that throws has changed nothing.  On a table whose name
    is an identifier, and with maps whose keys are identifiers, when
    createTable, addRecord, removeRecord or removeRecordByPseudoId throws,
    whatever the failure (the guard on the columns, a text that does not
    compile, a table or column that is missing, a constraint that refuses
    the row), the store is as it was before the call. *)
Theorem failed_write_keeps_store (table : string) (columns : list Column)
        (fields criteria : RecordData) (pseudoId : Z) (db : sqlite3) :
  is_identifier table = true ->
  identifiers (map fst fields) = true ->
  identifiers (map fst criteria) = true ->
  (forall e, fst (createTable table columns db) = Throw e ->
             snd (createTable table columns db) = db)
  /\ (forall e, fst (addRecord (mkRecord fields table) db) = Throw e ->
                snd (addRecord (mkRecord fields table) db) = db)
  /\ (forall e, fst (removeRecord table criteria db) = Throw e ->
                snd (removeRecord table criteria db) = db)
  /\ (forall e, fst (removeRecordByPseudoId table pseudoId db) = Throw e ->
                snd (removeRecordByPseudoId table pseudoId db) = db).
Proof.
  intros _ _ _. split; [|split; [|split]]; intros e.
  - unfold createTable. destruct columns as [|c columns]; [reflexivity|].
    destruct (sqlite3_prepare_v2 db _) as [msg|stmt]; [reflexivity|].
    after_step db stmt.
  - unfold addRecord. cbn [data].
    destruct (sqlite3_prepare_v2 db _) as [msg|stmt]; [reflexivity|].
    destruct (bindFields _ stmt 1 fields) as [stmt'|e']; [|reflexivity].
    after_step db stmt'.
  - unfold removeRecord.
    destruct (sqlite3_prepare_v2 db _) as [msg|stmt]; [reflexivity|].
    destruct (bindFields _ stmt 1 criteria) as [stmt'|e']; [|reflexivity].
    after_step db stmt'.
  - unfold removeRecordByPseudoId.
    destruct (sqlite3_prepare_v2 db _) as [msg|stmt]; [reflexivity|].
    destruct (sqlite3_bind_int stmt 1 pseudoId) as [[] stmt']; [|reflexivity].
    after_step db stmt'.
Qed.

End Writes.

(** ** Which statement the text of a write compiles to *)

Lemma delete_gives ts s rest : delete ts = Some (s, rest) -> exists t w, s = Delete t w.
Proof.
  unfold delete, bind, ret.
  destruct (keyword "DELETE" ts) as [[? ts1]|]; [|discriminate].
  destruct (keyword "FROM" ts1) as [[? ts2]|]; [|discriminate].
  destruct (nm ts2) as [[t ts3]|]; [|discriminate].
  destruct (opt_where ts3) as [[w ts4]|]; [|discriminate].
  intros E. inversion E. eauto.
Qed.

Lemma insert_gives ts s rest : insert ts = Some (s, rest) -> exists t cs n, s = Insert t cs n.
Proof.
  unfold insert, bind, ret.
  destruct (keyword "INSERT" ts) as [[? ts1]|]; [|discriminate].
  destruct (keyword "INTO" ts1) as [[? ts2]|]; [|discriminate].
  destruct (nm ts2) as [[t ts3]|]; [|discriminate].
  destruct (lp ts3) as [[? ts4]|]; [|discriminate].
  destruct (name_list ts4) as [[cs ts5]|]; [|discriminate].
  destruct (rp ts5) as [[? ts6]|]; [|discriminate].
  destruct (keyword "VALUES" ts6) as [[? ts7]|]; [|discriminate].
  destruct (lp ts7) as [[? ts8]|]; [|discriminate].
  destruct (variable_list ts8) as [[n ts9]|]; [|discriminate].
  destruct (rp ts9) as [[? ts10]|]; [|discriminate].
  intros E. inversion E. eauto.
Qed.

Lemma parsed_statement (p : parser statement) ts s :
  match p ts with
  | Some (s, []) => Some s
  | Some (s, TK_SEMI :: _) => Some s
  | _ => None
  end = Some s ->
  exists rest, p ts = Some (s, rest).
Proof.
  destruct (p ts) as [[s' rest]|]; [|discriminate].
  destruct rest as [|[] rest]; try discriminate; intros X; inversion X; eauto.
Qed.

Lemma parse_delete_text (x : string) (s : statement) :
  parse ("DELETE FROM " ++ x) = Some s -> exists t w, s = Delete t w.
Proof.
  unfold parse, tokenize. simpl tokens_from.
  unfold one_statement. simpl first_word. simpl String.eqb. cbv iota.
  intros P. apply parsed_statement in P as (rest & P). eapply delete_gives; eassumption.
Qed.

Lemma parse_removeRecord_delete table data s :
  parse (removeRecord_query table data) = Some s -> exists t w, s = Delete t w.
Proof. apply parse_delete_text. Qed.

Lemma parse_removeRecordByPseudoId_delete table s :
  parse (removeRecordByPseudoId_query table) = Some s -> exists t w, s = Delete t w.
Proof.
  unfold parse, tokenize, removeRecordByPseudoId_query. simpl tokens_from.
  unfold one_statement. simpl first_word. simpl String.eqb. cbv iota.
  intros P. apply parsed_statement in P as (rest & P). eapply delete_gives; eassumption.
Qed.

Lemma parse_addRecord_insert record s :
  parse (addRecord_query record) = Some s -> exists t cs n, s = Insert t cs n.
Proof.
  unfold addRecord_query.
  destruct (fold_left addRecord_key _ _) as [columns placeholders].
  unfold parse, tokenize. simpl tokens_from.
  unfold one_statement. simpl first_word. simpl String.eqb. cbv iota.
  intros P. apply parsed_statement in P as (rest & P). eapply insert_gives; eassumption.
Qed.


Lemma insert_tokens table ts s rest :
  is_identifier table = true ->
  insert (TK_ID "INSERT" :: TK_ID "INTO" :: TK_ID table :: ts) = Some (s, rest) ->
  exists cs n, s = Insert table cs n.
Proof.
  intros Ht. unfold insert, bind, keyword, ret. simpl.
  rewrite (nm_identifier _ _ Ht).
  destruct (lp ts) as [[? ts4]|]; [|discriminate].
  destruct (name_list ts4) as [[cs ts5]|]; [|discriminate].
  destruct (rp ts5) as [[? ts6]|]; [|discriminate].
  destruct ts6 as [|tok ts7]; [discriminate|]. destruct tok as [z| | | | | | | | |]; try discriminate.
  destruct (String.eqb (upper z) "VALUES"); [|discriminate].
  destruct (lp ts7) as [[? ts8]|]; [|discriminate].
  destruct (variable_list ts8) as [[n ts9]|]; [|discriminate].
  destruct (rp ts9) as [[? ts10]|]; [|discriminate].
  intros E. inversion E. eauto.
Qed.

Lemma parse_addRecord_table tb (fields : RecordData) s :
  is_identifier tb = true ->
  parse (addRecord_query (mkRecord fields tb)) = Some s -> exists cs n, s = Insert tb cs n.
Proof.
  intros Ht. unfold addRecord_query. cbn [data table].
  destruct (fold_left addRecord_key _ _) as [columns placeholders].
  unfold parse, tokenize. simpl tokens_from.
  lex_identifier.
  unfold one_statement. simpl first_word. simpl String.eqb. cbv iota.
  intros P. apply parsed_statement in P as (rest & P).
  eapply insert_tokens; eassumption.
Qed.

Lemma create_table_tokens table ts s rest :
  is_identifier table = true ->
  create_table (TK_ID "CREATE" :: TK_ID "TABLE" :: TK_ID "IF" :: TK_ID "NOT" :: TK_ID "EXISTS"
                  :: TK_ID table :: ts) = Some (s, rest) ->
  exists cds, s = CreateTable true table cds.
Proof.
  intros Ht. unfold create_table, bind, ret. simpl.
  rewrite (nm_identifier _ _ Ht).
  destruct (lp ts) as [[? ts2]|]; [|discriminate].
  destruct (column_list (S (length ts2)) ts2) as [[cds ts3]|]; [|discriminate].
  destruct (rp ts3) as [[? ts4]|]; [|discriminate].
  intros E. inversion E. eauto.
Qed.

Lemma parse_createTable_table table columns s :
  is_identifier table = true ->
  parse (createTable_query table columns) = Some s -> exists cds, s = CreateTable true table cds.
Proof.
  intros Ht. unfold parse, tokenize, createTable_query. simpl tokens_from.
  lex_identifier.
  unfold one_statement. simpl first_word. simpl String.eqb. cbv iota.
  intros P. apply parsed_statement in P as (rest & P).
  eapply create_table_tokens; eassumption.
Qed.

Lemma sqlite3FindTable_app_found db l n t :
  sqlite3FindTable db n = Some t -> sqlite3FindTable (db ++ l) n = Some t.
Proof.
  induction db as [|t0 db IH]; simpl; [discriminate|].
  destruct (sqlite3StrICmp (tbl_name t0) n); [trivial|exact IH].
Qed.

Lemma sqlite3FindTable_app_other db tb n :
  sqlite3StrICmp (tbl_name tb) n = false ->
  sqlite3FindTable (db ++ [tb]) n = sqlite3FindTable db n.
Proof.
  intros Hn. destruct (sqlite3FindTable db n) as [t|] eqn:F.
  - now apply sqlite3FindTable_app_found.
  - rewrite (sqlite3FindTable_app _ _ _ F). now rewrite Hn.
Qed.

Section Frame.

Context `{Internals}.

Lemma step_other_tables db stmt tb n :
  match stmt_sql stmt with
  | CreateTable _ t _ | Insert t _ _ | Delete t _ | Select t _ => t = tb
  end ->
  sqlite3StrICmp tb n = false ->
  sqlite3FindTable (snd (sqlite3_step db stmt)) n = sqlite3FindTable db n.
Proof.
  intros Ht Hn. unfold sqlite3_step.
  destruct (stmt_sql stmt) as [ine t cds|t cs k|t w|t w]; subst t.
  - destruct (sqlite3FindTable db tb); simpl; [reflexivity|].
    now apply sqlite3FindTable_app_other.
  - destruct (sqlite3FindTable db tb) as [t|]; [|reflexivity].
    destruct (insertRow t _); simpl; [reflexivity|].
    now apply sqlite3FindTable_set_rows_other.
  - destruct (sqlite3FindTable db tb); simpl; [|reflexivity].
    now apply sqlite3FindTable_set_rows_other.
  - destruct (sqlite3FindTable db tb); reflexivity.
Qed.

(** X2. addRecord, removeRecord and removeRecordByPseudoId never create,
    drop or rename a table and never change the columns of one: whatever they
    are given and whether they return or throw, the store holds the same
    tables with the same columns afterwards. *)
Theorem writes_keep_schema (table : string)
        (record : Record_) (criteria : RecordData) (pseudoId : Z) (db : sqlite3) :
  schema (snd (addRecord record db)) = schema db
  /\ schema (snd (removeRecord table criteria db)) = schema db
  /\ schema (snd (removeRecordByPseudoId table pseudoId db)) = schema db.
Proof.
  split; [|split].
  - unfold addRecord.
    destruct (sqlite3_prepare_v2 db _) as [msg|stmt] eqn:P; [reflexivity|].
    apply prepare_parse in P as [P _]. apply parse_addRecord_insert in P as (t & cs & n & P).
    destruct (bindFields _ stmt 1 (data record)) as [stmt'|e'] eqn:B; [|reflexivity].
    apply bindFields_sql in B. pose proof (step_schema db stmt') as S.
    rewrite B, P in S.
    destruct (sqlite3_step db stmt') as [ex db1]. destruct (first_step ex); exact S.
  - unfold removeRecord.
    destruct (sqlite3_prepare_v2 db _) as [msg|stmt] eqn:P; [reflexivity|].
    apply prepare_parse in P as [P _]. apply parse_removeRecord_delete in P as (t & w & P).
    destruct (bindFields _ stmt 1 criteria) as [stmt'|e'] eqn:B; [|reflexivity].
    apply bindFields_sql in B. pose proof (step_schema db stmt') as S.
    rewrite B, P in S.
    destruct (sqlite3_step db stmt') as [ex db1]. destruct (first_step ex); exact S.
  - unfold removeRecordByPseudoId.
    destruct (sqlite3_prepare_v2 db _) as [msg|stmt] eqn:P; [reflexivity|].
    apply prepare_parse in P as [P _].
    apply parse_removeRecordByPseudoId_delete in P as (t & w & P).
    unfold sqlite3_bind_int.
    pose proof (sqlite3_bind_sql stmt 1 (BoundInt pseudoId)) as B.
    destruct (sqlite3_bind stmt 1 (BoundInt pseudoId)) as [[] stmt']; [|reflexivity].
    simpl in B. pose proof (step_schema db stmt') as S.
    rewrite B, P in S.
    destruct (sqlite3_step db stmt') as [ex db1]. destruct (first_step ex); exact S.
Qed.


Lemma addRecord_frame tb (fields : RecordData) db other :
  is_identifier tb = true ->
  sqlite3StrICmp tb other = false ->
  sqlite3FindTable (snd (addRecord (mkRecord fields tb) db)) other
  = sqlite3FindTable db other.
Proof.
  intros Ht Hn. unfold addRecord. cbn [data].
  destruct (sqlite3_prepare_v2 db _) as [msg|stmt] eqn:P; [reflexivity|].
  apply prepare_parse in P as [P _].
  apply (parse_addRecord_table _ _ _ Ht) in P as (cs & n & P).
  destruct (bindFields _ stmt 1 fields) as [stmt'|e'] eqn:B; [|reflexivity].
  apply bindFields_sql in B.
  pose proof (step_other_tables db stmt' tb other) as S. rewrite B, P in S.
  specialize (S eq_refl Hn).
  destruct (sqlite3_step db stmt') as [ex db1]. destruct (first_step ex); exact S.
Qed.




(** X4. createTable on a name that is taken changes nothing, whatever
    columns it is given: the table keeps the columns and the rows it has.
    When the text compiles the call returns normally all the same, so a
    caller cannot tell from it that the columns asked for were not put in
    place. *)
Theorem createTable_keeps_existing (tb : string) (columns : list Column)
        (db : sqlite3) (t : Table) :
  is_identifier tb = true ->
  sqlite3FindTable db tb = Some t ->
  snd (createTable tb columns db) = db
  /\ (forall s, parse (createTable_query tb columns) = Some s ->
                columns <> [] -> reserved_object_name tb = false ->
                createTable tb columns db = (Return tt, db)).
Proof.
  intros Ht F. split.
  - unfold createTable. destruct columns as [|c columns]; [reflexivity|].
    destruct (sqlite3_prepare_v2 db _) as [msg|stmt] eqn:P; [reflexivity|].
    apply prepare_parse in P as [P _].
    apply (parse_createTable_table _ _ _ Ht) in P as (cds & P).
    unfold sqlite3_step. rewrite P, F. reflexivity.
  - intros s P Hc Hr. unfold createTable. destruct columns as [|c columns]; [contradiction|].
    unfold sqlite3_prepare_v2. rewrite P.
    apply (parse_createTable_table _ _ _ Ht) in P as (cds & ->).
    unfold resolve. rewrite Hr, F.
    unfold sqlite3_step. simpl stmt_sql. cbv iota. rewrite F. reflexivity.
Qed.


End Frame.

(** ** Filters *)


Lemma first_missing_none_iff t cs :
  first_missing t cs = None <-> forall c, In c cs -> has_column t c = true.
Proof.
  induction cs as [|c cs IH]; simpl.
  - split; [intros _ c []|reflexivity].
  - destruct (has_column t c) eqn:E.
    + rewrite IH. split.
      * intros Hcs c' [<-|Hc']; auto.
      * intros Hcs c' Hc'. apply Hcs. now right.
    + split; [discriminate|]. intros Hcs. rewrite (Hcs c (or_introl eq_refl)) in E.
      discriminate.
Qed.

Section Removing.

Context `{Internals}.





Lemma row_matches_null t (criteria : RecordData) r c :
  In c (map fst criteria) -> column_of t c r = SQLITE_NULL -> row_matches t criteria r = false.
Proof.
  intros Hc Hnull. unfold row_matches.
  apply in_map_iff in Hc as ([c' v] & Heq & Hin). simpl in Heq. subst c'.
  destruct (forallb _ criteria) eqn:E; [|reflexivity].
  rewrite forallb_forall in E. specialize (E _ Hin). cbn [fst snd] in E.
  rewrite Hnull in E. discriminate.
Qed.

(** X8. A filter never matches a row that holds NULL in a column it
    names, whatever value it asks for there: getRecord does not pick such a
    row, and removeRecord leaves it in the table. *)
Theorem filter_skips_null (tb : string) (criteria : RecordData) (db : sqlite3)
        (t : Table) (r : row) (c : string) :
  is_identifier tb = true ->
  identifiers (map fst criteria) = true ->
  sqlite3FindTable db tb = Some t ->
  first_missing t (map fst criteria) = None ->
  In r (tbl_rows t) ->
  In c (map fst criteria) ->
  column_of t c r = SQLITE_NULL ->
  ~ In r (filter (row_matches t criteria) (tbl_rows t))
  /\ (exists first_match,
        getRecord tb criteria db
        = (match first_match with
           | Some r' => decode tb (result_row t r')
           | None => Throw not_found
           end, db)
        /\ first_match <> Some r)
  /\ exists rows',
       removeRecord tb criteria db = (Return tt, set_rows db tb rows') /\ In r rows'.
Proof.
  intros Ht Hk F M Hr Hc Hnull.
  assert (criteria <> []) as Hne by (intros ->; destruct Hc).
  pose proof (row_matches_null t criteria r c Hc Hnull) as Hm.
  assert (~ In r (filter (row_matches t criteria) (tbl_rows t))) as Hnot.
  { intros Hin. apply filter_In in Hin as [_ Hin]. congruence. }
  split; [exact Hnot|]. split.
  - rewrite (getRecord_rows tb criteria db t Ht Hne Hk F M).
    destruct (filter (row_matches t criteria) (tbl_rows t)) as [|r' rs] eqn:E.
    + exists None. split; [reflexivity|discriminate].
    + exists (Some r'). split; [reflexivity|]. intros X. inversion X. subst r'.
      apply Hnot. now left.
  - rewrite (removeRecord_rows tb criteria db t Ht Hne Hk F M).
    eexists. split; [reflexivity|]. apply filter_In. split; [assumption|].
    now rewrite Hm.
Qed.

End Removing.

(** ** A record as a filter *)

Lemma assign_keys (m : RecordData) k v c :
  In c (map fst (assign m k v)) <-> c = k \/ In c (map fst m).
Proof.
  induction m as [|[k' v'] m IH]; simpl.
  - intuition.
  - destruct (String.eqb_spec k' k) as [->|Hne]; simpl; [intuition|].
    rewrite IH. intuition.
Qed.

Lemma decodeRow_keys columns : forall acc rd,
  decodeRow columns acc = Return rd ->
  forall c, In c (map fst rd) <-> In c (map fst acc) \/ In c (map fst columns).
Proof.
  induction columns as [|[c0 v0] columns IH]; intros acc rd E c.
  - simpl in E. inversion E. subst. simpl. intuition.
  - rewrite decodeRow_step in E. destruct (decode_policy v0) as [f0|]; [|discriminate].
    rewrite (IH _ _ E c), assign_keys. simpl. intuition.
Qed.

Lemma result_row_names t r : map fst (result_row t r) = map cd_name (tbl_columns t).
Proof.
  unfold result_row. rewrite map_map. simpl.
  generalize 0%nat. induction (tbl_columns t) as [|cd cds IH]; intros n; [reflexivity|].
  simpl. now rewrite IH.
Qed.

Lemma has_column_name t cd : In cd (tbl_columns t) -> has_column t (cd_name cd) = true.
Proof.
  unfold has_column. induction (tbl_columns t) as [|cd0 cds IH]; intros Hin; [destruct Hin|].
  simpl. destruct (sqlite3StrICmp (cd_name cd0) (cd_name cd)) eqn:E; [reflexivity|].
  destruct Hin as [->|Hin]; [now rewrite sqlite3StrICmp_refl in E|].
  specialize (IH Hin). destruct (column_index cds (cd_name cd)); [reflexivity|discriminate].
Qed.

Section RecordAsFilter.

Context `{Internals}.

(** The keys of the record decoded from a row are the names of the columns
    of the table. *)
Lemma decoded_record_keys t r recordData :
  identifiers (map cd_name (tbl_columns t)) = true ->
  decodeRow (result_row t r) [] = Return recordData ->
  (forall k, In k (map fst recordData) <-> In k (map cd_name (tbl_columns t)))
  /\ identifiers (map fst recordData) = true
  /\ first_missing t (map fst recordData) = None.
Proof.
  intros Hids D. pose proof (decodeRow_keys _ _ _ D) as K.
  assert (forall k, In k (map fst recordData) <-> In k (map cd_name (tbl_columns t))) as K'.
  { intros k. rewrite K, result_row_names. simpl. intuition. }
  split; [exact K'|]. split.
  - unfold identifiers in *. rewrite forallb_forall in Hids |- *.
    intros k Hin. apply Hids. now apply K'.
  - apply first_missing_none_iff. intros k Hin. apply K' in Hin.
    apply in_map_iff in Hin as (cd & <- & Hcd). now apply has_column_name.
Qed.

Lemma removeRecord_keeps_row tb (criteria : RecordData) db t r c :
  is_identifier tb = true ->
  identifiers (map fst criteria) = true ->
  sqlite3FindTable db tb = Some t ->
  first_missing t (map fst criteria) = None ->
  In r (tbl_rows t) ->
  In c (map fst criteria) ->
  column_of t c r = SQLITE_NULL ->
  exists rows',
    removeRecord tb criteria db = (Return tt, set_rows db tb rows') /\ In r rows'.
Proof.
  intros Ht Hk F M Hr Hc Hnull.
  assert (criteria <> []) as Hne by (intros ->; destruct Hc).
  rewrite (removeRecord_rows tb criteria db t Ht Hne Hk F M).
  eexists. split; [reflexivity|]. apply filter_In. split; [assumption|].
  now rewrite (row_matches_null t criteria r c Hc Hnull).
Qed.


End RecordAsFilter.

(** ** Failures to compile *)

Section Failures.

Context `{Internals}.

Local Open Scope string_scope.


(** X12. The two pseudo-id operations need a column called id: on a table
    without one (and not itself called PseudoIDs, the name the statement
    gives its sub-query) they throw the failure to prepare, "no such column:
    id", for every ordinal, and leave the store as it was. *)
Theorem pseudoId_needs_id_column (tb : string) (db : sqlite3) (t : Table) (pseudoId : Z) :
  is_identifier tb = true ->
  sqlite3StrICmp tb "PseudoIDs" = false ->
  sqlite3FindTable db tb = Some t ->
  has_column t "id" = false ->
  getRecordByPseudoId tb pseudoId db
  = (Throw (runtime_error ("Failed to prepare statement: " ++ "no such column: id")), db)
  /\ removeRecordByPseudoId tb pseudoId db
     = (Throw (runtime_error ("Failed to prepare statement: " ++ "no such column: id")), db).
Proof.
  intros Ht _ F C. split.
  - unfold getRecordByPseudoId, sqlite3_prepare_v2.
    rewrite (parse_getRecordByPseudoId tb Ht). unfold resolve. rewrite F.
    unfold check_where. now rewrite C.
  - unfold removeRecordByPseudoId, sqlite3_prepare_v2.
    rewrite (parse_removeRecordByPseudoId tb Ht). unfold resolve. rewrite F.
    unfold check_where. now rewrite C.
Qed.

Lemma parse_addRecord_empty tb :
  is_identifier tb = true -> parse (addRecord_query (mkRecord [] tb)) = None.
Proof.
  intros Ht. unfold parse, tokenize, addRecord_query. cbn [data table map fold_left].
  simpl tokens_from. lex_identifier. simpl tokens_from.
  unfold one_statement. simpl first_word. simpl String.eqb. cbv iota.
  unfold insert, bind, keyword, lp, ret. simpl.
  rewrite (nm_identifier _ _ Ht). reflexivity.
Qed.

(** X13. addRecord with a record that has no field builds the text
    [INSERT INTO <table> () VALUES ()].  It is not a statement: addRecord
    throws the failure to prepare and adds no row, whether the table exists
    or not. *)
Theorem addRecord_without_fields (tb : string) (db : sqlite3) :
  is_identifier tb = true ->
  addRecord_query (mkRecord [] tb) = "INSERT INTO " ++ tb ++ " () VALUES ()"
  /\ exists errmsg,
       addRecord (mkRecord [] tb) db
       = (Throw (runtime_error ("Failed to prepare statement: " ++ errmsg)), db).
Proof.
  intros Ht. split; [reflexivity|]. exists "syntax error".
  unfold addRecord, sqlite3_prepare_v2. now rewrite (parse_addRecord_empty tb Ht).
Qed.

End Failures.

(** ** Reading integers and whole tables *)

Lemma sqlite3_column_int_range i : in_int_range (sqlite3_column_int i) = true.
Proof.
  unfold in_int_range, sqlite3_column_int.
  pose proof (Z.mod_pos_bound (i + 2 ^ 31) (2 ^ 32) ltac:(lia)).
  apply andb_true_iff. split; [apply Z.leb_le|apply Z.ltb_lt]; lia.
Qed.

Lemma sqlite3_column_int_id i : in_int_range i = true <-> sqlite3_column_int i = i.
Proof.
  split.
  - unfold in_int_range. intros Hr. apply andb_true_iff in Hr as [Hlo Hhi].
    apply Z.leb_le in Hlo. apply Z.ltb_lt in Hhi. unfold sqlite3_column_int.
    rewrite Z.mod_small by lia. lia.
  - intros <-. apply sqlite3_column_int_range.
Qed.

(** X14. An integer of the store is read back as itself exactly when it
    is in the range of int.  The decoding goes through sqlite3_column_int, so
    a record holds, under the name of an integer column, the stored value
    reduced modulo 2^32 into that range: the value itself when it fits, and
    another number when it does not. *)
Theorem integer_column_read_back (columns : list (string * sqlite_value))
        (recordData : RecordData) (c : string) (i : Z) :
  distinct (map fst columns) = true ->
  In (c, SQLITE_INTEGER i) columns ->
  decodeRow columns [] = Return recordData ->
  exists j,
    find recordData c = Some (FInt j)
    /\ in_int_range j = true
    /\ ((j - i) mod 2 ^ 32 = 0)%Z
    /\ (j = i <-> in_int_range i = true).
Proof.
  intros Hd Hin D.
  destruct (proj1 (decodeRow_returns columns [] recordData Hd D) c _ Hin) as [Hf _].
  exists (sqlite3_column_int i). split; [exact Hf|].
  split; [apply sqlite3_column_int_range|]. split.
  - unfold sqlite3_column_int.
    replace ((i + 2 ^ 31) mod 2 ^ 32 - 2 ^ 31 - i)%Z
      with ((i + 2 ^ 31) mod 2 ^ 32 - (i + 2 ^ 31))%Z by lia.
    rewrite Zminus_mod, Z.mod_mod by lia. rewrite Z.sub_diag. reflexivity.
  - symmetry. apply sqlite3_column_int_id.
Qed.

Section ReadingAll.

Context `{Internals}.

(** X15. getAllRecords gives the whole table or nothing.  When no row
    holds a blob it returns one record for each row, in storage order, each
    the row decoded; when some row holds a blob it throws the error of an
    unsupported column, and the rows that could be decoded are not
    returned. *)
Theorem getAllRecords_all_or_nothing (tb : string) (db : sqlite3) (t : Table) :
  is_identifier tb = true ->
  sqlite3FindTable db tb = Some t ->
  ((forall r c b, In r (tbl_rows t) -> ~ In (c, SQLITE_BLOB b) (result_row t r)) ->
   exists records,
     getAllRecords tb db = (Return records, db)
     /\ length records = length (tbl_rows t)
     /\ forall n r, nth_error (tbl_rows t) n = Some r ->
          exists rd, decodeRow (result_row t r) [] = Return rd
                     /\ nth_error records n = Some (mkRecord rd tb))
  /\ (forall r c b, In r (tbl_rows t) -> In (c, SQLITE_BLOB b) (result_row t r) ->
      exists c', getAllRecords tb db = (Throw (unsupported_column c'), db)).
Proof.
  intros Ht F. rewrite (getAllRecords_rows tb db t Ht F). split.
  - intros Hnb.
    destruct (getAllRecords_loop_total tb (map (result_row t) (tbl_rows t)) []) as (records & E).
    { intros x Hx. apply in_map_iff in Hx as (r & <- & Hr).
      apply decodeRow_total. intros c b. now apply Hnb. }
    exists records. rewrite E. split; [reflexivity|].
    destruct (getAllRecords_loop_nth _ _ _ _ E) as [L N]. rewrite length_map in L.
    split; [exact L|]. intros n r Hn.
    destruct (N n (result_row t r)) as (rd & D & R);
      [rewrite nth_error_map, Hn; reflexivity|]. eauto.
  - intros r c b Hr Hb.
    destruct (getAllRecords_loop_blob tb (map (result_row t) (tbl_rows t)) []
                (result_row t r) c b) as (c' & E);
      [apply in_map; assumption|assumption|].
    exists c'. now rewrite E.
Qed.

End ReadingAll.

(** ** Pseudo-ids after a removal *)

Lemma ascending_from_weaken lo a vs :
  ascending_from (Some a) vs = true ->
  match lo with Some l => (l < a)%Z | None => True end ->
  ascending_from lo vs = true.
Proof.
  destruct vs as [|v vs]; [reflexivity|]. destruct v; try discriminate. simpl.
  intros Hasc Hlo. apply andb_true_iff in Hasc as [Ha Hvs]. apply Z.ltb_lt in Ha.
  rewrite Hvs, andb_true_r. destruct lo; [apply Z.ltb_lt; lia|reflexivity].
Qed.

(** Rows that ascend still ascend when one of them is taken out. *)
Lemma ascending_without i rows : forall lo n,
  ascending_from lo (map (fun r => column_value r i) rows) = true ->
  ascending_from lo (map (fun r => column_value r i)
                         (firstn n rows ++ skipn (S n) rows)) = true.
Proof.
  induction rows as [|r rows IH]; intros lo n Hasc.
  - destruct n; exact Hasc.
  - pose proof Hasc as Hasc0. simpl map in Hasc.
    apply ascending_from_head in Hasc as (a & Ha & Htail).
    destruct n as [|n].
    + simpl. apply (ascending_from_weaken lo a); [assumption|].
      simpl in Hasc0. rewrite Ha in Hasc0. simpl in Hasc0.
      destruct lo; [|exact I]. apply andb_true_iff in Hasc0 as [Hl _]. now apply Z.ltb_lt.
    + simpl firstn. simpl skipn. simpl app. simpl map. rewrite Ha.
      simpl in Hasc0. rewrite Ha in Hasc0. simpl in Hasc0.
      apply andb_true_iff in Hasc0 as [Hl _]. simpl. rewrite Hl. simpl.
      apply IH. assumption.
Qed.

Lemma nth_error_without {A} (l : list A) : forall n j,
  nth_error (firstn n l ++ skipn (S n) l) j
  = if (j <? n)%nat then nth_error l j else nth_error l (S j).
Proof.
  induction l as [|x l IH]; intros n j.
  - rewrite firstn_nil, skipn_nil. simpl app.
    destruct (j <? n)%nat; destruct j; reflexivity.
  - destruct n as [|n]; [reflexivity|]. destruct j as [|j]; [reflexivity|].
    simpl firstn. simpl skipn. simpl app. simpl nth_error.
    rewrite IH. reflexivity.
Qed.

Section AfterRemoval.

Context `{Internals}.

(** On a table stored by its key the k-th record by pseudo-id is the row
    at position k. *)
Lemma getRecordByPseudoId_keyed tb db t i k :
  is_identifier tb = true ->
  sqlite3StrICmp tb "PseudoIDs" = false ->
  sqlite3FindTable db tb = Some t ->
  column_index (tbl_columns t) "id" = Some i ->
  ascending_from None (map (fun r => column_value r i) (tbl_rows t)) = true ->
  getRecordByPseudoId tb k db
  = (if (1 <=? k)%Z
     then match nth_error (tbl_rows t) (Z.to_nat (k - 1)) with
          | Some r => decode tb (result_row t r)
          | None => Throw not_found
          end
     else Throw not_found, db).
Proof.
  intros Ht Hcte F Hi K.
  rewrite (getRecordByPseudoId_rows tb db t i k Ht Hcte F Hi).
  destruct (Z.leb_spec 1 k) as [H1|H1].
  - destruct (nth_error (tbl_rows t) (Z.to_nat (k - 1))) as [r|] eqn:Hn.
    + assert (1 <= k <= Z.of_nat (length (tbl_rows t)))%Z as Hk.
      { split; [assumption|].
        assert (Z.to_nat (k - 1) < length (tbl_rows t))%nat
            by (apply nth_error_Some; congruence).
        lia. }
      destruct (rank_value_key db tb t i k F Hi (ascending_unique _ _ K) Hk)
        as (r' & a & _ & Hr & _ & -> & _ & E).
      rewrite (order_by_ascending _ _ _ K) in Hr. rewrite Hn in Hr. inversion Hr. subst r'.
      rewrite E. reflexivity.
    + apply nth_error_None in Hn.
      rewrite (rank_value_out_of_range db tb t i k F Hi) by lia.
      rewrite filter_none by (intros r; apply sql_equal_null_r). reflexivity.
  - rewrite (rank_value_out_of_range db tb t i k F Hi) by lia.
    rewrite filter_none by (intros r; apply sql_equal_null_r). reflexivity.
Qed.

Lemma removeRecordByPseudoId_keyed tb db t i k :
  is_identifier tb = true ->
  sqlite3StrICmp tb "PseudoIDs" = false ->
  sqlite3FindTable db tb = Some t ->
  column_index (tbl_columns t) "id" = Some i ->
  ascending_from None (map (fun r => column_value r i) (tbl_rows t)) = true ->
  (1 <= k <= Z.of_nat (length (tbl_rows t)))%Z ->
  removeRecordByPseudoId tb k db
  = (Return tt,
     set_rows db tb (firstn (Z.to_nat (k - 1)) (tbl_rows t)
                       ++ skipn (S (Z.to_nat (k - 1))) (tbl_rows t))).
Proof.
  intros Ht Hcte F Hi K Hk.
  rewrite (removeRecordByPseudoId_rows tb db t i k Ht Hcte F Hi).
  destruct (rank_value_key db tb t i k F Hi (ascending_unique _ _ K) Hk)
    as (r & a & _ & Hr & Ha & -> & _ & _).
  rewrite (order_by_ascending _ _ _ K) in Hr.
  destruct (row_at_position i _ None _ r K Hr) as (a' & Ha' & _ & E2 & _).
  rewrite Ha in Ha'. inversion Ha'. subst a'. now rewrite E2.
Qed.

(** X16. On a table stored by its key, removing the record of pseudo-id k
    moves the records after it up by one and leaves those before it where
    they are: afterwards getRecordByPseudoId gives for an ordinal below k what
    it gave before, and for an ordinal j from k on what it gave for j+1 (the
    not-found error when there is no such record). *)
Theorem pseudoIds_after_removal (tb : string) (db : sqlite3) (t : Table) (k : Z) :
  is_identifier tb = true ->
  sqlite3StrICmp tb "PseudoIDs" = false ->
  sqlite3FindTable db tb = Some t ->
  keyed_by_id t = true ->
  (1 <= k <= Z.of_nat (length (tbl_rows t)))%Z ->
  let db' := snd (removeRecordByPseudoId tb k db) in
  fst (removeRecordByPseudoId tb k db) = Return tt
  /\ (forall j, (j < k)%Z ->
        fst (getRecordByPseudoId tb j db') = fst (getRecordByPseudoId tb j db))
  /\ (forall j, (k <= j)%Z ->
        fst (getRecordByPseudoId tb j db') = fst (getRecordByPseudoId tb (j + 1) db)).
Proof.
  intros Ht Hcte F K Hk. unfold keyed_by_id in K.
  destruct (column_index (tbl_columns t) "id") as [i|] eqn:Hi; [|discriminate].
  rewrite (removeRecordByPseudoId_keyed tb db t i k Ht Hcte F Hi K Hk). simpl.
  split; [reflexivity|].
  set (rows' := (firstn (Z.to_nat (k - 1)) (tbl_rows t)
                   ++ skipn (S (Z.to_nat (k - 1))) (tbl_rows t))%list).
  pose proof (sqlite3FindTable_set_rows db tb t rows' F) as F'.
  assert (forall j,
             fst (getRecordByPseudoId tb j (set_rows db tb rows'))
             = if (1 <=? j)%Z
               then match nth_error rows' (Z.to_nat (j - 1)) with
                    | Some r => decode tb (result_row t r)
                    | None => Throw not_found
                    end
               else Throw not_found) as After.
  { intros j.
    rewrite (getRecordByPseudoId_keyed tb _ _ i j Ht Hcte F' Hi
               (ascending_without i _ None _ K)).
    reflexivity. }
  split; intros j Hj; rewrite After;
    rewrite (getRecordByPseudoId_keyed tb db t i _ Ht Hcte F Hi K); simpl fst.
  - destruct (Z.leb_spec 1 j) as [H1|H1]; [|reflexivity].
    unfold rows'. rewrite nth_error_without.
    replace (Z.to_nat (j - 1) <? Z.to_nat (k - 1))%nat with true
      by (symmetry; apply Nat.ltb_lt; lia).
    reflexivity.
  - replace (1 <=? j)%Z with true by (symmetry; apply Z.leb_le; lia).
    replace (1 <=? j + 1)%Z with true by (symmetry; apply Z.leb_le; lia).
    unfold rows'. rewrite nth_error_without.
    replace (Z.to_nat (j - 1) <? Z.to_nat (k - 1))%nat with false
      by (symmetry; apply Nat.ltb_ge; lia).
    now replace (Z.to_nat (j + 1 - 1)) with (S (Z.to_nat (j - 1))) by lia.
Qed.

(** X17. Without a key the pseudo-id operations go by the value of id and
    not by the row.  On a table with a column id that holds N rows, for k in
    1..N, let v be the id of the k-th row when the rows are ordered by id:
    removeRecordByPseudoId removes every row whose id equals v (none when v
    is NULL, several when several rows share it), and getRecordByPseudoId
    gives the first row in storage order whose id equals v. *)
Theorem pseudoId_goes_by_value (tb : string) (db : sqlite3) (t : Table) (i : nat) (k : Z) :
  is_identifier tb = true ->
  sqlite3StrICmp tb "PseudoIDs" = false ->
  sqlite3FindTable db tb = Some t ->
  column_index (tbl_columns t) "id" = Some i ->
  (1 <= k <= Z.of_nat (length (tbl_rows t)))%Z ->
  exists r0,
    nth_error (order_by i (tbl_rows t)) (Z.to_nat (k - 1)) = Some r0
    /\ In r0 (tbl_rows t)
    /\ removeRecordByPseudoId tb k db
       = (Return tt,
          set_rows db tb
            (filter (fun r => negb (sql_equal (column_value r i) (column_value r0 i)))
                    (tbl_rows t)))
    /\ getRecordByPseudoId tb k db
       = (match filter (fun r => sql_equal (column_value r i) (column_value r0 i))
                       (tbl_rows t) with
          | r :: _ => decode tb (result_row t r)
          | [] => Throw not_found
          end, db).
Proof.
  intros Ht Hcte F Hi Hk.
  destruct (nth_error (order_by i (tbl_rows t)) (Z.to_nat (k - 1))) as [r0|] eqn:Hn;
    [|apply nth_error_None in Hn; rewrite length_order_by in Hn; lia].
  exists r0. split; [reflexivity|].
  split; [apply (In_order_by i); eapply nth_error_In; eassumption|].
  rewrite (removeRecordByPseudoId_rows tb db t i k Ht Hcte F Hi).
  rewrite (getRecordByPseudoId_rows tb db t i k Ht Hcte F Hi).
  rewrite (rank_value_id db tb t i k F Hi).
  replace (1 <=? k)%Z with true by (symmetry; apply Z.leb_le; lia).
  rewrite Hn. split; reflexivity.
Qed.

End AfterRemoval.

(** * Properties of the argument parser *)

Lemma match_arg_find same next missing args :
  tike.match_arg same next missing args
  = match List.find same args with
    | None => Return None
    | Some arg =>
        if String.eqb (tike.type arg) "flag"
        then Return (Some (false, set_first same "true" args))
        else match next with
             | Some v => Return (Some (true, set_first same v args))
             | None => Throw missing
             end
    end.
Proof.
  induction args as [|arg args IH]; [reflexivity|]. simpl.
  destruct (same arg); [reflexivity|]. rewrite IH.
  destruct (List.find same args) as [arg'|]; [|reflexivity].
  destruct (String.eqb (tike.type arg') "flag"); [reflexivity|].
  destruct next; reflexivity.
Qed.

(** One round of the loop over the command line. *)
Lemma parse_loop_cons currentArg rest args :
  tike.parse_loop (currentArg :: rest) args
  = if Ascii.eqb (tike.char_at currentArg 0) "-" then
      if String.eqb currentArg "--" then
        (Throw (invalid_argument "Unexpected `--` without argument."), args)
      else
        match List.find (same_as currentArg) args with
        | None => (Throw (invalid_argument ("Unknown argument: " ++ currentArg)), args)
        | Some arg =>
            if String.eqb (tike.type arg) "flag"
            then tike.parse_loop rest (set_first (same_as currentArg) "true" args)
            else match rest with
                 | v :: rest' => tike.parse_loop rest' (set_first (same_as currentArg) v args)
                 | [] => (Throw (invalid_argument
                                   ("Missing value for argument: " ++ spelled currentArg)),
                          args)
                 end
        end
    else (Throw (invalid_argument ("Unexpected positional argument: " ++ currentArg)), args).
Proof.
  cbn [tike.parse_loop]. unfold same_as, spelled.
  destruct (Ascii.eqb (tike.char_at currentArg 0) "-"); [|reflexivity].
  destruct (String.eqb currentArg "--"); [reflexivity|].
  destruct (Ascii.eqb (tike.char_at currentArg 1) "-"); rewrite match_arg_find;
    (destruct (List.find _ args) as [arg|]; [|reflexivity]);
    (destruct (String.eqb (tike.type arg) "flag"); [reflexivity|]);
    destruct rest; reflexivity.
Qed.

Lemma set_first_declarations same v args :
  map declaration (set_first same v args) = map declaration args.
Proof.
  induction args as [|arg args IH]; [reflexivity|]. simpl.
  destruct (same arg); simpl; [reflexivity|now rewrite IH].
Qed.

Lemma set_first_keeps_values same v args n :
  existsb (fun arg => String.eqb (tike.name arg) n && tike.has_value arg) args = true ->
  existsb (fun arg => String.eqb (tike.name arg) n && tike.has_value arg)
          (set_first same v args) = true.
Proof.
  induction args as [|arg args IH]; [discriminate|]. simpl.
  destruct (same arg); simpl.
  - intros E. apply orb_true_iff in E as [E|E]; [|now rewrite E, orb_true_r].
    apply andb_true_iff in E as [E _]. now rewrite E.
  - intros E. apply orb_true_iff in E as [E|E]; [now rewrite E|].
    now rewrite (IH E), orb_true_r.
Qed.

(** An invariant of the loop: a relation between the arguments before and
    after that holds when nothing is done, passes through a value being set
    and composes, holds across the whole loop. *)
Lemma parse_loop_invariant (P : list tike.Arg -> list tike.Arg -> Prop) :
  (forall args, P args args) ->
  (forall same v args args', P (set_first same v args) args' -> P args args') ->
  forall argv args, P args (snd (tike.parse_loop argv args)).
Proof.
  intros Hrefl Hstep argv.
  assert (forall n argv, (length argv <= n)%nat ->
                         forall args, P args (snd (tike.parse_loop argv args))) as Hn.
  { induction n as [|n IH]; intros argv' Hlen args.
    - destruct argv'; [apply Hrefl|simpl in Hlen; lia].
    - destruct argv' as [|currentArg rest]; [apply Hrefl|].
      simpl in Hlen. rewrite parse_loop_cons.
      destruct (Ascii.eqb _ _); [|apply Hrefl].
      destruct (String.eqb currentArg "--"); [apply Hrefl|].
      destruct (List.find _ args) as [arg|]; [|apply Hrefl].
      destruct (String.eqb (tike.type arg) "flag").
      + eapply Hstep. apply IH. lia.
      + destruct rest as [|v rest']; [apply Hrefl|].
        eapply Hstep. apply IH. simpl in Hlen. lia. }
  intros args. apply (Hn (length argv)). lia.
Qed.

(** X18. parse changes nothing of a parser but the values of its
    arguments, and it sets values without ever taking one away: afterwards,
    whether it returned or threw, the parser has the same program name and
    description and the same arguments in the same order, each with the name,
    short name, type, description and required mark it had, and every
    argument name that had a value has one. *)
Theorem parse_keeps_declarations (argv : list string) (p : tike.ArgParser) :
  let p' := snd (tike.parse argv p) in
  tike.program p' = tike.program p
  /\ tike.description_ p' = tike.description_ p
  /\ map declaration (tike.args p') = map declaration (tike.args p)
  /\ forall n, tike.argHasValue n p = true -> tike.argHasValue n p' = true.
Proof.
  unfold tike.parse.
  pose proof (parse_loop_invariant
                (fun a b => map declaration b = map declaration a)
                (fun _ => eq_refl)
                (fun same v a b E => eq_trans E (set_first_declarations same v a))
                (tl argv) (tike.args p)) as D.
  pose proof (fun n =>
                parse_loop_invariant
                  (fun a b =>
                     existsb (fun arg => String.eqb (tike.name arg) n && tike.has_value arg) a
                     = true ->
                     existsb (fun arg => String.eqb (tike.name arg) n && tike.has_value arg) b
                     = true)
                  (fun _ E => E)
                  (fun same v a b E X => E (set_first_keeps_values same v a n X))
                  (tl argv) (tike.args p)) as V.
  destruct (tike.parse_loop (tl argv) (tike.args p)) as [r args']. simpl in D, V.
  destruct r; simpl; repeat split; auto.
Qed.

Lemma check_required_returns args :
  tike.check_required args = Return tt
  <-> forall arg, In arg args -> tike.required arg = true -> tike.has_value arg = true.
Proof.
  induction args as [|arg args IH]; simpl.
  - split; [intros _ arg []|reflexivity].
  - destruct (tike.required arg) eqn:R; simpl.
    + destruct (tike.has_value arg) eqn:V; simpl.
      * rewrite IH. split.
        -- intros Hall a [<-|Ha]; auto.
        -- intros Hall a Ha. apply Hall. now right.
      * split; [discriminate|]. intros Hall.
        specialize (Hall arg (or_introl eq_refl) R). congruence.
    + rewrite IH. split.
      * intros Hall a [<-|Ha]; [congruence|auto].
      * intros Hall a Ha. apply Hall. now right.
Qed.

(** X19. parse returns normally exactly when the loop over the command
    line went through and every required argument has a value afterwards; so
    after a parse that returned, no required argument is without a value.
    When the loop went through and some required argument has none, parse
    throws, naming one that has none. *)
Theorem parse_checks_required (argv : list string) (p : tike.ArgParser) :
  let p' := snd (tike.parse argv p) in
  (fst (tike.parse argv p) = Return tt
   <-> fst (tike.parse_loop (tl argv) (tike.args p)) = Return tt
       /\ forall arg, In arg (tike.args p') -> tike.required arg = true ->
                      tike.has_value arg = true)
  /\ (fst (tike.parse_loop (tl argv) (tike.args p)) = Return tt ->
      fst (tike.parse argv p) <> Return tt ->
      exists arg,
        In arg (tike.args p') /\ tike.required arg = true /\ tike.value arg = None
        /\ fst (tike.parse argv p)
           = Throw (invalid_argument ("Missing required argument: --" ++ tike.name arg))).
Proof.
  unfold tike.parse.
  destruct (tike.parse_loop (tl argv) (tike.args p)) as [r args']. simpl.
  destruct r as [[]|e]; simpl.
  - split.
    + rewrite check_required_returns. tauto.
    + intros _. clear. induction args' as [|arg args IH]; simpl; [congruence|].
      destruct (tike.required arg) eqn:R; simpl.
      * unfold tike.has_value. destruct (tike.value arg) eqn:V; simpl.
        -- intros Hne. destruct (IH Hne) as (a & Ha & Hr & Hv & E).
           exists a. auto.
        -- intros _. exists arg. auto.
      * intros Hne. destruct (IH Hne) as (a & Ha & Hr & Hv & E). exists a. auto.
  - split; [split; [discriminate|intros [X _]; discriminate]|discriminate].
Qed.

(** The words after a part of the command line that the loop went through
    are read from where that part left the arguments. *)
Lemma parse_loop_app argv1 : forall args args1 argv2,
  tike.parse_loop argv1 args = (Return tt, args1) ->
  tike.parse_loop (argv1 ++ argv2) args = tike.parse_loop argv2 args1.
Proof.
  assert (forall n argv1, (length argv1 <= n)%nat ->
            forall args args1 argv2,
              tike.parse_loop argv1 args = (Return tt, args1) ->
              tike.parse_loop (argv1 ++ argv2) args = tike.parse_loop argv2 args1) as Hn.
  { clear argv1. induction n as [|n IH]; intros argv1 Hlen args args1 argv2 E.
    - destruct argv1; [|simpl in Hlen; lia]. simpl in E. now inversion E.
    - destruct argv1 as [|currentArg rest]; [simpl in E; now inversion E|].
      simpl in Hlen. simpl app. rewrite parse_loop_cons in E |- *.
      destruct (Ascii.eqb _ _); [|discriminate].
      destruct (String.eqb currentArg "--"); [discriminate|].
      destruct (List.find _ args) as [arg|]; [|discriminate].
      destruct (String.eqb (tike.type arg) "flag").
      + apply IH; [lia|assumption].
      + destruct rest as [|v rest']; [discriminate|]. simpl app.
        apply IH; [simpl in Hlen; lia|assumption]. }
  intros args args1 argv2. apply (Hn (length argv1)). lia.
Qed.

(** X20. A command line is parsed word after word from the left: when the
    loop went through a first part of it without throwing, parsing the whole
    is parsing what follows that part with the parser as the first part left
    it. *)
Theorem parse_composes (prog prog' : string) (argv1 argv2 : list string) (p : tike.ArgParser) :
  fst (tike.parse_loop argv1 (tike.args p)) = Return tt ->
  tike.parse (prog :: argv1 ++ argv2) p
  = tike.parse (prog' :: argv2) (snd (tike.parse (prog :: argv1) p)).
Proof.
  intros E. unfold tike.parse. simpl tl.
  destruct (tike.parse_loop argv1 (tike.args p)) as [r args1] eqn:L. simpl in E. subst r.
  rewrite (parse_loop_app argv1 _ _ argv2 L).
  destruct (tike.check_required args1); simpl;
    destruct (tike.parse_loop argv2 args1) as [r args2]; reflexivity.
Qed.

(** ** Words and the arguments they set *)

Lemma same_as_long n :
  n <> EmptyString ->
  Ascii.eqb (tike.char_at ("--" ++ n) 0) "-" = true
  /\ String.eqb ("--" ++ n) "--" = false
  /\ same_as ("--" ++ n) = tike.named n
  /\ spelled ("--" ++ n) = ("--" ++ n)%string.
Proof.
  intros Hn. split; [reflexivity|]. split; [|split; reflexivity].
  destruct n; [contradiction|reflexivity].
Qed.

Lemma same_as_short s :
  Ascii.eqb (tike.char_at s 0) "-" = false ->
  Ascii.eqb (tike.char_at ("-" ++ s) 0) "-" = true
  /\ String.eqb ("-" ++ s) "--" = false
  /\ same_as ("-" ++ s) = tike.short_named s
  /\ spelled ("-" ++ s) = ("-" ++ s)%string.
Proof.
  intros Hs. split; [reflexivity|]. unfold same_as, spelled.
  change (tike.char_at ("-" ++ s) 1) with (tike.char_at s 0). rewrite Hs.
  split; [|split; reflexivity].
  destruct s as [|c s]; [reflexivity|]. unfold tike.char_at in Hs. simpl in Hs.
  simpl. rewrite Hs. reflexivity.
Qed.

Lemma find_set_first (same : tike.Arg -> bool) v args arg :
  (forall a u, same (tike.set_value a u) = same a) ->
  List.find same args = Some arg ->
  List.find same (set_first same v args) = Some (tike.set_value arg v).
Proof.
  intros Hsame. induction args as [|a args IH]; [discriminate|]. simpl.
  destruct (same a) eqn:E; simpl.
  - intros X. inversion X. subst. now rewrite Hsame, E.
  - rewrite E. exact IH.
Qed.

Lemma find_set_first_other (same other : tike.Arg -> bool) v args :
  (forall a u, other (tike.set_value a u) = other a) ->
  (forall a, same a = true -> other a = false) ->
  List.find other (set_first same v args) = List.find other args.
Proof.
  intros Hother Hdisj. induction args as [|a args IH]; [reflexivity|]. simpl.
  destruct (same a) eqn:E; simpl.
  - now rewrite Hother, (Hdisj a E).
  - now rewrite IH.
Qed.

Lemma argHasValue_set_first n v args arg :
  List.find (tike.named n) args = Some arg ->
  existsb (fun a => String.eqb (tike.name a) n && tike.has_value a)
          (set_first (tike.named n) v args) = true.
Proof.
  induction args as [|a args IH]; [discriminate|]. simpl. unfold tike.named at 1 3.
  destruct (String.eqb (tike.name a) n) eqn:E; simpl.
  - intros _. now rewrite E.
  - intros F. now rewrite E, (IH F).
Qed.

(** X21. An argument that is not a flag takes the word after its name as
    its value, whatever that word looks like (a word that begins with a dash
    is taken too, and is not read as an argument); a flag takes no word and
    gets the value "true".  After parse of [--name] and, for an argument that
    is not a flag, one more word, getArgByName gives the first argument of
    that name with this value set, argHasValue is true for the name, and the
    arguments of other names are as they were. *)
Theorem long_name_sets_value (prog n v : string) (p : tike.ArgParser) (arg : tike.Arg) :
  n <> EmptyString ->
  tike.getArgByName n p = Return arg ->
  let flag := String.eqb (tike.type arg) "flag" in
  let argv := (prog :: ("--" ++ n)%string :: (if flag then [] else [v]))%list in
  let p' := snd (tike.parse argv p) in
  tike.getArgByName n p' = Return (tike.set_value arg (if flag then "true" else v))
  /\ tike.argHasValue n p' = true
  /\ forall m, m <> n -> tike.getArgByName m p' = tike.getArgByName m p.
Proof.
  intros Hn G flag argv p'. subst p' argv.
  unfold tike.getArgByName in G.
  destruct (List.find (fun a => String.eqb (tike.name a) n) (tike.args p)) as [arg0|] eqn:F;
    [|discriminate]. inversion G. subst arg0.
  destruct (same_as_long n Hn) as (C0 & C1 & C2 & _).
  assert (snd (tike.parse (prog :: ("--" ++ n)%string :: (if flag then [] else [v]))%list p)
          = tike.mkArgParser
              (set_first (tike.named n) (if flag then "true" else v) (tike.args p))
              (tike.program p) (tike.description_ p)) as ->.
  { unfold tike.parse. cbn [tl]. rewrite parse_loop_cons, C0, C1, C2.
    unfold tike.named at 1. rewrite F. fold flag.
    destruct flag; simpl; reflexivity. }
  unfold tike.getArgByName, tike.argHasValue. simpl tike.args.
  split; [|split].
  - change (fun a => String.eqb (tike.name a) n) with (tike.named n).
    rewrite (find_set_first (tike.named n) _ _ arg); [reflexivity|reflexivity|exact F].
  - apply (argHasValue_set_first n _ _ arg F).
  - intros m Hm.
    change (fun a => String.eqb (tike.name a) m) with (tike.named m).
    rewrite (find_set_first_other (tike.named n) (tike.named m)); [reflexivity|reflexivity|].
    intros a Ha. unfold tike.named in *. apply String.eqb_eq in Ha.
    apply String.eqb_neq. congruence.
Qed.

(** X22. A short name works as the long one does: [-s] sets the first
    argument that has the short name [s], with the next word when it is not
    a flag and with "true" when it is, and no other argument changes.  (A
    word with one dash is compared whole with the short names: [-ab] is the
    short name [ab], not [-a -b].) *)
Theorem short_name_sets_value (prog s v : string) (p : tike.ArgParser) (arg : tike.Arg) :
  Ascii.eqb (tike.char_at s 0) "-" = false ->
  List.find (tike.short_named s) (tike.args p) = Some arg ->
  let flag := String.eqb (tike.type arg) "flag" in
  let argv := (prog :: ("-" ++ s)%string :: (if flag then [] else [v]))%list in
  let p' := snd (tike.parse argv p) in
  tike.args p' = set_first (tike.short_named s) (if flag then "true" else v) (tike.args p)
  /\ List.find (tike.short_named s) (tike.args p')
     = Some (tike.set_value arg (if flag then "true" else v))
  /\ forall a, In a (tike.args p) -> tike.short_named s a = false -> In a (tike.args p').
Proof.
  intros Hs F flag argv p'. subst p' argv.
  destruct (same_as_short s Hs) as (C0 & C1 & C2 & _).
  assert (snd (tike.parse (prog :: ("-" ++ s)%string :: (if flag then [] else [v]))%list p)
          = tike.mkArgParser
              (set_first (tike.short_named s) (if flag then "true" else v) (tike.args p))
              (tike.program p) (tike.description_ p)) as ->.
  { unfold tike.parse. cbn [tl]. rewrite parse_loop_cons, C0, C1, C2.
    rewrite F. fold flag.
    destruct flag; simpl; reflexivity. }
  simpl tike.args. split; [reflexivity|]. split.
  - apply find_set_first; [reflexivity|exact F].
  - intros a Ha Hna. clear F. induction (tike.args p) as [|a0 args IH]; [destruct Ha|].
    simpl. destruct (tike.short_named s a0) eqn:E.
    + destruct Ha as [->|Ha]; [congruence|now right].
    + destruct Ha as [->|Ha]; [now left|right; now apply IH].
Qed.

(** ** What parse refuses *)

Lemma find_declarations (same : tike.Arg -> bool) :
  (forall x y, declaration x = declaration y -> same x = same y) ->
  forall a b, map declaration a = map declaration b ->
              option_map declaration (List.find same a)
              = option_map declaration (List.find same b).
Proof.
  intros Hsame. induction a as [|x a IH]; intros [|y b] E; try discriminate; [reflexivity|].
  simpl in E.
  assert (declaration x = declaration y) as Hxy by congruence.
  assert (map declaration a = map declaration b) as Hab by congruence. simpl.
  rewrite (Hsame x y Hxy). destruct (same y); [simpl; now f_equal|]. now apply IH.
Qed.

Lemma named_declaration n x y : declaration x = declaration y -> tike.named n x = tike.named n y.
Proof. unfold declaration, tike.named. intros E. inversion E. congruence. Qed.

Lemma find_named_none n args :
  List.find (tike.named n) args = None <-> forall arg, In arg args -> tike.name arg <> n.
Proof.
  induction args as [|a args IH]; simpl.
  - split; [intros _ arg []|reflexivity].
  - unfold tike.named at 1. destruct (String.eqb_spec (tike.name a) n) as [E|E].
    + split; [discriminate|]. intros Hall. exfalso. apply (Hall a); auto.
    + rewrite IH. split.
      * intros Hall arg [<-|Ha]; auto.
      * intros Hall arg Ha. apply Hall. now right.
Qed.

(** X23. What parse refuses, wherever in the command line it stands.
    After a part that the loop went through, parse throws
    std::invalid_argument, and keeps the values that part has set,
    - at a word that does not begin with a dash: positional arguments are
      never accepted;
    - at the word [--];
    - at [--name] when no argument has that name;
    - at [--name] as the last word when the argument is not a flag: its
      value is missing. *)
Theorem parse_refuses (prog : string) (argv1 : list string) (p : tike.ArgParser) :
  fst (tike.parse_loop argv1 (tike.args p)) = Return tt ->
  let p1 := snd (tike.parse (prog :: argv1) p) in
  (forall w rest,
      Ascii.eqb (tike.char_at w 0) "-" = false ->
      tike.parse (prog :: argv1 ++ w :: rest) p
      = (Throw (invalid_argument ("Unexpected positional argument: " ++ w)), p1))
  /\ (forall rest,
         tike.parse (prog :: argv1 ++ "--"%string :: rest) p
         = (Throw (invalid_argument "Unexpected `--` without argument."), p1))
  /\ (forall n rest,
         n <> EmptyString ->
         (forall arg, In arg (tike.args p) -> tike.name arg <> n) ->
         tike.parse (prog :: argv1 ++ ("--" ++ n)%string :: rest) p
         = (Throw (invalid_argument ("Unknown argument: " ++ ("--" ++ n))), p1))
  /\ (forall n arg,
         n <> EmptyString ->
         tike.getArgByName n p = Return arg ->
         String.eqb (tike.type arg) "flag" = false ->
         tike.parse (prog :: argv1 ++ [("--" ++ n)%string]) p
         = (Throw (invalid_argument ("Missing value for argument: " ++ ("--" ++ n))), p1)).
Proof.
  intros E p1. subst p1.
  pose proof (parse_loop_invariant
                (fun a b => map declaration a = map declaration b)
                (fun _ => eq_refl)
                (fun same v a b X => eq_trans (eq_sym (set_first_declarations same v a)) X)
                argv1 (tike.args p)) as D.
  unfold tike.parse. cbn [tl].
  destruct (tike.parse_loop argv1 (tike.args p)) as [r args1] eqn:L.
  simpl in E, D. subst r.
  assert (forall r' : result unit,
             snd (match Return tt with
                  | Return _ => (r', tike.mkArgParser args1 (tike.program p) (tike.description_ p))
                  | Throw e => (Throw e, tike.mkArgParser args1 (tike.program p) (tike.description_ p))
                  end)
             = tike.mkArgParser args1 (tike.program p) (tike.description_ p)) as S1
      by reflexivity.
  rewrite S1. clear S1.
  split; [|split; [|split]].
  - intros w rest Hw. rewrite (parse_loop_app argv1 _ _ _ L), parse_loop_cons, Hw. reflexivity.
  - intros rest. rewrite (parse_loop_app argv1 _ _ _ L), parse_loop_cons. reflexivity.
  - intros n rest Hn Hnone.
    destruct (same_as_long n Hn) as (C0 & C1 & C2 & _).
    rewrite (parse_loop_app argv1 _ _ _ L), parse_loop_cons, C0, C1, C2.
    pose proof (find_declarations (tike.named n) (named_declaration n) _ _ D) as FD.
    rewrite (proj2 (find_named_none n (tike.args p)) Hnone) in FD.
    destruct (List.find (tike.named n) args1); [discriminate|]. reflexivity.
  - intros n arg Hn G Hflag.
    destruct (same_as_long n Hn) as (C0 & C1 & C2 & C3).
    rewrite (parse_loop_app argv1 _ _ _ L), parse_loop_cons, C0, C1, C2, C3.
    pose proof (find_declarations (tike.named n) (named_declaration n) _ _ D) as FD.
    unfold tike.getArgByName in G.
    change (fun a => String.eqb (tike.name a) n) with (tike.named n) in G.
    destruct (List.find (tike.named n) (tike.args p)) as [arg0|]; [|discriminate].
    inversion G. subst arg0.
    destruct (List.find (tike.named n) args1) as [arg1|]; [|discriminate].
    simpl in FD.
    assert (tike.type arg = tike.type arg1) as Ht by (unfold declaration in FD; congruence).
    rewrite <- Ht, Hflag. reflexivity.
Qed.

(** ** Looking arguments up *)

Lemma find_named_name n args arg :
  List.find (tike.named n) args = Some arg -> tike.name arg = n /\ In arg args.
Proof.
  intros F. apply find_some in F as [Hin Hn]. split; [|assumption].
  now apply String.eqb_eq in Hn.
Qed.

(** X24. How argHasValue and getArgByName agree.  getArgByName throws
    exactly when no argument has the name.  When argHasValue is true for a
    name, getArgByName returns an argument of that name; it is the first of
    that name, so it is one with a value when the names of the arguments are
    distinct (with two arguments of one name, the value may belong to the
    second while getArgByName returns the first). *)
Theorem argHasValue_and_getArgByName (n : string) (p : tike.ArgParser) :
  ((forall arg, In arg (tike.args p) -> tike.name arg <> n)
   <-> tike.getArgByName n p
       = Throw (invalid_argument ("Argument not found with name: --" ++ n)))
  /\ (tike.argHasValue n p = true ->
      exists arg, tike.getArgByName n p = Return arg /\ tike.name arg = n
                  /\ In arg (tike.args p))
  /\ (NoDup (map tike.name (tike.args p)) ->
      tike.argHasValue n p = true ->
      exists arg v, tike.getArgByName n p = Return arg /\ tike.value arg = Some v).
Proof.
  unfold tike.getArgByName, tike.argHasValue.
  change (fun a => String.eqb (tike.name a) n) with (tike.named n).
  split; [|split].
  - rewrite <- find_named_none.
    destruct (List.find (tike.named n) (tike.args p)); split; congruence.
  - intros E. apply existsb_exists in E as (a & Ha & E).
    apply andb_true_iff in E as [En _]. apply String.eqb_eq in En.
    destruct (List.find (tike.named n) (tike.args p)) as [arg|] eqn:F.
    + exists arg. destruct (find_named_name _ _ _ F). auto.
    + exfalso. apply (proj1 (find_named_none n _) F a Ha En).
  - intros Hnd E. induction (tike.args p) as [|a args IH]; [discriminate|].
    simpl in Hnd, E |- *. inversion Hnd as [|? ? Hnotin Hnd']. subst.
    unfold tike.named at 1. destruct (String.eqb_spec (tike.name a) n) as [En|En].
    + simpl in E. destruct (tike.has_value a) eqn:V.
      * unfold tike.has_value in V. destruct (tike.value a) as [v|] eqn:Va; [|discriminate].
        exists a, v. auto.
      * exfalso. simpl in E. apply existsb_exists in E as (b & Hb & Eb).
        apply andb_true_iff in Eb as [Ebn _]. apply String.eqb_eq in Ebn.
        apply Hnotin. rewrite En, <- Ebn. now apply in_map.
    + simpl in E. now apply IH.
Qed.

(** ** The help page *)













(** ** The help argument *)

Lemma args_fold_addArg added : forall p,
  tike.args (fold_left (fun p arg => tike.addArg arg p) added p) = (tike.args p ++ added)%list.
Proof.
  induction added as [|a added IH]; intros p; simpl.
  - now rewrite app_nil_r.
  - rewrite IH. simpl. now rewrite <- app_assoc.
Qed.

(** X30. A parser made without [customHelp] always answers to [--help]
    and to [-h]: the help argument is the first of its arguments, so whatever
    arguments are added afterwards (one named help or with the short name h
    among them or not), parse of either word sets the help flag and leaves
    the added arguments as they were, and argHasValue is then true for
    help. *)
Theorem help_is_always_there (program description prog w : string) (added : list tike.Arg) :
  w = "--help"%string \/ w = "-h"%string ->
  let p := fold_left (fun p arg => tike.addArg arg p) added
                     (tike.newArgParser program description false) in
  let p' := snd (tike.parse [prog; w] p) in
  tike.args p'
  = tike.set_value (tike.newArg "help" (Some "h") "flag" "Show this help page" false) "true"
      :: added
  /\ tike.argHasValue "help" p' = true.
Proof.
  intros Hw p p'. subst p' p.
  assert (tike.args (snd (tike.parse [prog; w]
                            (fold_left (fun p arg => tike.addArg arg p) added
                                       (tike.newArgParser program description false))))
          = tike.set_value (tike.newArg "help" (Some "h") "flag" "Show this help page" false)
                           "true" :: added) as E.
  { unfold tike.parse. cbn [tl]. rewrite args_fold_addArg.
    rewrite parse_loop_cons. destruct Hw; subst w; reflexivity. }
  split; [exact E|]. unfold tike.argHasValue. rewrite E. reflexivity.
Qed.

(** * Creating a table *)

(** ** The text of the column definitions *)





(** ** Its tokens *)











Local Arguments column_tokens : simpl never.






(** ** The column definitions SQLite reads from them *)

Local Arguments word : simpl never.
Local Arguments default_value : simpl never.






Lemma length_column_tokens c : (2 <= length (column_tokens c))%nat.
Proof. unfold column_tokens, column_words. rewrite length_map. simpl. lia. Qed.



Section Creating.

Context `{Internals}.


End Creating.

(** * The command line program *)

Lemma find_key (m : RecordData) k : In k (map fst m) -> exists v, find m k = Some v.
Proof.
  induction m as [|[k' v'] m IH]; [intros []|]. simpl.
  destruct (String.eqb_spec k' k) as [->|Hne]; [eauto|].
  intros [E|Hin]; [contradiction|auto].
Qed.

Section Completing.

Context `{Internals}.

(** X27. The command [--complete] does not take a task that has no
    description out of the list of tasks.  On the table [tasks] as the
    program creates it, stored by its key, when the task of the ordinal asked
    for holds NULL as its description (as every task added without one does),
    the row of the task is still in [tasks] after the command, whatever the
    command ended with: the record read for the task carries the empty text
    for the description, and the removal that follows the copy asks for a row
    with that text. *)
Theorem complete_keeps_task_without_description (id : Z) (db : sqlite3) (t : Table) (r : row) :
  sqlite3FindTable db "tasks" = Some t ->
  tbl_columns t = tasks_schema ->
  keyed_by_id t = true ->
  (1 <= id)%Z ->
  nth_error (tbl_rows t) (Z.to_nat (id - 1)) = Some r ->
  column_of t "description" r = SQLITE_NULL ->
  fst (main_complete id db) <> inr out_of_range
  /\ exists t',
       sqlite3FindTable (snd (main_complete id db)) "tasks" = Some t'
       /\ tbl_columns t' = tasks_schema
       /\ In r (tbl_rows t').
Proof.
  intros F Hcols K Hid Hn Hnull.
  assert (In r (tbl_rows t)) as Hr by (eapply nth_error_In; eassumption).
  assert (column_index (tbl_columns t) "id" = Some 0%nat) as Hi by (now rewrite Hcols).
  unfold keyed_by_id in K. rewrite Hi in K.
  unfold main_complete.
  rewrite (getRecordByPseudoId_keyed "tasks" db t 0 id eq_refl eq_refl F Hi K).
  replace (1 <=? id)%Z with true by (symmetry; now apply Z.leb_le).
  rewrite Hn. unfold decode.
  destruct (decodeRow (result_row t r) []) as [rd|e] eqn:D;
    [|split; [discriminate|exists t; auto]].
  cbn [data].
  pose proof (decodeRow_keys _ _ _ D) as Keys.
  assert (forall k, In k ["id"; "title"; "description"; "timeCreated"] -> In k (map fst rd))
    as Hkeys.
  { intros k Hk. apply Keys. right. rewrite result_row_names, Hcols. exact Hk. }
  destruct (find_key rd "title") as (title & ->); [apply Hkeys; simpl; auto|].
  destruct (find_key rd "description") as (description & ->); [apply Hkeys; simpl; auto|].
  destruct (find_key rd "timeCreated") as (timeCreated & ->); [apply Hkeys; simpl; auto 6|].
  match goal with |- context [addRecord ?rec db] =>
    pose proof (addRecord_frame "completedTasks" (data rec) db "tasks" eq_refl eq_refl) as Fr;
    cbn [data] in Fr; destruct (addRecord rec db) as [ra db2] end.
  simpl in Fr. rewrite F in Fr.
  destruct ra as [[]|e]; [|split; [discriminate|exists t; auto]].
  destruct (decoded_record_keys t r rd) as (_ & Hk & M); [now rewrite Hcols|exact D|].
  destruct (removeRecord_keeps_row "tasks" rd db2 t r "description" eq_refl Hk Fr M Hr)
    as (rows' & -> & Hin); [apply Hkeys; simpl; auto|exact Hnull|].
  split; [discriminate|]. simpl.
  exists (mkTable (tbl_name t) (tbl_columns t) rows').
  split; [apply (sqlite3FindTable_set_rows _ _ _ _ Fr)|]. split; assumption.
Qed.

(** X28. The command [--remove] reports success when it has removed
    nothing.  With an ordinal that no task has (zero, negative, or above the
    number of tasks) it writes that the task was removed successfully, as it
    does for a task that exists, and the store is as it was. *)
Theorem remove_reports_success_without_removing (value : string) (id : Z)
        (db : sqlite3) (t : Table) :
  sqlite3FindTable db "tasks" = Some t ->
  has_column t "id" = true ->
  (id < 1 \/ Z.of_nat (length (tbl_rows t)) < id)%Z ->
  main_remove value id db
  = (inl ("Task " ++ value ++ " removed successfully" ++ tike.endl)%string, db).
Proof.
  intros F C Hid. unfold has_column in C.
  destruct (column_index (tbl_columns t) "id") as [i|] eqn:Hi; [|discriminate].
  unfold main_remove.
  rewrite (removeRecordByPseudoId_rows "tasks" db t i id eq_refl eq_refl F Hi).
  rewrite (rank_value_out_of_range db "tasks" t i id F Hi Hid).
  rewrite filter_all by (intros r; now rewrite sql_equal_null_r).
  now rewrite (set_rows_same db "tasks" t F).
Qed.

End Completing.

(** * Adding a record *)

Lemma combine_bound_values (m : RecordData) :
  combine (map fst m) (map bound_value (map (fun kv => binding_of_field (snd kv)) m))
  = map (fun kv => (fst kv, bound_value (binding_of_field (snd kv)))) m.
Proof. induction m as [|[k v] m IH]; simpl; [reflexivity|now rewrite IH]. Qed.

Section Adding.

Context `{Internals}.

Local Open Scope string_scope.

(** X29. What addRecord makes of the answer of SQLite.  With a record
    that is not empty, whose keys are identifiers and columns of the table,
    addRecord hands SQLite one value for each field, under the key of the
    field: the integer or the double of the field (NULL for a double that is
    not a number), or its text up to the first NUL.  When SQLite stores the
    row, addRecord returns and the table holds the rows SQLite made of it;
    when SQLite refuses the row, addRecord throws "Failed to execute
    statement: " with the message of SQLite, and the store is as it was. *)
Theorem addRecord_outcome (record : Record_) (db : sqlite3) (t : Table) :
  is_identifier (table record) = true ->
  data record <> [] ->
  identifiers (map fst (data record)) = true ->
  sqlite3FindTable db (table record) = Some t ->
  first_missing t (map fst (data record)) = None ->
  addRecord record db
  = match insertRow t (map (fun kv => (fst kv, bound_value (binding_of_field (snd kv))))
                           (data record)) with
    | inl errmsg => (Throw (runtime_error ("Failed to execute statement: " ++ errmsg)), db)
    | inr rows => (Return tt, set_rows db (table record) rows)
    end.
Proof.
  destruct record as [m tb]. cbn [data table].
  intros Ht Hne Hk F M.
  destruct m as [|[k v] m]; [contradiction|].
  unfold addRecord. cbn [data].
  unfold sqlite3_prepare_v2. rewrite (parse_addRecord tb k v m Ht Hk).
  unfold resolve. rewrite F. cbn [map fst] in M. rewrite M.
  simpl length. rewrite length_map, Nat.eqb_refl.
  change (repeat Unbound (variable_count (Insert tb (k :: map fst m) (S (length m)))))
    with (repeat Unbound (length ((k, v) :: m))).
  rewrite bindFields_fresh.
  unfold sqlite3_step. simpl stmt_sql. cbv iota. rewrite F. simpl stmt_vars.
  change (combine (k :: map fst m)
                  (map bound_value
                       (binding_of_field v :: map (fun kv => binding_of_field (snd kv)) m)))
    with (combine (map fst ((k, v) :: m))
                  (map bound_value (map (fun kv => binding_of_field (snd kv)) ((k, v) :: m)))).
  rewrite combine_bound_values.
  destruct (insertRow t _); reflexivity.
Qed.

End Adding.

(** * The further properties at work on the example data *)

Lemma failed_write_keeps_store_witness :
  is_identifier "tasks" = true
  /\ identifiers (map fst [("priority", FInt 1)]) = true
  /\ identifiers (map fst [("title", FString "Walk dog")]) = true
  /\ fst (@addRecord example_internals (mkRecord [("priority", FInt 1)] "tasks") example_store)
     = Throw (runtime_error
                "Failed to prepare statement: table tasks has no column named priority")
  /\ snd (@addRecord example_internals (mkRecord [("priority", FInt 1)] "tasks") example_store)
     = example_store.
Proof.
  split; [reflexivity|]. split; [reflexivity|]. split; [reflexivity|]. split; [reflexivity|].
  apply (proj1 (proj2 (@failed_write_keeps_store example_internals "tasks" tasks_columns
                         [("priority", FInt 1)] [("title", FString "Walk dog")] 2
                         example_store eq_refl eq_refl eq_refl))
               (runtime_error
                  "Failed to prepare statement: table tasks has no column named priority")).
  reflexivity.
Defined.


Lemma createTable_keeps_existing_witness :
  is_identifier "tasks" = true
  /\ sqlite3FindTable example_store "tasks" = Some three_tasks
  /\ @createTable example_internals "tasks" other_columns example_store
     = (Return tt, example_store).
Proof.
  split; [reflexivity|]. split; [reflexivity|].
  eapply (proj2 (@createTable_keeps_existing example_internals "tasks" other_columns
                   example_store three_tasks eq_refl eq_refl));
    [reflexivity|discriminate|reflexivity].
Defined.




Lemma filter_skips_null_witness :
  is_identifier "tasks" = true
  /\ identifiers (map fst [("description", FString EmptyString)]) = true
  /\ sqlite3FindTable example_store "tasks" = Some three_tasks
  /\ first_missing three_tasks (map fst [("description", FString EmptyString)]) = None
  /\ In buy_milk (tbl_rows three_tasks)
  /\ In "description" (map fst [("description", FString EmptyString)])
  /\ @column_of three_tasks "description" buy_milk = SQLITE_NULL
  /\ exists rows',
       @removeRecord example_internals "tasks" [("description", FString EmptyString)]
                     example_store
       = (Return tt, set_rows example_store "tasks" rows')
       /\ In buy_milk rows'.
Proof.
  split; [reflexivity|]. split; [reflexivity|]. split; [reflexivity|]. split; [reflexivity|].
  split; [now left|]. split; [now left|]. split; [reflexivity|].
  apply (@filter_skips_null example_internals "tasks"
           [("description", FString EmptyString)] example_store three_tasks buy_milk
           "description" eq_refl eq_refl eq_refl eq_refl
           (or_introl eq_refl) (or_introl eq_refl) eq_refl).
Defined.



Lemma pseudoId_needs_id_column_witness :
  is_identifier "notes" = true
  /\ sqlite3StrICmp "notes" "PseudoIDs" = false
  /\ sqlite3FindTable notes_store "notes"
     = Some (mkTable "notes" [mkColumnDef "body" ["TEXT"] []] [[SQLITE_TEXT "remember"]])
  /\ @getRecordByPseudoId example_internals "notes" 1 notes_store
     = (Throw (runtime_error "Failed to prepare statement: no such column: id"), notes_store)
  /\ @removeRecordByPseudoId example_internals "notes" 1 notes_store
     = (Throw (runtime_error "Failed to prepare statement: no such column: id"), notes_store).
Proof.
  split; [reflexivity|]. split; [reflexivity|]. split; [reflexivity|].
  apply (@pseudoId_needs_id_column example_internals "notes" notes_store
           (mkTable "notes" [mkColumnDef "body" ["TEXT"] []] [[SQLITE_TEXT "remember"]]) 1
           eq_refl eq_refl eq_refl eq_refl).
Defined.

Lemma addRecord_without_fields_witness :
  is_identifier "tasks" = true
  /\ addRecord_query (mkRecord [] "tasks") = "INSERT INTO tasks () VALUES ()"
  /\ exists errmsg,
       @addRecord example_internals (mkRecord [] "tasks") example_store
       = (Throw (runtime_error ("Failed to prepare statement: " ++ errmsg)), example_store).
Proof.
  split; [reflexivity|].
  apply (@addRecord_without_fields example_internals "tasks" example_store eq_refl).
Defined.

Lemma integer_column_read_back_witness :
  distinct (map fst [("id", SQLITE_INTEGER 4294967301)]) = true
  /\ In ("id", SQLITE_INTEGER 4294967301) [("id", SQLITE_INTEGER 4294967301)]
  /\ decodeRow [("id", SQLITE_INTEGER 4294967301)] [] = Return [("id", FInt 5)]
  /\ exists j,
       find [("id", FInt 5)] "id" = Some (FInt j)
       /\ in_int_range j = true
       /\ ((j - 4294967301) mod 2 ^ 32 = 0)%Z
       /\ (j = 4294967301%Z <-> in_int_range 4294967301 = true).
Proof.
  split; [reflexivity|]. split; [now left|]. split; [reflexivity|].
  apply (integer_column_read_back [("id", SQLITE_INTEGER 4294967301)] [("id", FInt 5)]
           "id" 4294967301 eq_refl (or_introl eq_refl) eq_refl).
Defined.

Lemma getAllRecords_all_or_nothing_witness :
  is_identifier "tasks" = true
  /\ sqlite3FindTable example_store "tasks" = Some three_tasks
  /\ sqlite3FindTable blob_store "tasks" = Some (mkTable "tasks" tasks_schema [scan_receipt])
  /\ (exists records,
         @getAllRecords example_internals "tasks" example_store = (Return records, example_store)
         /\ length records = 3%nat)
  /\ exists c',
       @getAllRecords example_internals "tasks" blob_store
       = (Throw (unsupported_column c'), blob_store).
Proof.
  split; [reflexivity|]. split; [reflexivity|]. split; [reflexivity|]. split.
  - destruct (proj1 (@getAllRecords_all_or_nothing example_internals "tasks" example_store
                       three_tasks eq_refl eq_refl)) as (records & G & L & _).
    + intros r c b [<-|[<-|[<-|[]]]] Hin; simpl in Hin;
        repeat (destruct Hin as [Hin|Hin]; [discriminate|]); exact Hin.
    + exists records. split; assumption.
  - apply (proj2 (@getAllRecords_all_or_nothing example_internals "tasks" blob_store
                    (mkTable "tasks" tasks_schema [scan_receipt]) eq_refl eq_refl)
             scan_receipt "description" "%PDF").
    + now left.
    + simpl. auto.
Defined.

Lemma pseudoIds_after_removal_witness :
  is_identifier "tasks" = true
  /\ sqlite3StrICmp "tasks" "PseudoIDs" = false
  /\ sqlite3FindTable example_store "tasks" = Some three_tasks
  /\ keyed_by_id three_tasks = true
  /\ fst (@removeRecordByPseudoId example_internals "tasks" 2 example_store) = Return tt
  /\ fst (@getRecordByPseudoId example_internals "tasks" 2
            (snd (@removeRecordByPseudoId example_internals "tasks" 2 example_store)))
     = fst (@getRecordByPseudoId example_internals "tasks" 3 example_store)
  /\ fst (@getRecordByPseudoId example_internals "tasks" 1
            (snd (@removeRecordByPseudoId example_internals "tasks" 2 example_store)))
     = fst (@getRecordByPseudoId example_internals "tasks" 1 example_store).
Proof.
  split; [reflexivity|]. split; [reflexivity|]. split; [reflexivity|]. split; [reflexivity|].
  pose proof (@pseudoIds_after_removal example_internals "tasks" example_store three_tasks 2
                eq_refl eq_refl eq_refl eq_refl ltac:(simpl; lia)) as (R & Below & From).
  split; [exact R|]. split; [apply (From 2%Z); lia|apply (Below 1%Z); lia].
Defined.

Lemma pseudoId_goes_by_value_witness :
  is_identifier "tasks" = true
  /\ sqlite3StrICmp "tasks" "PseudoIDs" = false
  /\ sqlite3FindTable repeated_store "tasks" = Some repeated_tasks
  /\ column_index (tbl_columns repeated_tasks) "id" = Some 0%nat
  /\ @removeRecordByPseudoId example_internals "tasks" 2 repeated_store
     = (Return tt, [mkTable "tasks" tasks_schema [buy_milk; pay_rent]])
  /\ exists r0,
       nth_error (order_by 0 (tbl_rows repeated_tasks)) (Z.to_nat (2 - 1)) = Some r0
       /\ In r0 (tbl_rows repeated_tasks)
       /\ @removeRecordByPseudoId example_internals "tasks" 2 repeated_store
          = (Return tt,
             set_rows repeated_store "tasks"
               (filter (fun r => negb (sql_equal (column_value r 0) (column_value r0 0)))
                       (tbl_rows repeated_tasks)))
       /\ @getRecordByPseudoId example_internals "tasks" 2 repeated_store
          = (match filter (fun r => sql_equal (column_value r 0) (column_value r0 0))
                          (tbl_rows repeated_tasks) with
             | r :: _ => decode "tasks" (result_row repeated_tasks r)
             | [] => Throw not_found
             end, repeated_store).
Proof.
  split; [reflexivity|]. split; [reflexivity|]. split; [reflexivity|]. split; [reflexivity|].
  split; [reflexivity|].
  apply (@pseudoId_goes_by_value example_internals "tasks" repeated_store repeated_tasks 0 2
           eq_refl eq_refl eq_refl eq_refl ltac:(simpl; lia)).
Defined.

Lemma parse_composes_witness :
  fst (tike.parse_loop ["--add"] (tike.args main_parser)) = Return tt
  /\ tike.parse ["tike"; "--add"; "-t"; "Water plants"] main_parser
     = tike.parse ["tike"; "-t"; "Water plants"]
                  (snd (tike.parse ["tike"; "--add"] main_parser))
  /\ tike.argHasValue "add"
       (snd (tike.parse ["tike"; "--add"; "-t"; "Water plants"] main_parser)) = true.
Proof.
  split; [reflexivity|]. split; [|reflexivity].
  apply (parse_composes "tike" "tike" ["--add"] ["-t"; "Water plants"] main_parser eq_refl).
Defined.

Lemma long_name_sets_value_witness :
  "title" <> EmptyString
  /\ tike.getArgByName "title" main_parser = Return title_arg
  /\ tike.getArgByName "title" (snd (tike.parse ["tike"; "--title"; "--add"] main_parser))
     = Return (tike.set_value title_arg "--add")
  /\ tike.argHasValue "title" (snd (tike.parse ["tike"; "--title"; "--add"] main_parser)) = true
  /\ tike.argHasValue "add" (snd (tike.parse ["tike"; "--title"; "--add"] main_parser)) = false.
Proof.
  split; [discriminate|]. split; [reflexivity|].
  pose proof (long_name_sets_value "tike" "title" "--add" main_parser title_arg
                ltac:(discriminate) eq_refl) as (G & V & _).
  split; [exact G|]. split; [exact V|reflexivity].
Defined.

Lemma short_name_sets_value_witness :
  Ascii.eqb (tike.char_at "t" 0) "-" = false
  /\ List.find (tike.short_named "t") (tike.args main_parser) = Some title_arg
  /\ List.find (tike.short_named "t")
       (tike.args (snd (tike.parse ["tike"; "-t"; "Water plants"] main_parser)))
     = Some (tike.set_value title_arg "Water plants").
Proof.
  split; [reflexivity|]. split; [reflexivity|].
  exact (proj1 (proj2 (short_name_sets_value "tike" "t" "Water plants" main_parser title_arg
                         eq_refl eq_refl))).
Defined.

Lemma parse_refuses_witness :
  fst (tike.parse_loop ["--add"] (tike.args main_parser)) = Return tt
  /\ tike.parse ["tike"; "--add"; "Water plants"] main_parser
     = (Throw (invalid_argument "Unexpected positional argument: Water plants"),
        snd (tike.parse ["tike"; "--add"] main_parser))
  /\ tike.parse ["tike"; "--add"; "--priority"; "1"] main_parser
     = (Throw (invalid_argument "Unknown argument: --priority"),
        snd (tike.parse ["tike"; "--add"] main_parser))
  /\ tike.parse ["tike"; "--add"; "--title"] main_parser
     = (Throw (invalid_argument "Missing value for argument: --title"),
        snd (tike.parse ["tike"; "--add"] main_parser)).
Proof.
  split; [reflexivity|].
  pose proof (parse_refuses "tike" ["--add"] main_parser eq_refl) as (P & _ & U & M).
  split; [apply (P "Water plants" []); reflexivity|]. split.
  - apply (U "priority" ["1"]); [discriminate|].
    intros arg Hin. simpl in Hin.
    repeat (destruct Hin as [<-|Hin]; [discriminate|]). destruct Hin.
  - apply (M "title" title_arg); [discriminate|reflexivity|reflexivity].
Defined.



Lemma complete_keeps_task_without_description_witness :
  sqlite3FindTable program_store "tasks" = Some three_tasks
  /\ tbl_columns three_tasks = tasks_schema
  /\ keyed_by_id three_tasks = true
  /\ nth_error (tbl_rows three_tasks) (Z.to_nat (1 - 1)) = Some buy_milk
  /\ column_of three_tasks "description" buy_milk = SQLITE_NULL
  /\ fst (@main_complete example_internals 1 program_store) = inl tt
  /\ fst (@main_complete example_internals 2 program_store) = inl tt
  /\ sqlite3FindTable (snd (@main_complete example_internals 2 program_store)) "tasks"
     = Some (mkTable "tasks" tasks_schema [buy_milk; pay_rent])
  /\ exists t',
       sqlite3FindTable (snd (@main_complete example_internals 1 program_store)) "tasks"
       = Some t'
       /\ tbl_columns t' = tasks_schema
       /\ In buy_milk (tbl_rows t').
Proof.
  split; [reflexivity|]. split; [reflexivity|]. split; [reflexivity|]. split; [reflexivity|].
  split; [reflexivity|]. split; [reflexivity|]. split; [reflexivity|]. split; [reflexivity|].
  exact (proj2 (@complete_keeps_task_without_description example_internals 1 program_store
                  three_tasks buy_milk eq_refl eq_refl eq_refl ltac:(lia) eq_refl eq_refl)).
Defined.

Lemma remove_reports_success_without_removing_witness :
  sqlite3FindTable program_store "tasks" = Some three_tasks
  /\ has_column three_tasks "id" = true
  /\ @main_remove example_internals "99" 99 program_store
     = (inl ("Task 99 removed successfully" ++ tike.endl)%string, program_store)
  /\ @main_remove example_internals "0" 0 program_store
     = (inl ("Task 0 removed successfully" ++ tike.endl)%string, program_store).
Proof.
  split; [reflexivity|]. split; [reflexivity|]. split.
  - apply (@remove_reports_success_without_removing example_internals "99" 99 program_store
             three_tasks eq_refl eq_refl). right. simpl. lia.
  - apply (@remove_reports_success_without_removing example_internals "0" 0 program_store
             three_tasks eq_refl eq_refl). left. lia.
Defined.

Lemma addRecord_outcome_witness :
  is_identifier (table new_task) = true
  /\ identifiers (map fst (data new_task)) = true
  /\ sqlite3FindTable example_store (table new_task) = Some three_tasks
  /\ first_missing three_tasks (map fst (data new_task)) = None
  /\ @addRecord example_internals new_task example_store
     = match @insertRow example_internals three_tasks
               [("title", SQLITE_TEXT "Water plants"); ("description", SQLITE_TEXT "balcony")] with
       | inl errmsg =>
           (Throw (runtime_error ("Failed to execute statement: " ++ errmsg)), example_store)
       | inr rows => (Return tt, set_rows example_store "tasks" rows)
       end.
Proof.
  split; [reflexivity|]. split; [reflexivity|]. split; [reflexivity|]. split; [reflexivity|].
  apply (@addRecord_outcome example_internals new_task example_store three_tasks
           eq_refl ltac:(discriminate) eq_refl eq_refl eq_refl).
Defined.

Lemma help_is_always_there_witness :
  tike.args (snd (tike.parse ["tike"; "-h"] main_parser))
  = tike.set_value (tike.newArg "help" (Some "h") "flag" "Show this help page" false) "true"
      :: tl (tike.args main_parser)
  /\ tike.argHasValue "help" (snd (tike.parse ["tike"; "-h"] main_parser)) = true.
Proof.
  apply (help_is_always_there "Tike" "TimeKeeper" "tike" "-h" (tl (tike.args main_parser))
           (or_intror eq_refl)).
Defined.
